(** * node-enumerable: a shallow embedding of [lib/index.ts]

    The development follows the TypeScript source class by class.

    Modelling conventions.
    - A sequence is represented by the list of items that the enumerator
      returned by [getEnumerator()] still has to produce; the source's
      [while (e.moveNext()) { ... ctx.item ... }] is recursion on that list,
      the head being [e.current] (module [Enumerator] models the enumerator
      itself, and [visited_items] relates its [moveNext] loop to the list).
    - JavaScript numbers that are used as counters and indices are [Z]; the
      numbers that [sum] adds are doubles ([float]).
    - A value passed for another sequence is a [Sequence]: an array-like
      value or another sequence object, told apart as [makeIterable] does.
    - A callback is a JavaScript closure: besides its arguments it reads and
      writes the variables it captured, and it may assign the mutable fields of
      the [ItemContext] it is handed.  It is modelled in state-passing style:
      it receives the captured state and the context and returns its result
      together with the context and the captured state it leaves behind.
      Callbacks are assumed to terminate without throwing and not to touch the
      enumerator of the sequence that is being traversed.
    - [throw "..."] is the [Throw] completion carrying the thrown string; an
      exception of the host (the [SyntaxError] of [eval], the [TypeError] of a
      string conversion) is the [Throw] completion carrying its message.
    - Equality comparers and sort comparers are pure functions. *)

From Stdlib Require Import ZArith String Ascii Lia Sorted Floats.
From stdpp Require Import base list strings pretty.

Local Open Scope string_scope.
Local Open Scope list_scope.
Local Open Scope Z_scope.

(** ** Completions: a returned value or a thrown string *)

Inductive Completion (A : Type) : Type :=
| Return (a : A)
| Throw (message : string).

Arguments Return {A} a.
Arguments Throw {A} message.

(** ** [class ItemContext<T>]

    [item] and [enumerator] delegate to the enumerator and are passed to the
    callbacks separately; [isFirst] is derived from [index]. *)

Record ItemContext (V : Type) : Type := mkItemContext {
  index : Z;
  previousValue : option V;
  cancel : bool;
  nextValue : option V;
  value : option V
}.

Arguments mkItemContext {V}.
Arguments index {V}.
Arguments previousValue {V}.
Arguments cancel {V}.
Arguments nextValue {V}.
Arguments value {V}.

(** Qualified field names, for the loops whose local variables share a name
    with a field ([value]). *)
Module ItemContext.
Abbreviation value := value.
Abbreviation nextValue := nextValue.
Abbreviation cancel := cancel.
Abbreviation index := index.
End ItemContext.

(** [new ItemContext(e, index, previousValue)]: [cancel] is initialised to
    [false], [nextValue] and [value] are left undefined. *)
Definition new_ItemContext {V} (index : Z) (previousValue : option V) : ItemContext V :=
  mkItemContext index previousValue false None None.

(** [ctx.value = value] *)
Definition set_value {V} (ctx : ItemContext V) (v : option V) : ItemContext V :=
  mkItemContext (index ctx) (previousValue ctx) (cancel ctx) (nextValue ctx) v.

(** [ctx.cancel = b] *)
Definition set_cancel {V} (ctx : ItemContext V) (b : bool) : ItemContext V :=
  mkItemContext (index ctx) (previousValue ctx) b (nextValue ctx) (value ctx).

(** [ctx.nextValue = v] *)
Definition set_nextValue {V} (ctx : ItemContext V) (v : option V) : ItemContext V :=
  mkItemContext (index ctx) (previousValue ctx) (cancel ctx) v (value ctx).

Definition isFirst {V} (ctx : ItemContext V) : bool := 0 =? index ctx.

(** ** [class IteratorEnumerator<T>] and [class ArrayEnumerator<T>]

    The iterator [makeIterable(arr)] is represented by the items it has not
    produced yet. *)

Module Enumerator.

Record IteratorResult (T : Type) : Type := mkIteratorResult {
  done : bool;
  value : option T
}.

Arguments mkIteratorResult {T}.
Arguments done {T}.
Arguments value {T}.

Record IteratorEnumerator (T : Type) : Type := mkIteratorEnumerator {
  _current : option (IteratorResult T);
  _index : Z;
  _iterator : list T
}.

Arguments mkIteratorEnumerator {T}.
Arguments _current {T}.
Arguments _index {T}.
Arguments _iterator {T}.

Section Enumerator.
Context {T : Type}.

(** [this._iterator.next()] *)
Definition next (iterator : list T) : IteratorResult T * list T :=
  match iterator with
  | [] => (mkIteratorResult true None, [])
  | x :: iterator => (mkIteratorResult false (Some x), iterator)
  end.

(** [new ArrayEnumerator(arr)], which ends with [this.reset()] *)
Definition new_ArrayEnumerator (arr : list T) : IteratorEnumerator T :=
  mkIteratorEnumerator None (-1) arr.

(** [public get current()] *)
Definition current (e : IteratorEnumerator T) : option T :=
  match _current e with
  | Some r => value r
  | None => None
  end.

(** [public get isValid()] *)
Definition isValid (e : IteratorEnumerator T) : bool :=
  match _current e with
  | Some r => negb (done r)
  | None => true
  end.

(** [public get key()] *)
Definition key (e : IteratorEnumerator T) : Z := _index e.

(** [public moveNext()] *)
Definition moveNext (e : IteratorEnumerator T) : bool * IteratorEnumerator T :=
  if negb (isValid e) then (false, e)
  else
    let '(r, iterator) := next (_iterator e) in
    (negb (done r), mkIteratorEnumerator (Some r) (_index e + 1) iterator).

(** What [while (e.moveNext()) { visit(e.key, e.current) }] visits; [fuel]
    bounds the number of calls of [moveNext]. *)
Fixpoint visited (fuel : nat) (e : IteratorEnumerator T) : list (Z * option T) :=
  match fuel with
  | O => []
  | S fuel =>
      let '(more, e) := moveNext e in
      if more then (key e, current e) :: visited fuel e else []
  end.
End Enumerator.
End Enumerator.

(** ** Callback types (lines 33-110 of the source) *)

Section CallbackTypes.
Context (Closure T V : Type).

(** [type Predciate<T> = (item: T, ctx: IItemContext<T>) => boolean] *)
Definition Predciate : Type :=
  Closure -> T -> ItemContext V -> bool * ItemContext V * Closure.

(** [type Aggregator<T, U> = (result: any, item: T, ctx) => U] *)
Definition Aggregator : Type :=
  Closure -> T -> T -> ItemContext V -> T * ItemContext V * Closure.

(** [type KeySelector<K, T, U> = (key: K, item: T, ctx) => U] *)
Definition KeySelector : Type :=
  Closure -> Z -> T -> ItemContext V -> Z * ItemContext V * Closure.

(** [type Selector<T, U> = (item: T, ctx) => U] *)
Definition Selector (U : Type) : Type :=
  Closure -> T -> ItemContext V -> U * ItemContext V * Closure.

(** [type EqualityComparer<T> = (x: T, y: any) => boolean] *)
Definition EqualityComparer : Type := T -> T -> bool.
End CallbackTypes.

(** [type Comparer<T> = (x: T, y: any) => number] *)
Definition Comparer (U : Type) : Type := U -> U -> Z.

(** The built-in relational operator [<] on the values of a type; [x > y] is
    [js_lt y x]. *)
Class JsLess (U : Type) : Type := js_lt : U -> U -> bool.

#[global] Instance JsLess_Z : JsLess Z := Z.ltb.

(** The built-in equality operators [==] and [===] on the values of a type. *)
Class JsEquals (T : Type) : Type := {
  loose_eq : T -> T -> bool;
  strict_eq : T -> T -> bool
}.

#[global] Instance JsEquals_Z : JsEquals Z := {| loose_eq := Z.eqb; strict_eq := Z.eqb |}.

(** ** JavaScript values that reach the argument-sniffing helpers

    [F] is the type of the callables, [O] the type of the remaining (truthy,
    not callable) objects. *)

Inductive JsValue (F O : Type) : Type :=
| JsUndefined
| JsNull
| JsBoolean (b : bool)
| JsNumber (n : Z)
| JsNaN
| JsString (s : string)
| JsFunction (f : F)
| JsObject (o : O).

Arguments JsUndefined {F O}.
Arguments JsNull {F O}.
Arguments JsBoolean {F O} b.
Arguments JsNumber {F O} n.
Arguments JsNaN {F O}.
Arguments JsString {F O} s.
Arguments JsFunction {F O} f.
Arguments JsObject {F O} o.

(** What the regular expression of [asFunc] captures: [matches[0]],
    [matches[2]], [matches[3]] and [matches[4]]. *)
Record LambdaMatch : Type := mkLambdaMatch {
  match_0 : string;
  match_2 : string;
  match_3 : string;
  match_4 : string
}.

(** The host facilities [asFunc] relies on: string conversion of functions
    and objects,
    [String.prototype.match] with the lambda pattern, the trimming
    [replace] of the lambda body, and [eval] of the assembled function
    source (parameters, body).  The string conversion of an object runs its
    [toString] or [valueOf] and may throw; it is a function of the object;
    [eval] throws a [SyntaxError] when the assembled source is no function
    expression. *)
Class LambdaHost (F O : Type) : Type := {
  function_toString : F -> string;
  object_toString : O -> Completion string;
  lambda_match : string -> option LambdaMatch;
  lambda_trim : string -> string;
  eval_function : string -> string -> Completion F
}.

Module Args.
Section Args.
Context {F O : Type} `{LambdaHost F O}.

(** [!v] is [negb (truthy v)] *)
Definition truthy (v : JsValue F O) : bool :=
  match v with
  | JsUndefined | JsNull | JsNaN => false
  | JsBoolean b => b
  | JsNumber n => negb (n =? 0)
  | JsString s => negb (String.eqb s "")
  | JsFunction _ | JsObject _ => true
  end.

(** ["" + v] *)
Definition to_string (v : JsValue F O) : Completion string :=
  match v with
  | JsUndefined => Return "undefined"
  | JsNull => Return "null"
  | JsBoolean true => Return "true"
  | JsBoolean false => Return "false"
  | JsNumber n => Return (pretty n)
  | JsNaN => Return "NaN"
  | JsString s => Return s
  | JsFunction f => Return (function_toString f)
  | JsObject o => object_toString o
  end.

(** [lambda.substr(n)] *)
Definition substr_from (n : nat) (s : string) : string :=
  String.substring n (String.length s - n)%nat s.

(** [';' !== lambdaBody.substr(-1)] *)
Definition ends_with_semicolon (s : string) : bool :=
  match String.get (String.length s - 1)%nat s with
  | Some c => Ascii.eqb c ";"%char
  | None => false
  end.

(** [export function asFunc(v, throwException = true)] *)
Definition asFunc (v : JsValue F O) (throwException : bool) : Completion (JsValue F O) :=
  match v with
  | JsFunction _ => Return v
  | _ =>
    if negb (truthy v) then Return v
    else
      match to_string v with
      | Throw m => Throw m
      | Return lambda =>
        match lambda_match lambda with
        | Some matches =>
          if (String.eqb "" (match_2 matches) && negb (String.eqb "" (match_4 matches)))
             || (negb (String.eqb "" (match_2 matches)) && String.eqb "" (match_4 matches))
          then
            if throwException
            then Throw ("Syntax error in '" +:+ lambda +:+ "' expression!")
            else Return JsNull
          else
            let lambdaBody :=
              lambda_trim (substr_from (String.length (match_0 matches)) lambda) in
            let lambdaBody :=
              if negb (String.eqb "" lambdaBody) && negb (ends_with_semicolon lambdaBody)
              then "return " +:+ lambdaBody +:+ ";"
              else lambdaBody in
            match eval_function (match_3 matches) lambdaBody with
            | Throw m => Throw m
            | Return func => Return (JsFunction func)
            end
        | None =>
          if throwException
          then Throw ("'" +:+ lambda +:+ "' is NO valid lambda expression!")
          else Return (JsBoolean false)
        end
      end
  end.
End Args.
End Args.

(** The built-in operator [+] on the values of a type (default aggregator). *)
Class JsAdd (T : Type) : Type := js_add : T -> T -> T.

#[global] Instance JsAdd_Z : JsAdd Z := Z.add.

(** The argument of the [...Safe] converters for equality comparers:
    the literal [true], a function, or nothing. *)
Inductive EqualityComparerArg (T : Type) : Type :=
| EcTrue
| EcFunction (f : EqualityComparer T)
| EcUndefined.

Arguments EcTrue {T}.
Arguments EcFunction {T} f.
Arguments EcUndefined {T}.

(** [interface IOrDefaultArgs<T, U>] *)
Record IOrDefaultArgs (F O : Type) : Type := mkOrDefaultArgs {
  defaultValue : JsValue F O;
  predicate : F
}.

Arguments mkOrDefaultArgs {F O}.
Arguments defaultValue {F O}.
Arguments predicate {F O}.

(** What a method declared [T | U] returns: an item of the sequence or the
    default value. *)
Inductive ItemOrDefault (T F O : Type) : Type :=
| Item (item : T)
| Default (v : JsValue F O).

Arguments Item {T F O} item.
Arguments Default {T F O} v.

Module Enumerable.
Section Enumerable.
Context {Closure T V O : Type}.
Context `{LambdaHost (Predciate Closure T V) O}.

Abbreviation Pred := (Predciate Closure T V).

(** [export function toPredicateSafe<T>(val?, obj?)].  A truthy result of
    [asFunc(val)] is always a function; the wrapper only coerces the
    result of the call to a boolean, which the model's predicates already
    return. *)
Definition toPredicateSafe (val : JsValue Pred O) : Completion Pred :=
  match Args.asFunc val true with
  | Throw m => Throw m
  | Return (JsFunction func) =>
      Return (fun s item ctx =>
                let '(r, ctx, s) := func s item ctx in
                (if r then true else false, ctx, s))
  | Return _ => Return (fun s _ ctx => (true, ctx, s))
  end.

(** [function toOrDefaultArgs<T, U>(predicateOrDefaultValue, defaultValue, argCount)] *)
Definition toOrDefaultArgs (predicateOrDefaultValue defaultValue : JsValue Pred O)
    (argCount : nat) : Completion (IOrDefaultArgs Pred O) :=
  let predicate := predicateOrDefaultValue in
  let defVal := defaultValue in
  match Args.asFunc predicate false with
  | Throw m => Throw m
  | Return func =>
      let '(predicate, defVal) :=
        match func with
        | JsBoolean false =>
            if Nat.eqb 1 argCount then (JsNull, predicate) else (predicate, defVal)
        | _ => (predicate, defVal)
        end in
      match toPredicateSafe predicate with
      | Throw m => Throw m
      | Return p => Return (mkOrDefaultArgs defVal p)
      end
  end.

(** The parameters of a call [f(a, b)] as seen through [arguments]: the
    n-th declared parameter is undefined when fewer arguments are passed. *)
Definition parameter (arguments : list (JsValue Pred O)) (n : nat) : JsValue Pred O :=
  nth n arguments JsUndefined.

(** *** [count] *)

Fixpoint count_loop (p : Pred) (e : list T) (cnt index : Z)
    (prevVal value : option V) (s : Closure) : Z * Closure :=
  match e with
  | [] => (cnt, s)
  | item :: e =>
      let index := index + 1 in
      let ctx := set_value (new_ItemContext index prevVal) value in
      let '(doesMatch, ctx, s) := p s item ctx in
      if cancel ctx then (cnt, s)
      else
        let cnt := if doesMatch then cnt + 1 else cnt in
        count_loop p e cnt index (nextValue ctx) (ItemContext.value ctx) s
  end.

Definition count (predicate : JsValue Pred O) (e : list T) (s : Closure)
    : Completion Z * Closure :=
  match toPredicateSafe predicate with
  | Throw m => (Throw m, s)
  | Return p => let '(cnt, s) := count_loop p e 0 (-1) None None s in (Return cnt, s)
  end.

(** *** [where] and [whereInner]: the items the generator yields when it
    is driven to its end *)

Fixpoint whereInner_loop (predicate : Pred) (e : list T) (index : Z)
    (prevVal value : option V) (s : Closure) : list T * Closure :=
  match e with
  | [] => ([], s)
  | item :: e =>
      let index := index + 1 in
      let ctx := set_value (new_ItemContext index prevVal) value in
      let '(doesMatch, ctx, s) := predicate s item ctx in
      if cancel ctx then ([], s)
      else
        let '(yielded, s) :=
          whereInner_loop predicate e index (nextValue ctx) (ItemContext.value ctx) s in
        (if doesMatch then item :: yielded else yielded, s)
  end.

Definition whereInner (predicate : Pred) (e : list T) (s : Closure) : list T * Closure :=
  whereInner_loop predicate e (-1) None None s.

Definition where_ (predicate : JsValue Pred O) (e : list T) (s : Closure)
    : Completion (list T) * Closure :=
  match toPredicateSafe predicate with
  | Throw m => (Throw m, s)
  | Return p => let '(items, s) := whereInner p e s in (Return items, s)
  end.

(** *** [first] and [firstOrDefault]

    The two methods contain the same loop; [found] and [result] are kept
    together as an option. *)

Fixpoint first_loop (p : Pred) (e : list T) (index : Z)
    (prevVal value : option V) (s : Closure) : option T * Closure :=
  match e with
  | [] => (None, s)
  | item :: e =>
      let index := index + 1 in
      let ctx := set_value (new_ItemContext index prevVal) value in
      let '(doesMatch, ctx, s) := p s item ctx in
      if cancel ctx then (None, s)
      else if doesMatch then (Some item, s)
      else first_loop p e index (nextValue ctx) (ItemContext.value ctx) s
  end.

Definition first (predicate : JsValue Pred O) (e : list T) (s : Closure)
    : Completion T * Closure :=
  match toPredicateSafe predicate with
  | Throw m => (Throw m, s)
  | Return p =>
      match first_loop p e (-1) None None s with
      | (Some result, s) => (Return result, s)
      | (None, s) => (Throw "No matching element found!", s)
      end
  end.

Definition firstOrDefault (arguments : list (JsValue Pred O)) (e : list T) (s : Closure)
    : Completion (ItemOrDefault T Pred O) * Closure :=
  match toOrDefaultArgs (parameter arguments 0) (parameter arguments 1)
                        (length arguments) with
  | Throw m => (Throw m, s)
  | Return args =>
      match first_loop (predicate args) e (-1) None None s with
      | (Some result, s) => (Return (Item result), s)
      | (None, s) => (Return (Default (defaultValue args)), s)
      end
  end.

(** *** [last] and [lastOrDefault] *)

Fixpoint last_loop (p : Pred) (e : list T) (result : option T) (index : Z)
    (prevVal value : option V) (s : Closure) : option T * Closure :=
  match e with
  | [] => (result, s)
  | item :: e =>
      let index := index + 1 in
      let ctx := set_value (new_ItemContext index prevVal) value in
      let '(doesMatch, ctx, s) := p s item ctx in
      if cancel ctx then (result, s)
      else
        let result := if doesMatch then Some item else result in
        last_loop p e result index (nextValue ctx) (ItemContext.value ctx) s
  end.

Definition last (predicate : JsValue Pred O) (e : list T) (s : Closure)
    : Completion T * Closure :=
  match toPredicateSafe predicate with
  | Throw m => (Throw m, s)
  | Return p =>
      match last_loop p e None (-1) None None s with
      | (Some result, s) => (Return result, s)
      | (None, s) => (Throw "No matching element found!", s)
      end
  end.

Definition lastOrDefault (arguments : list (JsValue Pred O)) (e : list T) (s : Closure)
    : Completion (ItemOrDefault T Pred O) * Closure :=
  match toOrDefaultArgs (parameter arguments 0) (parameter arguments 1)
                        (length arguments) with
  | Throw m => (Throw m, s)
  | Return args =>
      match last_loop (predicate args) e None (-1) None None s with
      | (Some result, s) => (Return (Item result), s)
      | (None, s) => (Return (Default (defaultValue args)), s)
      end
  end.

(** *** [single] and [singleOrDefault] *)

Fixpoint single_loop (p : Pred) (e : list T) (result : option T) (index : Z)
    (prevVal value : option V) (s : Closure) : Completion (option T) * Closure :=
  match e with
  | [] => (Return result, s)
  | item :: e =>
      let index := index + 1 in
      let ctx := set_value (new_ItemContext index prevVal) value in
      let '(doesMatch, ctx, s) := p s item ctx in
      if cancel ctx then (Return result, s)
      else if doesMatch then
        match result with
        | None => single_loop p e (Some item) index (nextValue ctx) (ItemContext.value ctx) s
        | Some _ => (Throw "Sequence contains more than one matching element!", s)
        end
      else single_loop p e result index (nextValue ctx) (ItemContext.value ctx) s
  end.

Definition single (predicate : JsValue Pred O) (e : list T) (s : Closure)
    : Completion T * Closure :=
  match toPredicateSafe predicate with
  | Throw m => (Throw m, s)
  | Return p =>
      match single_loop p e None (-1) None None s with
      | (Throw m, s) => (Throw m, s)
      | (Return (Some result), s) => (Return result, s)
      | (Return None, s) => (Throw "No matching element found!", s)
      end
  end.

Definition singleOrDefault (arguments : list (JsValue Pred O)) (e : list T) (s : Closure)
    : Completion (ItemOrDefault T Pred O) * Closure :=
  match toOrDefaultArgs (parameter arguments 0) (parameter arguments 1)
                        (length arguments) with
  | Throw m => (Throw m, s)
  | Return args =>
      match single_loop (predicate args) e None (-1) None None s with
      | (Throw m, s) => (Throw m, s)
      | (Return (Some result), s) => (Return (Item result), s)
      | (Return None, s) => (Return (Default (defaultValue args)), s)
      end
  end.
End Enumerable.

Section Aggregate.
Context {Closure T V O : Type}.
Context `{JsAdd T} `{LambdaHost (Aggregator Closure T V) O}.

Fixpoint aggregate_loop (a : Aggregator Closure T V) (e : list T) (result : T)
    (index : Z) (prevVal value : option V) (s : Closure) : T * Closure :=
  match e with
  | [] => (result, s)
  | item :: e =>
      let index := index + 1 in
      let ctx := set_value (new_ItemContext index prevVal) value in
      let '(currentResult, ctx, s) :=
        if negb (0 =? index) then a s result item ctx else (item, ctx, s) in
      if cancel ctx then (result, s)
      else aggregate_loop a e currentResult index (nextValue ctx) (ItemContext.value ctx) s
  end.

(** [public aggregate<U, V>(aggregator, defaultValue?)] *)
Definition aggregate (aggregator : JsValue (Aggregator Closure T V) O) (defaultValue : T)
    (e : list T) (s : Closure) : Completion T * Closure :=
  match Args.asFunc aggregator true with
  | Throw m => (Throw m, s)
  | Return a =>
      let a :=
        match a with
        | JsFunction a => a
        | _ => fun s result item ctx => (js_add result item, ctx, s)
        end in
      let '(result, s) := aggregate_loop a e defaultValue (-1) None None s in
      (Return result, s)
  end.
End Aggregate.

Section Distinct.
Context {T : Type} `{JsEquals T}.

(** [export function toEqualityComparerSafe<T>(val?, obj?)] *)
Definition toEqualityComparerSafe (val : EqualityComparerArg T) : EqualityComparer T :=
  match val with
  | EcTrue => fun x y => strict_eq x y
  | EcFunction func => fun x y => if func x y then true else false
  | EcUndefined => fun x y => loose_eq x y
  end.

(** The body of the [while] loop of [distinctInner]; [temp] holds the items
    yielded so far, and the inner [for] loop with its [break] is [existsb]. *)
Fixpoint distinctInner_loop (ec : EqualityComparer T) (e : list T) (temp : list T) : list T :=
  match e with
  | [] => []
  | item :: e =>
      let alreadyExists := existsb (fun existingItem => ec item existingItem) temp in
      if negb alreadyExists
      then item :: distinctInner_loop ec e (temp ++ [item])
      else distinctInner_loop ec e temp
  end.

(** [protected* distinctInner(comparer)] *)
Definition distinctInner (comparer : EqualityComparer T) (e : list T) : list T :=
  let ec := toEqualityComparerSafe (EcFunction comparer) in
  distinctInner_loop ec e [].

(** [public distinct(comparer?)] *)
Definition distinct (comparer : EqualityComparerArg T) (e : list T) : list T :=
  let ec := toEqualityComparerSafe comparer in
  distinctInner ec e.
End Distinct.

Section ToArray.
Context {Closure T V O : Type}.
Context `{LambdaHost (KeySelector Closure T V) O}.

(** The loop of [toArray]; [key] is [e.key], the index the enumerator keeps.
    The context is fresh when [ctx.cancel] is tested, and a key selector runs
    inside [action], after the test.  With a key selector, [action] evaluates
    the expression statement [arr[k];], which reads the slot and stores
    nothing. *)
Fixpoint toArray_loop (ks : option (KeySelector Closure T V)) (e : list T) (arr : list T)
    (key index : Z) (prevVal value : option V) (s : Closure) : list T * Closure :=
  match e with
  | [] => (arr, s)
  | item :: e =>
      let key := key + 1 in
      let index := index + 1 in
      let ctx := set_value (new_ItemContext index prevVal) value in
      if cancel ctx then (arr, s)
      else
        let '(arr, ctx, s) :=
          match ks with
          | None => (arr ++ [item], ctx, s)
          | Some ks =>
              let '(k, ctx, s) := ks s key item ctx in
              (arr, ctx, s)
          end in
        toArray_loop ks e arr key index (nextValue ctx) (ItemContext.value ctx) s
  end.

(** [public toArray(keySelector?)]; for [true] the key selector
    [(key) => parseInt(('' + key).trim())] returns the integer key. *)
Definition toArray (keySelector : JsValue (KeySelector Closure T V) O)
    (e : list T) (s : Closure) : Completion (list T) * Closure :=
  let keySelector :=
    match keySelector with
    | JsBoolean true => JsFunction (fun s key _ ctx => (key, ctx, s))
    | _ => keySelector
    end in
  match Args.asFunc keySelector true with
  | Throw m => (Throw m, s)
  | Return ks =>
      let ks := match ks with JsFunction ks => Some ks | _ => None end in
      let '(arr, s) := toArray_loop ks e [] (-1) (-1) None None s in
      (Return arr, s)
  end.
End ToArray.

Section ElementAt.
Context {T V O : Type}.
Context `{LambdaHost (Predciate Z T V) O}.

(** The predicate [(item, ctx) => 0 === index--] of [elementAt] and
    [elementAtOrDefault]; the captured variable is [index]. *)
Definition elementAt_predicate : Predciate Z T V :=
  fun index _ ctx => (0 =? index, ctx, index - 1).

(** [public elementAt(index)]; [toNumber] is the identity on numbers. *)
Definition elementAt (index : Z) (e : list T) : Completion T :=
  if index <? 0 then Throw ("Index out of range: " +:+ pretty index)
  else fst (first (JsFunction elementAt_predicate) e index).

(** [public elementAtOrDefault<U>(index, defaultValue?)] *)
Definition elementAtOrDefault (index : Z) (defaultValue : JsValue (Predciate Z T V) O)
    (e : list T) : Completion (ItemOrDefault T (Predciate Z T V) O) :=
  if index <? 0 then Throw ("Index out of range: " +:+ pretty index)
  else fst (firstOrDefault [JsFunction elementAt_predicate; defaultValue] e index).
End ElementAt.
End Enumerable.

(** ** Sequencing of completions: a statement that throws ends the method *)

#[global] Instance Completion_bind : MBind Completion :=
  fun A B (k : A -> Completion B) (c : Completion A) =>
    match c with
    | Return a => k a
    | Throw m => Throw m
    end.

(** ** [class Collection<T>], [HashSet<T>], [List<T>], [ReadOnlyCollection<T>] *)

(** The value [undefined] as an element of an array (what a hole reads as). *)
Class JsUndefinedValue (T : Type) : Type := js_undefined : T.

#[global] Instance JsUndefinedValue_option {A} : JsUndefinedValue (option A) := None.

Module Collection.

Inductive Class_ : Type :=
| ClassCollection
| ClassHashSet
| ClassList
| ClassReadOnlyCollection.

Record Collection (T : Type) : Type := mkCollection {
  _class : Class_;
  _arr : list T;
  _comparer : EqualityComparer T;
  _hasChanged : bool
}.

Arguments mkCollection {T}.
Arguments _class {T}.
Arguments _arr {T}.
Arguments _comparer {T}.
Arguments _hasChanged {T}.

Section Collection.
Context {T : Type} `{JsEquals T}.

(** The constructors: [new Collection(seq, comparer)],
    [new List(seq, comparer)], [new HashSet(seq, comparer)] and
    [new ReadOnlyCollection(arr, comparer)]; [seq] is given by its items. *)
Definition new_ (class : Class_) (seq : list T) (comparer : EqualityComparerArg T)
    : Collection T :=
  let comparer := Enumerable.toEqualityComparerSafe comparer in
  match class with
  | ClassHashSet =>
      mkCollection class (Enumerable.distinct (EcFunction comparer) seq) comparer false
  | _ => mkCollection class seq comparer false
  end.

(** [public get isReadonly()], overridden in [ReadOnlyCollection] *)
Definition isReadonly (c : Collection T) : bool :=
  match _class c with
  | ClassReadOnlyCollection => true
  | _ => false
  end.

(** [public get length()] *)
Definition length_ (c : Collection T) : Z := Z.of_nat (length (_arr c)).

(** [protected throwIfReadOnly()] *)
Definition throwIfReadOnly (c : Collection T) : Completion unit :=
  Throw "Collection is read-only!".

(** [protected markAsChanged(func?)], after [func] has produced the array *)
Definition markAsChanged (c : Collection T) (arr : list T) : Collection T :=
  mkCollection (_class c) arr (_comparer c) true.

(** [Collection.add(item)] *)
Definition Collection_add (c : Collection T) (item : T)
    : Completion (option bool * Collection T) :=
  _ ← throwIfReadOnly c;
  Return (None, markAsChanged c (_arr c ++ [item])).

(** [HashSet.addIfNotPresent(item)] *)
Definition addIfNotPresent (c : Collection T) (item : T)
    : Completion (option bool * Collection T) :=
  if existsb (fun t => _comparer c t item) (_arr c)
  then Return (Some false, c)
  else
    r ← Collection_add c item;
    Return (Some true, snd r).

(** [add(item)], as dispatched on the class of the receiver *)
Definition add (c : Collection T) (item : T) : Completion (option bool * Collection T) :=
  match _class c with
  | ClassHashSet => addIfNotPresent c item
  | _ => Collection_add c item
  end.

(** [public addRange(...items)] *)
Fixpoint addRange (c : Collection T) (items : list T) : Completion (Collection T) :=
  match items with
  | [] => Return c
  | item :: items =>
      r ← add c item;
      addRange (snd r) items
  end.

(** [public push(...items)] *)
Definition push (c : Collection T) (items : list T) : Completion (Z * Collection T) :=
  _ ← throwIfReadOnly c;
  c ← addRange c items;
  Return (length_ c, c).

(** [public clear()] *)
Definition clear (c : Collection T) : Completion (Collection T) :=
  _ ← throwIfReadOnly c;
  Return (markAsChanged c []).

Section SetItem.
Context `{JsUndefinedValue T}.

(** [a[index] = item] on an array: inside the array the slot is replaced,
    beyond its end the array grows and the skipped slots read as
    [undefined], and a negative index names a property, not a slot. *)
Definition array_set (a : list T) (index : Z) (item : T) : list T :=
  if index <? 0 then a
  else
    let i := Z.to_nat index in
    if (i <? length a)%nat then <[i := item]> a
    else a ++ replicate (i - length a) js_undefined ++ [item].

(** [public setItem(index, item)] *)
Definition setItem (c : Collection T) (index : Z) (item : T) : Completion (Collection T) :=
  _ ← throwIfReadOnly c;
  Return (markAsChanged c (array_set (_arr c) index item)).
End SetItem.

(** The position [a.splice(start, ...)] starts from. *)
Definition splice_start (a : list T) (start : Z) : nat :=
  let len := Z.of_nat (length a) in
  Z.to_nat (if start <? 0 then Z.max (len + start) 0 else Z.min start len).

(** [List.insert(index, item)] *)
Definition insert (c : Collection T) (index : Z) (item : T) : Completion (Collection T) :=
  _ ← throwIfReadOnly c;
  let a := _arr c in
  let i := splice_start a index in
  Return (markAsChanged c (take i a ++ item :: drop i a)).

(** [List.removeAt(index)] *)
Definition removeAt (c : Collection T) (index : Z) : Completion (bool * Collection T) :=
  _ ← throwIfReadOnly c;
  if (0 <=? index) && (index <? length_ c)
  then Return (true, markAsChanged c (delete (Z.to_nat index) (_arr c)))
  else Return (false, c).

Section RemoveAll.
Context {Closure V : Type}.

(** The [for] loop of [removeAll]: [kept] is the part of the array before
    position [i], [rest] the part from [i] on.  After [a.splice(i, 1)] the
    increment of [i] steps over the item that moved into slot [i]. *)
Fixpoint removeAll_loop (p : Predciate Closure T V) (kept rest : list T) (i removedItems : Z)
    (hasChanged : bool) (s : Closure) : list T * Z * bool * Closure :=
  match rest with
  | [] => (kept, removedItems, hasChanged, s)
  | item :: rest =>
      let ctx := new_ItemContext i (@None V) in
      let '(doRemove, ctx, s) := p s item ctx in
      if cancel ctx then (kept ++ item :: rest, removedItems, hasChanged, s)
      else if doRemove then
        match rest with
        | [] => (kept, removedItems + 1, true, s)
        | moved :: rest =>
            removeAll_loop p (kept ++ [moved]) rest (i + 1) (removedItems + 1) true s
        end
      else removeAll_loop p (kept ++ [item]) rest (i + 1) removedItems hasChanged s
  end.

(** [public removeAll(predicate)], for a predicate given as a function *)
Definition removeAll (c : Collection T) (predicate : Predciate Closure T V) (s : Closure)
    : Completion (Z * Collection T) * Closure :=
  match throwIfReadOnly c with
  | Throw m => (Throw m, s)
  | Return _ =>
      let p : Predciate Closure T V :=
        fun s item ctx =>
          let '(r, ctx, s) := predicate s item ctx in (if r then true else false, ctx, s) in
      let '(arr, removedItems, hasChanged, s) :=
        removeAll_loop p [] (_arr c) 0 0 (_hasChanged c) s in
      (Return (removedItems, mkCollection (_class c) arr (_comparer c) hasChanged), s)
  end.
End RemoveAll.

(** [public remove(item)]; the captured variable of its predicate is
    [itemRemoved]. *)
Definition remove (c : Collection T) (item : T) : Completion (bool * Collection T) :=
  let predicate : Predciate bool T unit :=
    fun itemRemoved x ctx =>
      if itemRemoved then (false, set_cancel ctx true, itemRemoved)
      else let r := _comparer c x item in (r, ctx, r) in
  r ← fst (removeAll c predicate false);
  Return (fst r >? 0, snd r).

(** [public containsItem(item)] *)
Definition containsItem (c : Collection T) (item : T) : bool :=
  existsb (fun x => _comparer c x item) (_arr c).

(** [public getItem(index)], for an integer index; a slot outside the array
    reads as [undefined]. *)
Definition getItem (c : Collection T) (index : Z) : option T :=
  if index <? 0 then None else _arr c !! Z.to_nat index.

(** The [for] loop of [List.indexOf], from position [i] on *)
Fixpoint indexOf_loop (comparer : EqualityComparer T) (arr : list T) (item : T) (i : Z) : Z :=
  match arr with
  | [] => -1
  | x :: arr => if comparer x item then i else indexOf_loop comparer arr item (i + 1)
  end.

(** [List.indexOf(item)] *)
Definition indexOf (c : Collection T) (item : T) : Z :=
  indexOf_loop (_comparer c) (_arr c) item 0.

(** [toSet(comparer)] on the sequence with the items [seq] *)
Definition toSet (seq : list T) (comparer : EqualityComparer T) : Collection T :=
  new_ ClassHashSet seq (EcFunction comparer).

(** [HashSet.isSubsetOf(other)] *)
Definition isSubsetOf (c : Collection T) (other : list T) : bool :=
  if length_ c <? 1 then true
  else
    let otherHS := toSet other (_comparer c) in
    forallb (fun t => containsItem otherHS t) (_arr c).

(** [HashSet.isSupersetOf(other)]; the enumerator named [otherHSEnumerator]
    is [this.getEnumerator()]. *)
Definition isSupersetOf (c : Collection T) (other : list T) : bool :=
  if length_ c <? 1 then true
  else
    let otherHS := toSet other (_comparer c) in
    if length_ otherHS <? 1 then true
    else forallb (fun o => containsItem c o) (_arr c).

(** [HashSet.setEquals(other)]; the enumerator named [otherHSEnumerator] is
    [this.getEnumerator()]. *)
Definition setEquals (c : Collection T) (other : list T) : bool :=
  let otherHS := toSet other (_comparer c) in
  if length_ c =? length_ otherHS
  then forallb (fun o => containsItem c o) (_arr c)
  else false.

(** [HashSet.isProperSubsetOf(other)] *)
Definition isProperSubsetOf (c : Collection T) (other : list T) : bool :=
  let otherHS := toSet other (_comparer c) in
  if length_ c <? 1 then length_ otherHS >? 0
  else if length_ c <? length_ otherHS
  then forallb (fun t => containsItem otherHS t) (_arr c)
  else false.

(** [HashSet.isProperSupersetOf(other)]; the enumerator named
    [otherHSEnumerator] is [this.getEnumerator()]. *)
Definition isProperSupersetOf (c : Collection T) (other : list T) : bool :=
  if length_ c <? 1 then false
  else
    let otherHS := toSet other (_comparer c) in
    if length_ otherHS <? 1 then true
    else forallb (fun o => containsItem c o) (_arr c).
End Collection.
End Collection.

(** ** [Array.prototype.sort(compareFn)]

    The sort of the host, which ECMAScript specifies to be stable: an item
    moves behind another one only if [compareFn] is positive on them.  It is
    modelled by the stable insertion sort. *)

Section ArraySort.
Context {A : Type}.

Fixpoint Array_sort_insert (compareFn : A -> A -> Z) (x : A) (sorted : list A) : list A :=
  match sorted with
  | [] => [x]
  | y :: sorted' =>
      if compareFn x y >? 0 then y :: Array_sort_insert compareFn x sorted'
      else x :: sorted
  end.

Fixpoint Array_sort (compareFn : A -> A -> Z) (arr : list A) : list A :=
  match arr with
  | [] => []
  | x :: arr => Array_sort_insert compareFn x (Array_sort compareFn arr)
  end.
End ArraySort.

(** ** [class OrderedEnumerable<T, U>] *)

Module OrderedEnumerable.

(** The object [{ sortBy: ..., value: x }] built for every item *)
Record SortValue (T U : Type) : Type := mkSortValue {
  sortBy : U;
  value : T
}.

Arguments mkSortValue {T U}.
Arguments sortBy {T U}.
Arguments value {T U}.

(** The object [{ level_0: ..., level_1: ... }] built by [thenBy] *)
Record Levels (U W : Type) : Type := mkLevels {
  level_0 : U;
  level_1 : W
}.

Arguments mkLevels {U W}.
Arguments level_0 {U W}.
Arguments level_1 {U W}.

Record OrderedEnumerable (Closure T V U : Type) : Type := mkOrderedEnumerable {
  _orderComparer : Comparer U;
  _originalItems : list T;
  _orderSelector : Selector Closure T V U;
  _enumerator : list T
}.

Arguments mkOrderedEnumerable {Closure T V U}.
Arguments _orderComparer {Closure T V U}.
Arguments _originalItems {Closure T V U}.
Arguments _orderSelector {Closure T V U}.
Arguments _enumerator {Closure T V U}.

Section OrderedEnumerable.
Context {Closure T V O : Type}.
Context `{LambdaHost (KeySelector Closure T V) O}.

(** [export function toComparerSafe<T>(val?, obj?)], for a comparer given
    as a function or left out *)
Definition toComparerSafe {U} `{JsLess U} (val : option (Comparer U)) : Comparer U :=
  match val with
  | Some comparer =>
      fun x y =>
        let sortValue := comparer x y in
        if sortValue >? 0 then 1
        else if sortValue <? 0 then -1
        else 0
  | None =>
      fun x y =>
        if js_lt x y then -1
        else if js_lt y x then 1
        else 0
  end.

(** [export function toSelectorSafe<T, U>(val?, obj?)], for a selector given
    as a function *)
Definition toSelectorSafe {U} (val : Selector Closure T V U) : Selector Closure T V U :=
  fun s item ctx => val s item ctx.

(** The callback of [this._originalItems.map(...)] in the constructor, run
    over the array; [oi] enumerates the same array, so [oi.moveNext()]
    succeeds for every item and no [null] is produced for [filter] to drop. *)
Fixpoint sortValues {U} (selector : Selector Closure T V U) (items : list T) (index : Z)
    (prevValue value : option V) (s : Closure) : list (SortValue T U) * Closure :=
  match items with
  | [] => ([], s)
  | x :: items =>
      let ctx := set_value (new_ItemContext index prevValue) value in
      let '(sortBy, ctx, s) := selector s x ctx in
      let sortValue := mkSortValue sortBy x in
      let '(rest, s) :=
        sortValues selector items (index + 1) (nextValue ctx) (ItemContext.value ctx) s in
      (sortValue :: rest, s)
  end.

(** [constructor(seq, selector, comparer)] *)
Definition new_ {U} `{JsLess U} (seq : list T) (selector : Selector Closure T V U)
    (comparer : option (Comparer U)) (s : Closure)
    : Completion (OrderedEnumerable Closure T V U) * Closure :=
  let orderComparer := toComparerSafe comparer in
  let orderSelector := toSelectorSafe selector in
  match Enumerable.toArray JsUndefined seq s with
  | (Throw m, s) => (Throw m, s)
  | (Return originalItems, s) =>
      let '(mapped, s) := sortValues orderSelector originalItems 0 None None s in
      let sorted := Array_sort (fun x y => orderComparer (sortBy x) (sortBy y)) mapped in
      (Return (mkOrderedEnumerable orderComparer originalItems orderSelector
                 (map value sorted)), s)
  end.

(** [Enumerable.orderBy(selector, comparer?)] *)
Definition orderBy {U} `{JsLess U} (this : list T) (selector : Selector Closure T V U)
    (comparer : option (Comparer U)) (s : Closure)
    : Completion (OrderedEnumerable Closure T V U) * Closure :=
  new_ this selector comparer s.

(** [from(arr)] hands the items of an array on *)
Definition from (arr : list T) : list T := arr.

(** The order of the built-in [<] is not used on the composite keys: [thenBy]
    always passes a comparer. *)
#[local] Instance JsLess_Levels {U W} : JsLess (Levels U W) := fun _ _ => false.

(** [public thenBy<V>(selector, comparer?)] *)
Definition thenBy {U W} `{JsLess W} (me : OrderedEnumerable Closure T V U)
    (selector : Selector Closure T V W) (comparer : option (Comparer W)) (s : Closure)
    : Completion (OrderedEnumerable Closure T V (Levels U W)) * Closure :=
  let c := toComparerSafe comparer in
  let s_ := toSelectorSafe selector in
  orderBy (from (_originalItems me))
    (fun s x ctx =>
       let '(l0, ctx, s) := _orderSelector me s x ctx in
       let '(l1, ctx, s) := s_ s x ctx in
       (mkLevels l0 l1, ctx, s))
    (Some (fun x y =>
             let compLevel0 := _orderComparer me (level_0 x) (level_0 y) in
             if negb (0 =? compLevel0) then compLevel0
             else c (level_1 x) (level_1 y)))
    s.

(** [public thenByDescending<V>(selector, comparer?)] *)
Definition thenByDescending {U W} `{JsLess W} (me : OrderedEnumerable Closure T V U)
    (selector : Selector Closure T V W) (comparer : option (Comparer W)) (s : Closure)
    : Completion (OrderedEnumerable Closure T V (Levels U W)) * Closure :=
  let c := toComparerSafe comparer in
  thenBy me selector (Some (fun x y => c y x)) s.

(** [toArray()] on an ordered sequence enumerates [this._enumerator] *)
Definition toArray {U} (me : OrderedEnumerable Closure T V U) (s : Closure)
    : Completion (list T) * Closure :=
  Enumerable.toArray JsUndefined (_enumerator me) s.
End OrderedEnumerable.
End OrderedEnumerable.

(** ** Callbacks and call chains used in the statements *)

Section PureCallbacks.
Context {Closure T V : Type}.

(** [(x) => q(x)]: a predicate that only looks at the item *)
Definition pure_predicate (q : T -> bool) : Predciate Closure T V :=
  fun s item ctx => (q item, ctx, s).

(** [() => true], what [toPredicateSafe] returns when no predicate is given *)
Definition accept_all : Predciate Closure T V :=
  fun s _ ctx => (true, ctx, s).

(** [(result, item) => f(result, item)] *)
Definition pure_aggregator (f : T -> T -> T) : Aggregator Closure T V :=
  fun s result item ctx => (f result item, ctx, s).

(** [(x) => k(x)]: a selector that only looks at the item *)
Definition pure_selector {U} (k : T -> U) : Selector Closure T V U :=
  fun s item ctx => (k item, ctx, s).


(** Predicates that agree on every call *)
Definition same_calls (p p' : Predciate Closure T V) : Prop :=
  forall s x ctx, p s x ctx = p' s x ctx.

(** [(x, ctx) => { if (ctx.index === n) ctx.cancel = true; return true; }] *)
Definition cancel_at_index (n : Z) : Predciate Closure T V :=
  fun s _ ctx => (true, (if index ctx =? n then set_cancel ctx true else ctx), s).
End PureCallbacks.



Section CancelPoint.
Context {Closure T V : Type}.


End CancelPoint.

Section AggregateSpec.
Context {Closure T V : Type}.

(** The description of [aggregate] in words: from the second item on the
    aggregator is called with the running result, the item and the context
    of the step, until the source ends or a call cancels. *)
Fixpoint fold_running (a : Aggregator Closure T V) (items : list T) (running : T) (index : Z)
    (prevVal value : option V) (s : Closure) : T * Closure :=
  match items with
  | [] => (running, s)
  | item :: items =>
      let ctx := mkItemContext index prevVal false None value in
      let '(newResult, ctx, s) := a s running item ctx in
      if cancel ctx then (running, s)
      else fold_running a items newResult (index + 1) (nextValue ctx) (ItemContext.value ctx) s
  end.

(** The default value for an empty source; otherwise the first item seeds
    the running result and the remaining items are folded in. *)
Definition aggregate_spec (a : Aggregator Closure T V) (defaultValue : T) (e : list T)
    (s : Closure) : T * Closure :=
  match e with
  | [] => (defaultValue, s)
  | seed :: items => fold_running a items seed 1 None None s
  end.
End AggregateSpec.

(** A host for the examples, in which no string has the form of a lambda
    expression; [f] is the function [eval] would have had to return. *)
Definition example_host {F} (f : F) : LambdaHost F Empty_set := {|
  function_toString := fun _ => "function";
  object_toString := fun o : Empty_set => match o with end;
  lambda_match := fun _ => None;
  lambda_trim := fun body => body;
  eval_function := fun _ _ => Return f
|}.

Definition example_host_Predciate {Closure T V} :
  LambdaHost (Predciate Closure T V) Empty_set := example_host accept_all.

Definition example_host_Aggregator {Closure T V} :
  LambdaHost (Aggregator Closure T V) Empty_set :=
  example_host (fun s result _ ctx => (result, ctx, s)).

Definition example_host_KeySelector {Closure T V} :
  LambdaHost (KeySelector Closure T V) Empty_set :=
  example_host (fun s key _ ctx => (key, ctx, s)).

(** The objects [{a: ..., b: ...}] of the ordering example *)
Record AB : Type := mkAB { a : Z; b : Z }.

Section OrderByThenBy.
Context {Closure T V O : Type}.
Context `{LambdaHost (KeySelector Closure T V) O}.

(** [from(xs).orderBy(selector1, comparer1).thenBy(selector2, comparer2).toArray()] *)
Definition orderBy_thenBy_toArray {U W} `{JsLess U} `{JsLess W} (xs : list T)
    (selector1 : Selector Closure T V U) (comparer1 : option (Comparer U))
    (selector2 : Selector Closure T V W) (comparer2 : option (Comparer W))
    (s : Closure) : Completion (list T) * Closure :=
  match OrderedEnumerable.orderBy (OrderedEnumerable.from xs) selector1 comparer1 s with
  | (Throw m, s) => (Throw m, s)
  | (Return ordered, s) =>
      match OrderedEnumerable.thenBy ordered selector2 comparer2 s with
      | (Throw m, s) => (Throw m, s)
      | (Return ordered, s) => OrderedEnumerable.toArray ordered s
      end
  end.

(** The comparer [thenBy] describes: the primary keys decide, and only when
    they tie the secondary keys are compared. *)
Definition composite_comparer {U W} (comparer1 : Comparer U) (comparer2 : Comparer W)
    (key1 : T -> U) (key2 : T -> W) : Comparer T :=
  fun x y =>
    let compLevel0 := comparer1 (key1 x) (key1 y) in
    if negb (0 =? compLevel0) then compLevel0
    else comparer2 (key2 x) (key2 y).
End OrderByThenBy.

(** ** Further methods of [class Enumerable<T>] *)

(** The string a value is converted to by [+] with a string. *)
Class JsToString (T : Type) : Type := js_toString : T -> string.

#[global] Instance JsToString_Z : JsToString Z := fun n => pretty n.

#[global] Instance JsToString_string : JsToString string := fun s => s.

(** [+] on two numbers, as doubles *)
#[global] Instance JsAdd_float : JsAdd float := PrimFloat.add.

(** ** The values passed for another sequence

    [type Sequence<T> = ArrayLike<T> | Iterator<T> | Iterable<T>].  An
    array-like value (an array, or an object with an own numeric [length])
    holds its items in the slots 0 to [length - 1]; any other value (an
    iterator, a generator, an [Enumerable], a [List]) is given by the items it
    would produce when iterated. *)
Inductive Sequence (T : Type) : Type :=
| SeqUndefined
| SeqArrayLike (arr : list T)
| SeqIterable (items : list T).

Arguments SeqUndefined {T}.
Arguments SeqArrayLike {T} arr.
Arguments SeqIterable {T} items.

(** [function* makeIterable<T>(val?)], by the items the generator yields:
    nothing for a falsy value; the slots of a value for which [isArrayLike]
    holds; and for any other value the generator executes [return val], which
    ends it before anything is yielded. *)
Definition makeIterable {T} (val : Sequence T) : list T :=
  match val with
  | SeqUndefined => []
  | SeqArrayLike arr => arr
  | SeqIterable _ => []
  end.

Module Operators.

(** [type Zipper<T, U, V> = (item1: T, item2: U, ctx1, ctx2) => V] *)
Definition Zipper (Closure T V U : Type) : Type :=
  Closure -> T -> T -> ItemContext V -> ItemContext V ->
  U * ItemContext V * ItemContext V * Closure.

(** [type ManySelector<T, U> = (item: T, ctx) => Sequence<U>] *)
Definition ManySelector (Closure T V U : Type) : Type :=
  Closure -> T -> ItemContext V -> Sequence U * ItemContext V * Closure.

(** The object [{ key: ..., items: [...] }] of [groupBy], and the
    [Grouping] made of it *)
Record Grouping (K T : Type) : Type := mkGrouping {
  key : K;
  items : list T
}.

Arguments mkGrouping {K T}.
Arguments key {K T}.
Arguments items {K T}.

Section Scans.
Context {Closure T V O : Type}.
Context `{LambdaHost (Predciate Closure T V) O}.

(** *** [all] *)

Fixpoint all_loop (p : Predciate Closure T V) (e : list T) (index : Z)
    (prevVal value : option V) (s : Closure) : bool * Closure :=
  match e with
  | [] => (true, s)
  | item :: e =>
      let index := index + 1 in
      let ctx := set_value (new_ItemContext index prevVal) value in
      let '(doesMatch, ctx, s) := p s item ctx in
      if cancel ctx then (true, s)
      else if negb doesMatch then (false, s)
      else all_loop p e index (nextValue ctx) (ItemContext.value ctx) s
  end.

Definition all (predicate : JsValue (Predciate Closure T V) O) (e : list T) (s : Closure)
    : Completion bool * Closure :=
  match Enumerable.toPredicateSafe predicate with
  | Throw m => (Throw m, s)
  | Return p => let '(r, s) := all_loop p e (-1) None None s in (Return r, s)
  end.

(** *** [any] *)

Fixpoint any_loop (p : Predciate Closure T V) (e : list T) (index : Z)
    (prevVal value : option V) (s : Closure) : bool * Closure :=
  match e with
  | [] => (false, s)
  | item :: e =>
      let index := index + 1 in
      let ctx := set_value (new_ItemContext index prevVal) value in
      let '(doesMatch, ctx, s) := p s item ctx in
      if cancel ctx then (false, s)
      else if doesMatch then (true, s)
      else any_loop p e index (nextValue ctx) (ItemContext.value ctx) s
  end.

Definition any (predicate : JsValue (Predciate Closure T V) O) (e : list T) (s : Closure)
    : Completion bool * Closure :=
  match Enumerable.toPredicateSafe predicate with
  | Throw m => (Throw m, s)
  | Return p => let '(r, s) := any_loop p e (-1) None None s in (Return r, s)
  end.

(** *** [skipWhile] and [skipWhileInner] *)

Fixpoint skipWhileInner_loop (predicate : Predciate Closure T V) (e : list T)
    (skipItems : bool) (index : Z) (prevVal value : option V) (s : Closure)
    : list T * Closure :=
  match e with
  | [] => ([], s)
  | item :: e =>
      let index := index + 1 in
      let ctx := set_value (new_ItemContext index prevVal) value in
      let '(skipItems, ctx, s) :=
        if skipItems then predicate s item ctx else (skipItems, ctx, s) in
      let skipItems := if cancel ctx then false else skipItems in
      let '(yielded, s) :=
        skipWhileInner_loop predicate e skipItems index (nextValue ctx)
          (ItemContext.value ctx) s in
      (if negb skipItems then item :: yielded else yielded, s)
  end.

Definition skipWhileInner (predicate : Predciate Closure T V) (e : list T) (s : Closure)
    : list T * Closure :=
  skipWhileInner_loop predicate e true (-1) None None s.

Definition skipWhile (predicate : JsValue (Predciate Closure T V) O) (e : list T)
    (s : Closure) : Completion (list T) * Closure :=
  match Enumerable.toPredicateSafe predicate with
  | Throw m => (Throw m, s)
  | Return p => let '(yielded, s) := skipWhileInner p e s in (Return yielded, s)
  end.

(** *** [takeWhile] and [takeWhileInner] *)

Fixpoint takeWhileInner_loop (predicate : Predciate Closure T V) (e : list T)
    (alwaysMatches : bool) (index : Z) (prevVal value : option V) (s : Closure)
    : list T * Closure :=
  match e with
  | [] => ([], s)
  | item :: e =>
      let index := index + 1 in
      let ctx := set_value (new_ItemContext index prevVal) value in
      let '(r, ctx, s) := predicate s item ctx in
      let doesMatch := r || alwaysMatches in
      let alwaysMatches := if cancel ctx then true else alwaysMatches in
      if negb doesMatch then ([], s)
      else
        let '(yielded, s) :=
          takeWhileInner_loop predicate e alwaysMatches index (nextValue ctx)
            (ItemContext.value ctx) s in
        (item :: yielded, s)
  end.

Definition takeWhileInner (predicate : Predciate Closure T V) (e : list T) (s : Closure)
    : list T * Closure :=
  takeWhileInner_loop predicate e false (-1) None None s.

Definition takeWhile (predicate : JsValue (Predciate Closure T V) O) (e : list T)
    (s : Closure) : Completion (list T) * Closure :=
  match Enumerable.toPredicateSafe predicate with
  | Throw m => (Throw m, s)
  | Return p => let '(yielded, s) := takeWhileInner p e s in (Return yielded, s)
  end.
End Scans.

Section Projections.
Context {Closure T V : Type}.

(** *** [select] and [selectInner] *)

Fixpoint selectInner_loop {U} (selector : Selector Closure T V U) (e : list T) (index : Z)
    (prevVal value : option V) (s : Closure) : list U * Closure :=
  match e with
  | [] => ([], s)
  | item :: e =>
      let index := index + 1 in
      let ctx := set_value (new_ItemContext index prevVal) value in
      let '(newItem, ctx, s) := selector s item ctx in
      if cancel ctx then ([], s)
      else
        let '(yielded, s) :=
          selectInner_loop selector e index (nextValue ctx) (ItemContext.value ctx) s in
        (newItem :: yielded, s)
  end.

(** [public select<U>(selector)], for a selector given as a function *)
Definition select {U} (selector : Selector Closure T V U) (e : list T) (s : Closure)
    : list U * Closure :=
  selectInner_loop (OrderedEnumerable.toSelectorSafe selector) e (-1) None None s.

(** *** [selectMany] and [selectManyInner] *)

Fixpoint selectManyInner_loop {U} (selector : ManySelector Closure T V U) (e : list T)
    (index : Z) (prevVal value : option V) (s : Closure) : list U * Closure :=
  match e with
  | [] => ([], s)
  | item :: e =>
      let index := index + 1 in
      let ctx := set_value (new_ItemContext index prevVal) value in
      let '(selected, ctx, s) := selector s item ctx in
      let iterator := makeIterable selected in
      if cancel ctx then ([], s)
      else
        let '(yielded, s) :=
          selectManyInner_loop selector e index (nextValue ctx) (ItemContext.value ctx) s in
        (iterator ++ yielded, s)
  end.

(** [export function toManySelectorSafe<T, U>(val?, obj?)], for a selector
    given as a function *)
Definition toManySelectorSafe {U} (val : ManySelector Closure T V U)
    : ManySelector Closure T V U :=
  fun s item ctx => val s item ctx.

(** [public selectMany<U>(selector)], for a selector given as a function *)
Definition selectMany {U} (selector : ManySelector Closure T V U) (e : list T) (s : Closure)
    : list U * Closure :=
  selectManyInner_loop (toManySelectorSafe selector) e (-1) None None s.

(** *** [zip] and [zipInner] *)

Fixpoint zipInner_loop {U} (zipper : Zipper Closure T V U) (e other : list T) (index : Z)
    (prevVal1 prevVal2 value1 value2 : option V) (s : Closure) : list U * Closure :=
  match e, other with
  | item1 :: e, item2 :: other =>
      let index := index + 1 in
      let ctx1 := set_value (new_ItemContext index prevVal1) value1 in
      let ctx2 := set_value (new_ItemContext index prevVal2) value2 in
      let '(zipped, ctx1, ctx2, s) := zipper s item1 item2 ctx1 ctx2 in
      if cancel ctx1 || cancel ctx2 then ([], s)
      else
        let '(yielded, s) :=
          zipInner_loop zipper e other index (nextValue ctx1) (nextValue ctx2)
            (ItemContext.value ctx1) (ItemContext.value ctx2) s in
        (zipped :: yielded, s)
  | _, _ => ([], s)
  end.

(** [export function toZipperSafe<T, U, V>(val?, obj?)], for a zipper given
    as a function *)
Definition toZipperSafe {U} (val : Zipper Closure T V U) : Zipper Closure T V U :=
  fun s item1 item2 ctx1 ctx2 => val s item1 item2 ctx1 ctx2.

(** [public zip<U>(other, zipper)], for a zipper given as a function *)
Definition zip {U} (other : Sequence T) (zipper : Zipper Closure T V U) (e : list T)
    (s : Closure) : list U * Closure :=
  let seq := makeIterable other in
  let z := toZipperSafe zipper in
  zipInner_loop z e seq (-1) None None None None s.

(** *** [groupBy] *)

(** The search for an existing group, and [grp.items.push(ctx.item)] on the
    group found or on a new one pushed to [groupings] *)
Fixpoint push_to_group {K} (ksec : EqualityComparer K) (key_ : K) (item : T)
    (groupings : list (Grouping K T)) : list (Grouping K T) :=
  match groupings with
  | [] => [mkGrouping key_ [item]]
  | g :: groupings =>
      if ksec key_ (key g) then mkGrouping (key g) (items g ++ [item]) :: groupings
      else g :: push_to_group ksec key_ item groupings
  end.

Fixpoint groupBy_loop {K} (ks : Selector Closure T V K) (ksec : EqualityComparer K)
    (e : list T) (groupings : list (Grouping K T)) (index : Z)
    (prevVal value : option V) (s : Closure) : list (Grouping K T) * Closure :=
  match e with
  | [] => (groupings, s)
  | item :: e =>
      let index := index + 1 in
      let ctx := set_value (new_ItemContext index prevVal) value in
      let '(key_, ctx, s) := ks s item ctx in
      if cancel ctx then (groupings, s)
      else
        groupBy_loop ks ksec e (push_to_group ksec key_ item groupings) index
          (nextValue ctx) (ItemContext.value ctx) s
  end.

(** [public groupBy<TKey>(keySelector, keyEqualityComparer?)], for a key
    selector given as a function; the final [select] wraps every group into a
    [Grouping] with the same key and items. *)
Definition groupBy {K} `{JsEquals K} (keySelector : Selector Closure T V K)
    (keyEqualityComparer : EqualityComparerArg K) (e : list T) (s : Closure)
    : list (Grouping K T) * Closure :=
  let ks := OrderedEnumerable.toSelectorSafe keySelector in
  let ksec := Enumerable.toEqualityComparerSafe keyEqualityComparer in
  let '(groupings, s) := groupBy_loop ks ksec e [] (-1) None None s in
  (map (fun x => mkGrouping (key x) (items x)) groupings, s).
End Projections.

Section Plain.
Context {T : Type}.

(** [toArray()] called without an argument: [asFunc(undefined)] is
    [undefined], so no key selector is set *)
Definition toArray_ (e : list T) : list T :=
  fst (Enumerable.toArray_loop (Closure := unit) (V := unit) None e [] (-1) (-1) None None tt).

(** [protected* concatInner(other)]; [other] is the iterator, given by the
    items it yields. *)
Definition concatInner (other : list T) (e : list T) : list T :=
  e ++ other.

(** [public concat(other)] *)
Definition concat (other : Sequence T) (e : list T) : list T :=
  let i := makeIterable other in
  concatInner i e.

(** [protected* skipLastInner()]; [isFirst] and [item] are kept together as
    an option: no item is held back before the first one. *)
Fixpoint skipLastInner_loop (e : list T) (item : option T) : list T :=
  match e with
  | [] => []
  | current :: e =>
      match item with
      | Some item => item :: skipLastInner_loop e (Some current)
      | None => skipLastInner_loop e (Some current)
      end
  end.

(** [public skipLast()] *)
Definition skipLast (e : list T) : list T := skipLastInner_loop e None.

(** [public joinToString(separator, defaultValue?)]; [defaultValue] is
    [None] when fewer than two arguments are passed. *)
Fixpoint joinToString_loop `{JsToString T} (separator : string) (e : list T) (result : string)
    (index : Z) : string :=
  match e with
  | [] => result
  | item :: e =>
      let index := index + 1 in
      let result :=
        if negb (0 =? index) then result +:+ (separator +:+ js_toString item)
        else "" +:+ js_toString item in
      joinToString_loop separator e result index
  end.

Definition joinToString `{JsToString T} (separator : string) (defaultValue : option string)
    (e : list T) : string :=
  let defaultValue := match defaultValue with Some d => d | None => "" end in
  joinToString_loop separator e defaultValue (-1).

(** [public concatToString(defaultValue?)] *)
Definition concatToString `{JsToString T} (defaultValue : option string) (e : list T)
    : string :=
  match defaultValue with
  | None => joinToString "" None e
  | Some d => joinToString "" (Some d) e
  end.
End Plain.

Section SetOperators.
Context {T : Type} `{JsEquals T}.

(** [protected* exceptInner(itemsToExcept, equalityComparer)] *)
Fixpoint exceptInner (itemsToExcept : list T) (equalityComparer : EqualityComparer T)
    (e : list T) : list T :=
  match e with
  | [] => []
  | item :: e =>
      let found := existsb (fun x => equalityComparer item x) itemsToExcept in
      if negb found then item :: exceptInner itemsToExcept equalityComparer e
      else exceptInner itemsToExcept equalityComparer e
  end.

(** [public except(other, comparer?)]: the items to except are made
    distinct with the default comparer. *)
Definition except (other : Sequence T) (comparer : EqualityComparerArg T) (e : list T)
    : list T :=
  let equalityComparer := Enumerable.toEqualityComparerSafe comparer in
  let itemsToExcept := toArray_ (Enumerable.distinct EcUndefined (makeIterable other)) in
  exceptInner itemsToExcept equalityComparer e.

(** The inner [for] loop of [intersectInner]: the array [o] after
    [o.splice(i, 1)] at the first matching position, if there is one *)
Fixpoint splice_first_match (equalityComparer : EqualityComparer T) (item : T) (o : list T)
    : option (list T) :=
  match o with
  | [] => None
  | otherItem :: o =>
      if equalityComparer item otherItem then Some o
      else
        match splice_first_match equalityComparer item o with
        | Some o => Some (otherItem :: o)
        | None => None
        end
  end.

(** The [while] loop of [intersectInner] *)
Fixpoint intersectInner_loop (equalityComparer : EqualityComparer T) (e : list T) (o : list T)
    : list T :=
  match e with
  | [] => []
  | item :: e =>
      match splice_first_match equalityComparer item o with
      | Some o => item :: intersectInner_loop equalityComparer e o
      | None => intersectInner_loop equalityComparer e o
      end
  end.

(** [protected* intersectInner(other, equalityComparer)]: [other.forEach]
    copies the items of [other] into [o]. *)
Definition intersectInner (other : list T) (equalityComparer : EqualityComparer T)
    (e : list T) : list T :=
  intersectInner_loop equalityComparer e other.

(** [public intersect(other, comparer?)] *)
Definition intersect (other : Sequence T) (comparer : EqualityComparerArg T) (e : list T)
    : list T :=
  let equalityComparer := Enumerable.toEqualityComparerSafe comparer in
  let o := Enumerable.distinct EcUndefined (makeIterable other) in
  intersectInner o equalityComparer e.

(** [public union(other, comparer?)] *)
Definition union (other : Sequence T) (comparer : EqualityComparerArg T) (e : list T)
    : list T :=
  Enumerable.distinct comparer (concat other e).

(** [public sequenceEqual(other, comparer?, keyComparer?)]; the two
    enumerators are new, and their keys start at -1. *)
Fixpoint sequenceEqual_loop (ec : EqualityComparer T) (kc : EqualityComparer Z)
    (enumThis enumOther : list T) (keyThis keyOther : Z) : bool :=
  match enumThis with
  | [] =>
      match enumOther with
      | _ :: _ => false
      | [] => true
      end
  | x :: enumThis =>
      let keyThis := keyThis + 1 in
      match enumOther with
      | [] => false
      | y :: enumOther =>
          let keyOther := keyOther + 1 in
          if negb (ec x y) then false
          else if negb (kc keyThis keyOther) then false
          else sequenceEqual_loop ec kc enumThis enumOther keyThis keyOther
      end
  end.

Definition sequenceEqual (other : Sequence T) (comparer : EqualityComparerArg T)
    (keyComparer : EqualityComparerArg Z) (e : list T) : bool :=
  let ec := Enumerable.toEqualityComparerSafe comparer in
  let kc := Enumerable.toEqualityComparerSafe keyComparer in
  let enumOther := makeIterable other in
  sequenceEqual_loop ec kc e enumOther (-1) (-1).
End SetOperators.

Section Counted.
Context {T O : Type}.
Context `{LambdaHost (Predciate unit T unit) O}.

(** [public skip(cnt)] *)
Definition skip (cnt : Z) (e : list T) : Completion (list T) :=
  fst (skipWhile
         (JsFunction (F := Predciate unit T unit) (fun s _ ctx => (index ctx <? cnt, ctx, s)))
         e tt).

(** [public take(cnt)] *)
Definition take (cnt : Z) (e : list T) : Completion (list T) :=
  fst (takeWhile
         (JsFunction (F := Predciate unit T unit) (fun s _ ctx => (index ctx <? cnt, ctx, s)))
         e tt).

(** [public contains(item, comparer?)] *)
Definition contains `{JsEquals T} (item : T) (comparer : EqualityComparerArg T) (e : list T)
    : Completion bool :=
  let equalityComparer := Enumerable.toEqualityComparerSafe comparer in
  fst (any
         (JsFunction (F := Predciate unit T unit)
            (fun s x ctx => (equalityComparer x item, ctx, s)))
         e tt).
End Counted.

Section Numbers.
Context {T O : Type}.
Context `{JsLess T} `{JsAdd T} `{LambdaHost (Aggregator unit T unit) O}.

(** [public max<U>(defaultValue?)] *)
Definition max (defaultValue : T) (e : list T) : Completion T :=
  fst (Enumerable.aggregate
         (JsFunction (F := Aggregator unit T unit)
            (fun s result item ctx => ((if js_lt result item then item else result), ctx, s)))
         defaultValue e tt).

(** [public min<U>(defaultValue?)] *)
Definition min (defaultValue : T) (e : list T) : Completion T :=
  fst (Enumerable.aggregate
         (JsFunction (F := Aggregator unit T unit)
            (fun s result item ctx => ((if js_lt item result then item else result), ctx, s)))
         defaultValue e tt).
End Numbers.

Section Sum.
Context {O : Type}.
Context `{LambdaHost (Aggregator unit float unit) O}.

(** [function toNumber(val)] on a value whose [typeof] is ['number'] *)
Definition toNumber (val : float) : float := val.

(** [public sum<U>(defaultValue?)], for a sequence of numbers; the numbers
    are the IEEE 754 doubles of the language and [+] is their addition. *)
Definition sum (defaultValue : float) (e : list float) : Completion float :=
  fst (Enumerable.aggregate
         (JsFunction (F := Aggregator unit float unit)
            (fun s result item ctx =>
               let x := toNumber result in
               let y := toNumber item in
               (PrimFloat.add x y, ctx, s)))
         defaultValue e tt).
End Sum.

Section Ordering.
Context {Closure T V O : Type}.
Context `{LambdaHost (KeySelector Closure T V) O}.

(** [public order(comparer?)] *)
Definition order `{JsLess T} (comparer : option (Comparer T)) (e : list T) (s : Closure)
    : Completion (OrderedEnumerable.OrderedEnumerable Closure T V T) * Closure :=
  OrderedEnumerable.orderBy e (fun s x ctx => (x, ctx, s)) comparer s.

(** [public orderByDescending<U>(selector, comparer?)] *)
Definition orderByDescending {U} `{JsLess U} (selector : Selector Closure T V U)
    (comparer : option (Comparer U)) (e : list T) (s : Closure)
    : Completion (OrderedEnumerable.OrderedEnumerable Closure T V U) * Closure :=
  let c := OrderedEnumerable.toComparerSafe comparer in
  OrderedEnumerable.orderBy e selector (Some (fun x y => c y x)) s.

(** [public orderDescending(comparer?)] *)
Definition orderDescending `{JsLess T} (comparer : option (Comparer T)) (e : list T)
    (s : Closure)
    : Completion (OrderedEnumerable.OrderedEnumerable Closure T V T) * Closure :=
  orderByDescending (fun s x ctx => (x, ctx, s)) comparer e s.

(** [public reverse()] *)
Definition reverse `{JsLess T} (e : list T) (s : Closure)
    : Completion (OrderedEnumerable.OrderedEnumerable Closure T V T) * Closure :=
  order (Some (fun x y => if js_lt y x then -1 else if js_lt x y then 1 else 0)) e s.

(** The items an ordered sequence enumerates, or what its construction threw *)
Definition ordered_items {U}
    (ordered : Completion (OrderedEnumerable.OrderedEnumerable Closure T V U) * Closure)
    : Completion (list T) :=
  match ordered with
  | (Return o, s) => fst (OrderedEnumerable.toArray o s)
  | (Throw m, _) => Throw m
  end.
End Ordering.
End Operators.

(** ** Comparers with the usual laws, for the statements *)

(** An equality comparer that decides equality *)
Definition decides_equality {T} (ec : EqualityComparer T) : Prop :=
  forall x y, ec x y = true <-> x = y.

(** An equality comparer that holds every item equal to itself *)
Definition reflexive_comparer {T} (ec : EqualityComparer T) : Prop :=
  forall x, ec x x = true.

(** ** Further callbacks used in the statements *)

Section MoreCallbacks.
Context {Closure T : Type}.

(** [(x, ctx) => { ctx.nextValue = x; return ctx.previousValue; }] *)
Definition hand_on_selector : Selector Closure T T (option T) :=
  fun s x ctx => (previousValue ctx, set_nextValue ctx (Some x), s).

(** [(x, ctx) => { if (ctx.isFirst) ctx.value = x; return ctx.value; }] *)
Definition keep_first_selector : Selector Closure T T (option T) :=
  fun s x ctx =>
    let ctx := if isFirst ctx then set_value ctx (Some x) else ctx in
    (value ctx, ctx, s).

(** [(x, ctx) => [ctx.index, x]] *)
Definition indexed_selector {V} : Selector Closure T V (Z * T) :=
  fun s x ctx => ((index ctx, x), ctx, s).

(** [(x, ctx) => { if (ctx.index === n) ctx.cancel = true; return q(x); }] *)
Definition cancelling_at {V} (q : T -> bool) (n : Z) : Predciate Closure T V :=
  fun s x ctx => (q x, (if index ctx =? n then set_cancel ctx true else ctx), s).

(** [(x) => f(x)], for a selector of [selectMany] *)
Definition pure_many_selector {V U} (f : T -> Sequence U)
    : Operators.ManySelector Closure T V U :=
  fun s x ctx => (f x, ctx, s).

(** [(x, y) => z(x, y)] *)
Definition pure_zipper {V U} (z : T -> T -> U) : Operators.Zipper Closure T V U :=
  fun s x y ctx1 ctx2 => (z x y, ctx1, ctx2, s).
End MoreCallbacks.

(** * Properties *)

(** ** The enumerators *)

Section EnumeratorFacts.
Context {T : Type}.

(** A valid enumerator that has items left moves to the next one. *)
Lemma moveNext_cons (e : Enumerator.IteratorEnumerator T) (x : T) (rest : list T) :
  Enumerator.isValid e = true ->
  Enumerator._iterator e = x :: rest ->
  Enumerator.moveNext e =
  (true, Enumerator.mkIteratorEnumerator
           (Some (Enumerator.mkIteratorResult false (Some x)))
           (Enumerator._index e + 1) rest).
Proof.
  intros Hvalid Hrest. unfold Enumerator.moveNext. rewrite Hvalid, Hrest. reflexivity.
Qed.

(** At the end of the source [moveNext] returns false, and stays there. *)
Lemma moveNext_nil (e : Enumerator.IteratorEnumerator T) :
  Enumerator._iterator e = [] ->
  fst (Enumerator.moveNext e) = false /\
  Enumerator.moveNext (snd (Enumerator.moveNext e)) = (false, snd (Enumerator.moveNext e)).
Proof.
  intros Hrest. unfold Enumerator.moveNext.
  destruct (Enumerator.isValid e) eqn:Hvalid; simpl.
  - rewrite Hrest. simpl. split; reflexivity.
  - rewrite Hvalid. simpl. split; reflexivity.
Qed.

(** The loop [while (e.moveNext())] visits the remaining items in order,
    and the key of the enumerator counts them. *)
Lemma visited_items (items : list T) :
  forall (e : Enumerator.IteratorEnumerator T) (fuel : nat),
    Enumerator.isValid e = true ->
    Enumerator._iterator e = items ->
    (length items < fuel)%nat ->
    Enumerator.visited fuel e =
    imap (fun i x => (Enumerator._index e + 1 + Z.of_nat i, Some x)) items.
Proof.
  induction items as [ | x items IH ]; intros e fuel Hvalid Hrest Hfuel;
    (destruct fuel as [ | fuel ]; [ simpl in Hfuel; lia | ]); simpl.
  - unfold Enumerator.moveNext. rewrite Hvalid, Hrest. reflexivity.
  - rewrite (moveNext_cons e x items Hvalid Hrest). simpl.
    rewrite (IH _ fuel) by (simpl in *; try reflexivity; lia). simpl.
    f_equal; [ f_equal; lia | ].
    apply imap_ext. intros i y _. simpl. f_equal. lia.
Qed.

(** A new array enumerator visits the array with the keys 0, 1, 2, ... *)
Lemma new_ArrayEnumerator_visits (arr : list T) :
  Enumerator.visited (S (length arr)) (Enumerator.new_ArrayEnumerator arr) =
  imap (fun i x => (Z.of_nat i, Some x)) arr.
Proof.
  rewrite (visited_items arr) by (simpl; try reflexivity; lia).
  apply imap_ext. intros i y _. simpl. f_equal.
Qed.
End EnumeratorFacts.

(** ** The argument helpers *)

Section ArgsFacts.
Context {F O : Type} `{LambdaHost F O}.

Lemma asFunc_function (f : F) (throwException : bool) :
  Args.asFunc (JsFunction f) throwException = Return (JsFunction f).
Proof. reflexivity. Qed.

Lemma asFunc_falsy (v : JsValue F O) (throwException : bool) :
  Args.truthy v = false -> Args.asFunc v throwException = Return v.
Proof.
  intros Hv.
  destruct v as [ | | b | n | | str | f | o ]; simpl in *;
    try reflexivity; try discriminate.
  - subst b. reflexivity.
  - rewrite Hv. reflexivity.
  - rewrite Hv. reflexivity.
Qed.

(** A truthy value that is neither callable nor of lambda form is refused
    with [false] when no exception is asked for. *)
Lemma asFunc_no_lambda (v : JsValue F O) (lambda : string) :
  Args.truthy v = true ->
  (forall f, v <> JsFunction f) ->
  Args.to_string v = Return lambda ->
  lambda_match lambda = None ->
  Args.asFunc v false = Return (JsBoolean false).
Proof.
  intros Hv Hf Hs Hm. unfold Args.asFunc. rewrite Hv, Hs, Hm. simpl.
  destruct v; try reflexivity. exfalso. eapply Hf. reflexivity.
Qed.

(** What [asFunc] returns is a function whenever it is truthy. *)
Lemma asFunc_truthy_function (v r : JsValue F O) (throwException : bool) :
  Args.asFunc v throwException = Return r ->
  Args.truthy r = true ->
  exists f, r = JsFunction f.
Proof.
  intros Hr Ht. unfold Args.asFunc in Hr.
  destruct v as [ | | b | n | | str | f | o ];
    try (injection Hr as <-; eauto; fail);
    try (simpl in Hr; injection Hr as <-; discriminate).
  all: destruct (negb (Args.truthy _)) eqn:Hneg in Hr;
    [ injection Hr as <-; rewrite Ht in Hneg; discriminate | ].
  all: destruct (Args.to_string _) as [ lambda | m ] in Hr; [ | discriminate ].
  all: destruct (lambda_match _) in Hr;
    [ destruct (_ || _) in Hr;
      [ destruct throwException | destruct (eval_function _ _) in Hr ]
    | destruct throwException ];
    try discriminate; injection Hr as <-; try discriminate; eauto.
Qed.
End ArgsFacts.

(** ** [distinct] *)

Section DistinctFacts.
Context {T : Type} `{JsEquals T}.

Lemma toEqualityComparerSafe_function (ec : EqualityComparer T) (x y : T) :
  Enumerable.toEqualityComparerSafe (EcFunction ec) x y = ec x y.
Proof. simpl. destruct (ec x y); reflexivity. Qed.

Lemma existsb_pointwise (f g : T -> bool) (l : list T) :
  (forall y, f y = g y) -> existsb f l = existsb g l.
Proof.
  intros Hfg. induction l as [ | y l IH ]; simpl; [ reflexivity | ].
  rewrite Hfg, IH. reflexivity.
Qed.

Lemma distinctInner_loop_ext (ec ec' : EqualityComparer T) :
  (forall x y, ec x y = ec' x y) ->
  forall e temp,
    Enumerable.distinctInner_loop ec e temp = Enumerable.distinctInner_loop ec' e temp.
Proof.
  intros Hext e. induction e as [ | item e IH ]; intros temp; simpl.
  - reflexivity.
  - rewrite (existsb_pointwise _ (fun existingItem => ec' item existingItem))
      by (intros y; apply Hext).
    rewrite !IH. reflexivity.
Qed.

(** [distinct] runs the loop of [distinctInner] with the converted comparer
    and an empty buffer. *)
Lemma distinct_unfold (comparer : EqualityComparerArg T) (e : list T) :
  Enumerable.distinct comparer e =
  Enumerable.distinctInner_loop (Enumerable.toEqualityComparerSafe comparer) e [].
Proof.
  unfold Enumerable.distinct, Enumerable.distinctInner.
  apply distinctInner_loop_ext. intros x y. apply toEqualityComparerSafe_function.
Qed.

Lemma distinctInner_loop_sublist (ec : EqualityComparer T) (e temp : list T) :
  sublist (Enumerable.distinctInner_loop ec e temp) e.
Proof.
  revert temp. induction e as [ | item e IH ]; intros temp; simpl.
  - constructor.
  - destruct (existsb _ temp); simpl.
    + apply sublist_cons, IH.
    + apply sublist_skip, IH.
Qed.

(** Appending an item to the source: it is yielded exactly when the buffer,
    which then holds the initial buffer and everything yielded since, has no
    item equal to it. *)
Lemma distinctInner_loop_snoc (ec : EqualityComparer T) (pre : list T) (x : T) :
  forall temp,
    Enumerable.distinctInner_loop ec (pre ++ [x]) temp =
    let yielded := Enumerable.distinctInner_loop ec pre temp in
    yielded ++
      (if existsb (fun existingItem => ec x existingItem) (temp ++ yielded) then [] else [x]).
Proof.
  induction pre as [ | item pre IH ]; intros temp; simpl.
  - rewrite app_nil_r. destruct (existsb _ temp); reflexivity.
  - destruct (existsb _ temp) eqn:Hitem; simpl.
    + apply IH.
    + rewrite IH. simpl. rewrite <- app_assoc. reflexivity.
Qed.

(** Running the loop again over what it yielded, with the same initial
    buffer, drops nothing. *)
Lemma distinctInner_loop_idempotent (ec : EqualityComparer T) (e : list T) :
  forall temp,
    Enumerable.distinctInner_loop ec (Enumerable.distinctInner_loop ec e temp) temp =
    Enumerable.distinctInner_loop ec e temp.
Proof.
  induction e as [ | item e IH ]; intros temp; simpl.
  - reflexivity.
  - destruct (existsb _ temp) eqn:Hitem; simpl.
    + apply IH.
    + rewrite Hitem. simpl. rewrite IH. reflexivity.
Qed.

(** C9.  For every sequence and every equality comparer (the literal [true],
    a function, or none), applying [distinct] with that comparer to the
    result of [distinct] with that comparer yields the same items as applying
    it once. *)
Theorem distinct_idempotent (comparer : EqualityComparerArg T) (e : list T) :
  Enumerable.distinct comparer (Enumerable.distinct comparer e) =
  Enumerable.distinct comparer e.
Proof.
  rewrite !distinct_unfold. apply distinctInner_loop_idempotent.
Qed.

(** C10.  For every sequence and every equality comparer, what [distinct]
    yields is a subsequence of the source, in source order, and an item of
    the source is yielded exactly when no item yielded before it is
    comparer-equal to it: going through the source from left to right, the
    item [x] that follows the items [pre] is appended to the output for [pre]
    if the comparer, called as [ec(x, existingItem)], is false on every item
    of that output, and is dropped otherwise. *)
Theorem distinct_first_occurrences (comparer : EqualityComparerArg T) :
  let ec := Enumerable.toEqualityComparerSafe comparer in
  (forall e, sublist (Enumerable.distinct comparer e) e) /\
  Enumerable.distinct comparer [] = [] /\
  (forall pre x,
     Enumerable.distinct comparer (pre ++ [x]) =
     Enumerable.distinct comparer pre ++
       (if existsb (fun existingItem => ec x existingItem) (Enumerable.distinct comparer pre)
        then [] else [x])).
Proof.
  intros ec. split; [ | split ].
  - intros e. rewrite distinct_unfold. apply distinctInner_loop_sublist.
  - reflexivity.
  - intros pre x. rewrite !distinct_unfold. apply distinctInner_loop_snoc.
Qed.
End DistinctFacts.

(** ** [toArray] *)

Section ToArrayFacts.
Context {Closure T V O : Type}.
Context `{LambdaHost (KeySelector Closure T V) O}.

(** Without a key selector every item is pushed. *)
Lemma toArray_loop_push (e arr : list T) :
  forall key index prevVal value (s : Closure),
    Enumerable.toArray_loop (V := V) None e arr key index prevVal value s = (arr ++ e, s).
Proof.
  revert arr. induction e as [ | item e IH ]; intros arr key index prevVal value s; simpl.
  - rewrite app_nil_r. reflexivity.
  - rewrite IH, <- app_assoc. reflexivity.
Qed.

(** With a key selector the array is left as it was. *)
Lemma toArray_loop_keyed (ks : KeySelector Closure T V) (e arr : list T) :
  forall key index prevVal value (s : Closure),
    fst (Enumerable.toArray_loop (Some ks) e arr key index prevVal value s) = arr.
Proof.
  induction e as [ | item e IH ]; intros key index prevVal value s; simpl.
  - reflexivity.
  - destruct (ks s (key + 1) item _) as [[k ctx] s']. apply IH.
Qed.

(** [toArray()] appends every item in iteration order. *)
Lemma toArray_undefined (e : list T) (s : Closure) :
  Enumerable.toArray JsUndefined e s = (Return e, s).
Proof.
  unfold Enumerable.toArray. simpl. rewrite toArray_loop_push. reflexivity.
Qed.

(** [toArray(keySelector)] returns the empty array, whatever the key
    selector computes. *)
Lemma toArray_keySelector_empty (ks : KeySelector Closure T V) (e : list T) (s : Closure) :
  fst (Enumerable.toArray (JsFunction ks) e s) = Return [].
Proof.
  unfold Enumerable.toArray. simpl.
  pose proof (toArray_loop_keyed ks e [] (-1) (-1) None None s) as Hk.
  destruct (Enumerable.toArray_loop _ _ _ _ _ _ _ _) as [arr s']. simpl in *.
  subst arr. reflexivity.
Qed.

(** [toArray(true)] returns the empty array as well. *)
Lemma toArray_true_empty (e : list T) (s : Closure) :
  fst (Enumerable.toArray (JsBoolean true) e s) = Return [].
Proof.
  unfold Enumerable.toArray. simpl.
  pose proof (toArray_loop_keyed (fun s key _ ctx => (key, ctx, s)) e [] (-1) (-1)
                None None s) as Hk.
  destruct (Enumerable.toArray_loop _ _ _ _ _ _ _ _) as [arr s']. simpl in *.
  subst arr. reflexivity.
Qed.
End ToArrayFacts.

(** ** [aggregate] *)

Section AggregateFacts.
Context {Closure T V O : Type}.
Context `{JsAdd T} `{LambdaHost (Aggregator Closure T V) O}.

(** Once the first item is behind, the loop of [aggregate] is the fold of
    the description. *)
Lemma aggregate_loop_fold_running (a : Aggregator Closure T V) (e : list T) :
  forall result index prevVal value (s : Closure),
    0 <= index ->
    Enumerable.aggregate_loop a e result index prevVal value s =
    fold_running a e result (index + 1) prevVal value s.
Proof.
  induction e as [ | item e IH ]; intros result i pv v s Hi;
    cbn [Enumerable.aggregate_loop fold_running].
  - reflexivity.
  - replace (0 =? i + 1) with false by (symmetry; apply Z.eqb_neq; lia).
    cbn [negb set_value new_ItemContext index previousValue cancel nextValue value].
    destruct (a s result item _) as [[newResult ctx] s'].
    destruct (cancel ctx); [ reflexivity | ].
    apply IH. lia.
Qed.

Lemma aggregate_loop_spec (a : Aggregator Closure T V) (defaultValue : T) (e : list T)
    (s : Closure) :
  Enumerable.aggregate_loop a e defaultValue (-1) None None s =
  aggregate_spec a defaultValue e s.
Proof.
  destruct e as [ | seed items ]; simpl.
  - reflexivity.
  - apply aggregate_loop_fold_running. lia.
Qed.

(** Without cancellation and with a pure aggregator the fold is [fold_left]. *)
Lemma fold_running_pure (f : T -> T -> T) (items : list T) :
  forall running index prevVal value (s : Closure),
    fold_running (V := V) (pure_aggregator f) items running index prevVal value s =
    (fold_left f items running, s).
Proof.
  induction items as [ | item items IH ]; intros; simpl.
  - reflexivity.
  - apply IH.
Qed.

(** C4.  [aggregate(aggregator, defaultValue)] returns [defaultValue] for an
    empty source; the first item seeds the running result and the aggregator is
    not called on it (a one-item source returns that item and leaves the
    variables captured by the aggregator as they were); from the second item on
    the aggregator is called as [(runningResult, item, context)] and its value
    becomes the running result, until the source ends or a call cancels, and
    the running result reached is returned.  No call precedes the first
    result, so a cancellation cannot come before it: for a source that is not
    empty the default value plays no part. *)
Theorem aggregate_seed_then_fold (a : Aggregator Closure T V) (defaultValue : T) (s : Closure) :
  Enumerable.aggregate (JsFunction a) defaultValue [] s = (Return defaultValue, s) /\
  (forall seed, Enumerable.aggregate (JsFunction a) defaultValue [seed] s = (Return seed, s)) /\
  (forall seed items,
     Enumerable.aggregate (JsFunction a) defaultValue (seed :: items) s =
     let '(result, s') := fold_running a items seed 1 None None s in
     (Return result, s')) /\
  (forall seed items otherDefault,
     Enumerable.aggregate (JsFunction a) defaultValue (seed :: items) s =
     Enumerable.aggregate (JsFunction a) otherDefault (seed :: items) s) /\
  (forall e,
     Enumerable.aggregate (JsFunction a) defaultValue e s =
     let '(result, s') := aggregate_spec a defaultValue e s in
     (Return result, s')).
Proof.
  assert (Hspec : forall d e,
             Enumerable.aggregate (JsFunction a) d e s =
             let '(result, s') := aggregate_spec a d e s in
             (Return result, s')).
  { intros d e. unfold Enumerable.aggregate. simpl.
    rewrite aggregate_loop_spec. reflexivity. }
  split; [ | split; [ | split; [ | split ] ] ].
  - rewrite Hspec. reflexivity.
  - intros seed. rewrite Hspec. reflexivity.
  - intros seed items. rewrite Hspec. reflexivity.
  - intros seed items otherDefault. rewrite !Hspec. reflexivity.
  - apply Hspec.
Qed.
End AggregateFacts.

(** ** The predicate scans: [where], [count], [first], [last], [single] *)

Section ScanFacts.
Context {Closure T V O : Type}.
Context `{LambdaHost (Predciate Closure T V) O}.

Implicit Types (p : Predciate Closure T V) (e : list T) (s : Closure).

(** A loop over [e] whose two sides differ only in the predicate. *)
Ltac scan_ext Hext p' e :=
  induction e as [ | item e IH ]; intros; simpl; [ reflexivity | ];
  rewrite Hext;
  destruct (p' _ item _) as [[doesMatch ctx] s'];
  destruct (cancel ctx); [ reflexivity | ];
  repeat match goal with
         | |- context [ if ?b then _ else _ ] => is_var b; destruct b
         | |- context [ match ?o with Some _ => _ | None => _ end ] => is_var o; destruct o
         end;
  try rewrite IH; reflexivity.

Lemma count_loop_ext p p' : same_calls p p' ->
  forall e cnt i pv v s,
    Enumerable.count_loop p e cnt i pv v s = Enumerable.count_loop p' e cnt i pv v s.
Proof. intros Hext e. scan_ext Hext p' e. Qed.

Lemma whereInner_loop_ext p p' : same_calls p p' ->
  forall e i pv v s,
    Enumerable.whereInner_loop p e i pv v s = Enumerable.whereInner_loop p' e i pv v s.
Proof. intros Hext e. scan_ext Hext p' e. Qed.

Lemma first_loop_ext p p' : same_calls p p' ->
  forall e i pv v s,
    Enumerable.first_loop p e i pv v s = Enumerable.first_loop p' e i pv v s.
Proof. intros Hext e. scan_ext Hext p' e. Qed.

Lemma last_loop_ext p p' : same_calls p p' ->
  forall e result i pv v s,
    Enumerable.last_loop p e result i pv v s = Enumerable.last_loop p' e result i pv v s.
Proof. intros Hext e. scan_ext Hext p' e. Qed.

Lemma single_loop_ext p p' : same_calls p p' ->
  forall e result i pv v s,
    Enumerable.single_loop p e result i pv v s = Enumerable.single_loop p' e result i pv v s.
Proof. intros Hext e. scan_ext Hext p' e. Qed.


(** [toPredicateSafe] hands a function on, up to the coercion of its result
    to a boolean. *)
Lemma toPredicateSafe_function p :
  exists p', Enumerable.toPredicateSafe (JsFunction p) = Return p' /\ same_calls p' p.
Proof.
  eexists. split; [ reflexivity | ].
  intros s x ctx. simpl. destruct (p s x ctx) as [[[] ctx'] s']; reflexivity.
Qed.

(** A function in first position is the predicate, and the second
    parameter is the default value. *)
Lemma toOrDefaultArgs_function p (d : JsValue (Predciate Closure T V) O) (argCount : nat) :
  exists p',
    Enumerable.toOrDefaultArgs (JsFunction p) d argCount = Return (mkOrDefaultArgs d p') /\
    same_calls p' p.
Proof.
  eexists. split; [ reflexivity | ].
  intros s x ctx. simpl. destruct (p s x ctx) as [[[] ctx'] s']; reflexivity.
Qed.

(** Without a predicate every item is accepted. *)
Lemma toPredicateSafe_undefined :
  Enumerable.toPredicateSafe (O := O) JsUndefined = Return (accept_all (T := T)).
Proof. reflexivity. Qed.
End ScanFacts.

(** ** [first] and [elementAt] *)

Section FirstFacts.
Context {Closure T V O : Type}.
Context `{LambdaHost (Predciate Closure T V) O}.

(** [first()] returns the first item and calls nothing. *)
Lemma first_undefined_cons (x : T) (e : list T) (s : Closure) :
  Enumerable.first JsUndefined (x :: e) s = (Return x, s).
Proof. reflexivity. Qed.

Lemma first_undefined_nil (s : Closure) :
  Enumerable.first JsUndefined (@nil T) s = (Throw "No matching element found!", s).
Proof. reflexivity. Qed.
End FirstFacts.

Section ElementAtFacts.
Context {T V O : Type}.
Context `{LambdaHost (Predciate Z T V) O}.

(** The scan with the counting predicate stops at the item whose position
    is the initial value of the captured [index]. *)
Lemma first_loop_elementAt_predicate (p : Predciate Z T V) (e : list T) :
  same_calls p Enumerable.elementAt_predicate ->
  forall index i pv v,
    0 <= index ->
    fst (Enumerable.first_loop p e i pv v index) = nth_error e (Z.to_nat index).
Proof.
  intros Hp. induction e as [ | item e IH ]; intros n i pv v Hn; simpl.
  - destruct (Z.to_nat n); reflexivity.
  - rewrite Hp. unfold Enumerable.elementAt_predicate. simpl cancel. cbv iota beta.
    destruct (Z.eqb_spec 0 n) as [ <- | Hne ].
    + reflexivity.
    + rewrite IH by lia.
      replace (Z.to_nat n) with (S (Z.to_nat (n - 1))) by lia. reflexivity.
Qed.

(** [elementAt(index)] returns the item at position [index] and fails when
    the sequence is too short or the index negative. *)
Lemma elementAt_nth (index : Z) (e : list T) :
  Enumerable.elementAt index e =
  if index <? 0 then Throw ("Index out of range: " +:+ pretty index)
  else match nth_error e (Z.to_nat index) with
       | Some x => Return x
       | None => Throw "No matching element found!"
       end.
Proof.
  unfold Enumerable.elementAt. destruct (Z.ltb_spec index 0) as [ Hneg | Hpos ].
  - reflexivity.
  - unfold Enumerable.first.
    destruct (toPredicateSafe_function Enumerable.elementAt_predicate) as (p & -> & Hp).
    pose proof (first_loop_elementAt_predicate p e Hp index (-1) None None Hpos) as Hscan.
    destruct (Enumerable.first_loop p e _ _ _ _) as [[result | ] s']; simpl in *;
      rewrite <- Hscan; reflexivity.
Qed.

(** [elementAtOrDefault(index, defaultValue)] returns the item at position
    [index], and [defaultValue], whatever it is, when there is none. *)
Lemma elementAtOrDefault_nth (index : Z) (d : JsValue (Predciate Z T V) O)
    (e : list T) :
  Enumerable.elementAtOrDefault index d e =
  if index <? 0 then Throw ("Index out of range: " +:+ pretty index)
  else match nth_error e (Z.to_nat index) with
       | Some x => Return (Item x)
       | None => Return (Default d)
       end.
Proof.
  unfold Enumerable.elementAtOrDefault. destruct (Z.ltb_spec index 0) as [ Hneg | Hpos ].
  - reflexivity.
  - unfold Enumerable.firstOrDefault. cbn [Enumerable.parameter nth length].
    destruct (toOrDefaultArgs_function Enumerable.elementAt_predicate d 2)
      as (p & -> & Hp).
    cbn [predicate defaultValue].
    pose proof (first_loop_elementAt_predicate p e Hp index (-1) None None Hpos) as Hscan.
    destruct (Enumerable.first_loop p e _ _ _ _) as [[result | ] s']; simpl in *;
      rewrite <- Hscan; reflexivity.
Qed.
End ElementAtFacts.

Section FirstElementAt.
Context {Closure T V V' O O' : Type}.
Context `{LambdaHost (Predciate Closure T V) O} `{LambdaHost (Predciate Z T V') O'}.

(** C6.  For every non-empty sequence, [first()] without a predicate and
    [elementAt(0)] both return, and return the same value: the first item. *)
Theorem first_eq_elementAt_0 (e : list T) (s : Closure) :
  e <> [] ->
  exists x,
    head e = Some x /\
    fst (Enumerable.first JsUndefined e s) = Return x /\
    Enumerable.elementAt 0 e = Return x.
Proof.
  intros Hne. destruct e as [ | x e ]; [ contradiction | ].
  exists x. rewrite first_undefined_cons, elementAt_nth. repeat split.
Qed.
End FirstElementAt.

(** ** [single] and [singleOrDefault] *)

Section SingleFacts.
Context {Closure T V O : Type}.
Context `{LambdaHost (Predciate Closure T V) O}.

Implicit Types (p : Predciate Closure T V) (e : list T) (s : Closure).

(** A predicate that only looks at the item never cancels, and [where]
    yields the items it accepts. *)
Lemma whereInner_loop_pure (q : T -> bool) e :
  forall i pv v s,
    Enumerable.whereInner_loop (V := V) (pure_predicate q) e i pv v s = (List.filter q e, s).
Proof.
  induction e as [ | item e IH ]; intros; simpl.
  - reflexivity.
  - rewrite IH. destruct (q item); reflexivity.
Qed.

(** The scan of [single], compared with what [where] yields from the same
    point of the traversal: the items the predicate accepts before it
    cancels. *)
Lemma single_loop_whereInner_loop p e :
  forall result i pv v s,
    fst (Enumerable.single_loop p e result i pv v s) =
    match result, fst (Enumerable.whereInner_loop p e i pv v s) with
    | _, [] => Return result
    | None, [x] => Return (Some x)
    | _, _ => Throw "Sequence contains more than one matching element!"
    end.
Proof.
  induction e as [ | item e IH ]; intros result i pv v s; simpl.
  - destruct result; reflexivity.
  - destruct (p s item _) as [[doesMatch ctx] s'].
    destruct (cancel ctx); [ destruct result; reflexivity | ].
    specialize (IH (if doesMatch then match result with None => Some item | r => r end
                    else result)
                  (i + 1) (nextValue ctx) (value ctx) s').
    destruct (Enumerable.whereInner_loop p e _ _ _ _) as [yielded s''].
    destruct doesMatch, result; simpl in *;
      try rewrite IH; try reflexivity; destruct yielded as [ | y [ | y' yielded ] ];
      reflexivity.
Qed.

(** For a predicate that only looks at the item: [single] throws when more
    than one item satisfies it and when none does, and returns the item when
    exactly one does. *)
Lemma single_pure_predicate (q : T -> bool) e s :
  fst (Enumerable.single (V := V) (JsFunction (pure_predicate q)) e s) =
  match List.filter q e with
  | [] => Throw "No matching element found!"
  | [x] => Return x
  | _ => Throw "Sequence contains more than one matching element!"
  end.
Proof.
  unfold Enumerable.single.
  destruct (toPredicateSafe_function (pure_predicate (V := V) q)) as (p' & -> & Hp').
  pose proof (single_loop_whereInner_loop (pure_predicate q) e None (-1) None None s)
    as Hscan.
  rewrite <- (single_loop_ext p' _ Hp'), whereInner_loop_pure in Hscan. simpl in Hscan.
  destruct (Enumerable.single_loop p' e _ _ _ _ _) as [[[result | ] | m] s'];
    simpl in Hscan; destruct (List.filter q e) as [ | y [ | y' ys ] ];
    simpl; congruence.
Qed.

(** C8, as the code has it.  [single(predicate)] and
    [singleOrDefault(predicate, defaultValue)] throw "Sequence contains more
    than one matching element!" when the predicate accepts more than one item
    before it cancels the scan, that is when [where(predicate)] yields more
    than one item; when it yields none, [single] throws "No matching element
    found!" and [singleOrDefault] returns the default value; when it yields
    one item, both return it.  For a predicate that only looks at the item
    (and so never cancels) the items [where] yields are the items that
    satisfy it. *)
Theorem single_by_matches_before_cancel p (d : JsValue (Predciate Closure T V) O) e s :
  let matches := fst (Enumerable.whereInner p e s) in
  fst (Enumerable.single (JsFunction p) e s) =
    match matches with
    | [] => Throw "No matching element found!"
    | [x] => Return x
    | _ => Throw "Sequence contains more than one matching element!"
    end /\
  fst (Enumerable.singleOrDefault [JsFunction p; d] e s) =
    match matches with
    | [] => Return (Default d)
    | [x] => Return (Item x)
    | _ => Throw "Sequence contains more than one matching element!"
    end /\
  fst (Enumerable.singleOrDefault [JsFunction p] e s) =
    match matches with
    | [] => Return (Default JsUndefined)
    | [x] => Return (Item x)
    | _ => Throw "Sequence contains more than one matching element!"
    end /\
  (forall q : T -> bool,
     fst (Enumerable.whereInner (V := V) (pure_predicate q) e s) = List.filter q e /\
     fst (Enumerable.single (V := V) (JsFunction (pure_predicate q)) e s) =
       match List.filter q e with
       | [] => Throw "No matching element found!"
       | [x] => Return x
       | _ => Throw "Sequence contains more than one matching element!"
       end).
Proof.
  intros matches. subst matches. unfold Enumerable.whereInner.
  assert (Hscan : forall p', same_calls p' p ->
            fst (Enumerable.single_loop p' e None (-1) None None s) =
            match fst (Enumerable.whereInner_loop p e (-1) None None s) with
            | [] => Return None
            | [x] => Return (Some x)
            | _ => Throw "Sequence contains more than one matching element!"
            end).
  { intros p' Hp'. rewrite (single_loop_ext p' p Hp'), single_loop_whereInner_loop.
    reflexivity. }
  split; [ | split; [ | split ] ].
  - unfold Enumerable.single.
    destruct (toPredicateSafe_function p) as (p' & -> & Hp'). specialize (Hscan p' Hp').
    destruct (Enumerable.single_loop p' e _ _ _ _ _) as [[[result | ] | m] s'];
      simpl in Hscan;
      destruct (fst (Enumerable.whereInner_loop p e _ _ _ _)) as [ | y [ | y' ys ] ];
      simpl; congruence.
  - unfold Enumerable.singleOrDefault. cbn [Enumerable.parameter nth length].
    destruct (toOrDefaultArgs_function p d 2) as (p' & -> & Hp'). specialize (Hscan p' Hp').
    cbn [predicate defaultValue].
    destruct (Enumerable.single_loop p' e _ _ _ _ _) as [[[result | ] | m] s'];
      simpl in Hscan;
      destruct (fst (Enumerable.whereInner_loop p e _ _ _ _)) as [ | y [ | y' ys ] ];
      simpl; congruence.
  - unfold Enumerable.singleOrDefault. cbn [Enumerable.parameter nth length].
    destruct (toOrDefaultArgs_function p JsUndefined 1) as (p' & -> & Hp').
    specialize (Hscan p' Hp'). cbn [predicate defaultValue].
    destruct (Enumerable.single_loop p' e _ _ _ _ _) as [[[result | ] | m] s'];
      simpl in Hscan;
      destruct (fst (Enumerable.whereInner_loop p e _ _ _ _)) as [ | y [ | y' ys ] ];
      simpl; congruence.
  - intros q. split.
    + rewrite whereInner_loop_pure. reflexivity.
    + apply single_pure_predicate.
Qed.

End SingleFacts.

(** ** Cancellation *)

Section CancelFacts.
Context {Closure T V O O' : Type}.
Context `{JsAdd T}.
Context `{LambdaHost (Predciate Closure T V) O} `{LambdaHost (Aggregator Closure T V) O'}.

Implicit Types (p : Predciate Closure T V) (a : Aggregator Closure T V).
Implicit Types (pre post : list T) (s : Closure).




End CancelFacts.

(** ** The [...OrDefault] family *)

Section OrDefaultFacts.
Context {Closure T V V' O O' : Type}.
Context `{LambdaHost (Predciate Closure T V) O} `{LambdaHost (Predciate Z T V') O'}.

Implicit Types (e : list T) (s : Closure).

Lemma first_loop_accept_all e :
  forall i pv v s,
    fst (Enumerable.first_loop (V := V) accept_all e i pv v s) = head e.
Proof. destruct e; reflexivity. Qed.

Lemma last_loop_accept_all e :
  forall result i pv v s,
    fst (Enumerable.last_loop (V := V) accept_all e result i pv v s) =
    match last e with
    | Some x => Some x
    | None => result
    end.
Proof.
  induction e as [ | item e IH ]; intros; simpl.
  - reflexivity.
  - rewrite IH, last_cons. destruct (last e); reflexivity.
Qed.

Lemma single_loop_accept_all e s :
  fst (Enumerable.single_loop (V := V) accept_all e None (-1) None None s) =
  match e with
  | [] => Return None
  | [x] => Return (Some x)
  | _ => Throw "Sequence contains more than one matching element!"
  end.
Proof.
  rewrite single_loop_whereInner_loop.
  change (accept_all (Closure := Closure) (T := T) (V := V))
    with (pure_predicate (Closure := Closure) (V := V) (fun _ : T => true)).
  rewrite whereInner_loop_pure. simpl.
  replace (List.filter (fun _ : T => true) e) with e; [ reflexivity | ].
  induction e as [ | x e IH ]; simpl; congruence.
Qed.

(** A single argument that is truthy, not callable and not of lambda form
    becomes the default value, and the predicate accepts every item. *)
Lemma toOrDefaultArgs_default (v d : JsValue (Predciate Closure T V) O) (lambda : string) :
  Args.truthy v = true ->
  (forall f, v <> JsFunction f) ->
  Args.to_string v = Return lambda ->
  lambda_match (F := Predciate Closure T V) (O := O) lambda = None ->
  Enumerable.toOrDefaultArgs v d 1 = Return (mkOrDefaultArgs v accept_all).
Proof.
  intros Hv Hf Hs Hm. unfold Enumerable.toOrDefaultArgs.
  rewrite (asFunc_no_lambda v lambda Hv Hf Hs Hm). reflexivity.
Qed.

(** The values for which a call with one argument takes that argument as
    the default value: [undefined], [false], and the truthy values that are
    not callable and in whose string form the lambda pattern finds no
    match. *)
Lemma toOrDefaultArgs_single_argument (v : JsValue (Predciate Closure T V) O) :
  v = JsUndefined \/
  v = JsBoolean false \/
  (Args.truthy v = true /\
   (forall f, v <> JsFunction f) /\
   exists lambda,
     Args.to_string v = Return lambda /\
     lambda_match (F := Predciate Closure T V) (O := O) lambda = None) ->
  Enumerable.toOrDefaultArgs v JsUndefined 1 = Return (mkOrDefaultArgs v accept_all).
Proof.
  intros [ -> | [ -> | (Hv & Hf & lambda & Hs & Hm) ] ];
    [ reflexivity | reflexivity | ].
  exact (toOrDefaultArgs_default v JsUndefined lambda Hv Hf Hs Hm).
Qed.

(** C5, as the code has it.  When [firstOrDefault], [lastOrDefault] or
    [singleOrDefault] is called with exactly one argument that is
    [undefined], [false], or a truthy value that is not callable and in whose
    string form the lambda pattern finds no match, that argument is the
    default value and the predicate accepts every item: the call returns the
    first item, the last item, or the only item of the sequence (throwing
    when there are several), and the argument when the sequence is empty.
    [elementAtOrDefault(index, defaultValue)], for every index, default value
    and sequence, takes its second argument as the default value and looks
    for the item at position [index], not for the first one. *)
Theorem orDefault_single_argument :
  (forall (v : JsValue (Predciate Closure T V) O) e s,
     v = JsUndefined \/
     v = JsBoolean false \/
     (Args.truthy v = true /\
      (forall f, v <> JsFunction f) /\
      exists lambda,
        Args.to_string v = Return lambda /\
        lambda_match (F := Predciate Closure T V) (O := O) lambda = None) ->
     Enumerable.toOrDefaultArgs v JsUndefined 1 = Return (mkOrDefaultArgs v accept_all) /\
     fst (Enumerable.firstOrDefault [v] e s) =
       Return (match head e with Some x => Item x | None => Default v end) /\
     fst (Enumerable.lastOrDefault [v] e s) =
       Return (match last e with Some x => Item x | None => Default v end) /\
     fst (Enumerable.singleOrDefault [v] e s) =
       match e with
       | [] => Return (Default v)
       | [x] => Return (Item x)
       | _ => Throw "Sequence contains more than one matching element!"
       end) /\
  (forall (index : Z) (d : JsValue (Predciate Z T V') O') e,
     Enumerable.elementAtOrDefault index d e =
     if index <? 0 then Throw ("Index out of range: " +:+ pretty index)
     else match nth_error e (Z.to_nat index) with
          | Some x => Return (Item x)
          | None => Return (Default d)
          end).
Proof.
  split; [ | intros index d e; apply elementAtOrDefault_nth ].
  intros v e s Hv.
  pose proof (toOrDefaultArgs_single_argument v Hv) as Hargs.
  split; [ exact Hargs | ]. split; [ | split ].
  - unfold Enumerable.firstOrDefault. cbn [Enumerable.parameter nth length].
    rewrite Hargs. cbn [predicate defaultValue].
    pose proof (first_loop_accept_all e (-1) None None s) as Hscan.
    destruct (Enumerable.first_loop _ e _ _ _ _) as [[result | ] s']; simpl in *;
      rewrite <- Hscan; reflexivity.
  - unfold Enumerable.lastOrDefault. cbn [Enumerable.parameter nth length].
    rewrite Hargs. cbn [predicate defaultValue].
    pose proof (last_loop_accept_all e None (-1) None None s) as Hscan.
    destruct (Enumerable.last_loop _ e _ _ _ _ _) as [[result | ] s']; simpl in *;
      destruct (last e); try discriminate; congruence.
  - unfold Enumerable.singleOrDefault. cbn [Enumerable.parameter nth length].
    rewrite Hargs. cbn [predicate defaultValue].
    pose proof (single_loop_accept_all e s) as Hscan.
    destruct (Enumerable.single_loop _ e _ _ _ _ _) as [[[result | ] | m] s'];
      simpl in Hscan; destruct e as [ | y [ | y' ys ] ]; simpl; congruence.
Qed.
End OrDefaultFacts.

(** ** The collections *)

Section CollectionFacts.
Context {T : Type} `{JsEquals T} `{JsUndefinedValue T}.

Implicit Types (c : Collection.Collection T).

(** [throwIfReadOnly] throws whether or not the collection is read-only,
    and so does every method that calls it. *)
Lemma throwIfReadOnly_throws c :
  Collection.throwIfReadOnly c = Throw "Collection is read-only!".
Proof. reflexivity. Qed.

Lemma mutators_throw c (item : T) (items : list T) (index : Z) :
  Collection.Collection_add c item = Throw "Collection is read-only!" /\
  Collection.push c items = Throw "Collection is read-only!" /\
  Collection.clear c = Throw "Collection is read-only!" /\
  Collection.remove c item = Throw "Collection is read-only!" /\
  Collection.setItem c index item = Throw "Collection is read-only!" /\
  Collection.insert c index item = Throw "Collection is read-only!" /\
  Collection.removeAt c index = Throw "Collection is read-only!" /\
  (forall Closure V (p : Predciate Closure T V) s,
     fst (Collection.removeAll c p s) = Throw "Collection is read-only!").
Proof. repeat split. Qed.

(** [add] on a collection that is not a set throws. *)
Lemma add_throws c (item : T) :
  Collection._class c <> Collection.ClassHashSet ->
  Collection.add c item = Throw "Collection is read-only!".
Proof.
  intros Hclass. unfold Collection.add.
  destruct (Collection._class c); [ | contradiction | | ]; reflexivity.
Qed.

(** [addRange] throws as soon as there is an item to add. *)
Lemma addRange_throws c (item : T) (items : list T) :
  Collection._class c <> Collection.ClassHashSet ->
  Collection.addRange c (item :: items) = Throw "Collection is read-only!".
Proof. intros Hc. simpl. rewrite (add_throws c item Hc). reflexivity. Qed.
End CollectionFacts.

(** ** [Array.prototype.sort] *)

Section ArraySortFacts.
Context {A : Type}.

(** Only the sign test [compareFn(x, y) > 0] matters. *)
Lemma Array_sort_insert_ext (c c' : A -> A -> Z) :
  (forall x y, (c x y >? 0) = (c' x y >? 0)) ->
  forall x l, Array_sort_insert c x l = Array_sort_insert c' x l.
Proof.
  intros Hc x l. induction l as [ | y l IH ]; simpl; [ reflexivity | ].
  rewrite Hc, IH. reflexivity.
Qed.

Lemma Array_sort_ext (c c' : A -> A -> Z) :
  (forall x y, (c x y >? 0) = (c' x y >? 0)) ->
  forall l, Array_sort c l = Array_sort c' l.
Proof.
  intros Hc l. induction l as [ | x l IH ]; simpl; [ reflexivity | ].
  rewrite IH. apply Array_sort_insert_ext, Hc.
Qed.

Lemma Array_sort_insert_Permutation (c : A -> A -> Z) (x : A) (l : list A) :
  Array_sort_insert c x l ≡ₚ x :: l.
Proof.
  induction l as [ | y l IH ]; simpl; [ reflexivity | ].
  destruct (c x y >? 0); [ | reflexivity ].
  rewrite IH. apply Permutation_swap.
Qed.

(** Sorting rearranges the items. *)
Lemma Array_sort_Permutation (c : A -> A -> Z) (l : list A) :
  Array_sort c l ≡ₚ l.
Proof.
  induction l as [ | x l IH ]; simpl; [ reflexivity | ].
  rewrite Array_sort_insert_Permutation, IH. reflexivity.
Qed.

(** What the sort returns is in order, as far as neighbours go, whenever
    the comparer never puts two items both ways round. *)
Lemma Array_sort_insert_Sorted (c : A -> A -> Z) :
  (forall x y, c x y > 0 -> c y x <= 0) ->
  forall x l,
    Sorted (fun x y => c x y <= 0) l ->
    Sorted (fun x y => c x y <= 0) (Array_sort_insert c x l).
Proof.
  intros Hc x l. induction l as [ | y l IH ]; intros Hl; simpl.
  - repeat constructor.
  - destruct (Z.gtb_spec (c x y) 0) as [ Hgt | Hle ].
    + apply Sorted_inv in Hl as [Hl Hy]. constructor; [ apply IH, Hl | ].
      destruct l as [ | z l ]; simpl.
      * constructor. apply Hc. lia.
      * destruct (c x z >? 0).
        -- constructor. apply HdRel_inv in Hy. exact Hy.
        -- constructor. apply Hc. lia.
    + constructor; [ exact Hl | constructor; exact Hle ].
Qed.

Lemma Array_sort_Sorted (c : A -> A -> Z) :
  (forall x y, c x y > 0 -> c y x <= 0) ->
  forall l, Sorted (fun x y => c x y <= 0) (Array_sort c l).
Proof.
  intros Hc l. induction l as [ | x l IH ]; simpl.
  - constructor.
  - apply Array_sort_insert_Sorted; assumption.
Qed.

(** Sorting decorated items by their decoration and undecorating them is
    sorting the items by the decoration they would get. *)
Lemma Array_sort_insert_map {B : Type} (f : A -> B) (c : B -> B -> Z) (x : A) (l : list A) :
  Array_sort_insert c (f x) (map f l) =
  map f (Array_sort_insert (fun x y => c (f x) (f y)) x l).
Proof.
  induction l as [ | y l IH ]; simpl; [ reflexivity | ].
  destruct (c (f x) (f y) >? 0); simpl; [ rewrite IH | ]; reflexivity.
Qed.

Lemma Array_sort_map {B : Type} (f : A -> B) (c : B -> B -> Z) (l : list A) :
  Array_sort c (map f l) = map f (Array_sort (fun x y => c (f x) (f y)) l).
Proof.
  induction l as [ | x l IH ]; simpl; [ reflexivity | ].
  rewrite IH. apply Array_sort_insert_map.
Qed.
End ArraySortFacts.

(** ** [orderBy(...).thenBy(...)] *)

Section OrderedFacts.
Context {Closure T V O : Type}.
Context `{LambdaHost (KeySelector Closure T V) O}.

(** The keys a selector that only looks at the item computes *)
Lemma sortValues_pure {U} (k : T -> U) (items : list T) :
  forall i pv v (s : Closure),
    OrderedEnumerable.sortValues (V := V)
      (OrderedEnumerable.toSelectorSafe (pure_selector k)) items i pv v s =
    (map (fun x => OrderedEnumerable.mkSortValue (k x) x) items, s).
Proof.
  induction items as [ | x items IH ]; intros; simpl.
  - reflexivity.
  - simpl in IH. rewrite IH. reflexivity.
Qed.

(** The keys the selector built by [thenBy] computes from two such selectors *)
Lemma sortValues_levels {U W} (k1 : T -> U) (k2 : T -> W) (items : list T) :
  forall i pv v (s : Closure),
    OrderedEnumerable.sortValues (V := V)
      (OrderedEnumerable.toSelectorSafe
         (fun s x ctx =>
            let '(l0, ctx, s) :=
              OrderedEnumerable.toSelectorSafe (pure_selector k1) s x ctx in
            let '(l1, ctx, s) :=
              OrderedEnumerable.toSelectorSafe (pure_selector k2) s x ctx in
            (OrderedEnumerable.mkLevels l0 l1, ctx, s)))
      items i pv v s =
    (map (fun x => OrderedEnumerable.mkSortValue
                     (OrderedEnumerable.mkLevels (k1 x) (k2 x)) x) items, s).
Proof.
  induction items as [ | x items IH ]; intros; simpl.
  - reflexivity.
  - simpl in IH. rewrite IH. reflexivity.
Qed.

(** [toComparerSafe] yields -1, 0 or 1; converting such a comparer again
    changes nothing. *)
Lemma toComparerSafe_sign {U} `{JsLess U} (c : option (Comparer U)) (x y : U) :
  OrderedEnumerable.toComparerSafe c x y = -1 \/
  OrderedEnumerable.toComparerSafe c x y = 0 \/
  OrderedEnumerable.toComparerSafe c x y = 1.
Proof.
  destruct c as [ c | ]; simpl.
  - destruct (c x y >? 0); [ auto | ]. destruct (c x y <? 0); auto.
  - destruct (js_lt x y); [ auto | ]. destruct (js_lt y x); auto.
Qed.

Lemma toComparerSafe_positive {U} `{JsLess U} (c : Comparer U) (x y : U) :
  (OrderedEnumerable.toComparerSafe (Some c) x y >? 0) = (c x y >? 0).
Proof.
  simpl. destruct (c x y >? 0) eqn:Hpos; [ reflexivity | ].
  destruct (c x y <? 0); reflexivity.
Qed.

(** [from(xs).orderBy(k1, c1).thenBy(k2, c2).toArray()], for selectors that
    only look at the item: the original items [xs], sorted by the comparer
    that lets the primary keys decide and compares the secondary keys when
    they tie. *)
Lemma orderBy_thenBy_toArray_pure {U W} `{JsLess U} `{JsLess W}
    (k1 : T -> U) (c1 : option (Comparer U)) (k2 : T -> W) (c2 : option (Comparer W))
    (xs : list T) (s : Closure) :
  orderBy_thenBy_toArray (V := V) xs (pure_selector k1) c1 (pure_selector k2) c2 s =
  (Return (Array_sort (composite_comparer (OrderedEnumerable.toComparerSafe c1)
                         (OrderedEnumerable.toComparerSafe c2) k1 k2) xs), s).
Proof.
  unfold orderBy_thenBy_toArray, OrderedEnumerable.orderBy, OrderedEnumerable.new_,
    OrderedEnumerable.from.
  rewrite toArray_undefined, sortValues_pure.
  unfold OrderedEnumerable.thenBy, OrderedEnumerable.orderBy, OrderedEnumerable.new_,
    OrderedEnumerable.from.
  cbn [OrderedEnumerable._originalItems OrderedEnumerable._orderSelector
       OrderedEnumerable._orderComparer].
  rewrite toArray_undefined, sortValues_levels.
  unfold OrderedEnumerable.toArray. cbn [OrderedEnumerable._enumerator].
  rewrite toArray_undefined. f_equal. f_equal.
  rewrite (Array_sort_map
             (fun x => OrderedEnumerable.mkSortValue
                         (OrderedEnumerable.mkLevels (k1 x) (k2 x)) x)
             (fun x y => OrderedEnumerable.toComparerSafe _
                           (OrderedEnumerable.sortBy x) (OrderedEnumerable.sortBy y))).
  rewrite map_map. cbn [OrderedEnumerable.value OrderedEnumerable.sortBy].
  rewrite map_id.
  apply Array_sort_ext. intros x y.
  etransitivity; [ apply @toComparerSafe_positive | reflexivity ].
Qed.
End OrderedFacts.

(** C7.  [orderBy(primarySelector).thenBy(secondarySelector)] sorts the
    original items (the array the primary sort started from) with a composite
    comparer that compares the primary keys and falls through to the
    secondary keys only when the primary keys tie; the result is a
    rearrangement of the original items.  In particular
    [[{a:1,b:2},{a:1,b:1}]], ordered by [a] and then by [b], becomes
    [[{a:1,b:1},{a:1,b:2}]]. *)
Theorem thenBy_resorts_by_composite_comparer :
  (forall (Closure T V O U W : Type) (host : LambdaHost (KeySelector Closure T V) O)
          (ltU : JsLess U) (ltW : JsLess W)
          (k1 : T -> U) (c1 : option (Comparer U))
          (k2 : T -> W) (c2 : option (Comparer W)) (xs : list T) (s : Closure),
     let comparer1 := OrderedEnumerable.toComparerSafe c1 in
     let comparer2 := OrderedEnumerable.toComparerSafe c2 in
     let composite := fun x y =>
       if negb (0 =? comparer1 (k1 x) (k1 y)) then comparer1 (k1 x) (k1 y)
       else comparer2 (k2 x) (k2 y) in
     orderBy_thenBy_toArray (V := V) xs (pure_selector k1) c1 (pure_selector k2) c2 s =
       (Return (Array_sort composite xs), s) /\
     Array_sort composite xs ≡ₚ xs) /\
  fst (orderBy_thenBy_toArray (H := example_host_KeySelector) (Closure := unit) (V := unit)
         [mkAB 1 2; mkAB 1 1] (pure_selector a) None (pure_selector b) None tt) =
    Return [mkAB 1 1; mkAB 1 2].
Proof.
  split.
  - intros. split.
    + apply orderBy_thenBy_toArray_pure.
    + apply Array_sort_Permutation.
  - reflexivity.
Qed.

(** ** The code on concrete inputs *)

Section Examples.

#[local] Existing Instance example_host_Predciate.
#[local] Existing Instance example_host_Aggregator.
#[local] Existing Instance example_host_KeySelector.

(** C2 on the code.  With a key selector, [toArray] calls the selector for
    every item, but the statement [arr[k];] stores nothing: the array returned
    is empty for every key selector and every source, also for
    [from([10, 20]).toArray(key => key)], where the items are expected in the
    slots 0 and 1.  Without a key selector the items are appended in iteration
    order. *)
Theorem toArray_keySelector_drops_items :
  (forall (Closure T V O : Type) (host : LambdaHost (KeySelector Closure T V) O)
          (ks : KeySelector Closure T V) (e : list T) (s : Closure),
     fst (Enumerable.toArray (JsFunction ks) e s) = Return [] /\
     fst (Enumerable.toArray (JsBoolean true) e s) = Return [] /\
     Enumerable.toArray JsUndefined e s = (Return e, s)) /\
  fst (Enumerable.toArray (Closure := unit) (V := unit)
         (JsFunction (fun s key _ ctx => (key, ctx, s))) [10; 20] tt) = Return [].
Proof.
  split.
  - intros. split; [ | split ].
    + apply toArray_keySelector_empty.
    + apply toArray_true_empty.
    + apply toArray_undefined.
  - reflexivity.
Qed.

Example toArray_appends :
  fst (Enumerable.toArray (Closure := unit) (V := unit) JsUndefined [10; 20] tt) =
  Return [10; 20].
Proof. reflexivity. Qed.

(** C1 on the code.  [throwIfReadOnly] throws without looking at
    [isReadonly], so every mutating method that calls it throws
    "Collection is read-only!" on every collection; in particular
    [new List([1]).add(2)] throws although the list is not read-only. *)
Theorem List_add_throws :
  (forall (T : Type) (eq : JsEquals T) (undef : JsUndefinedValue T)
          (c : Collection.Collection T) (item : T) (items : list T) (index : Z),
     Collection.Collection_add c item = Throw "Collection is read-only!" /\
     Collection.push c items = Throw "Collection is read-only!" /\
     Collection.clear c = Throw "Collection is read-only!" /\
     Collection.remove c item = Throw "Collection is read-only!" /\
     Collection.setItem c index item = Throw "Collection is read-only!" /\
     Collection.insert c index item = Throw "Collection is read-only!" /\
     Collection.removeAt c index = Throw "Collection is read-only!") /\
  let list := Collection.new_ Collection.ClassList [1] EcUndefined in
  Collection.isReadonly list = false /\
  Collection.add list 2 = Throw "Collection is read-only!".
Proof.
  split.
  - intros T eq undef c item items i.
    pose proof (mutators_throw c item items i) as Hall.
    repeat (split; [ apply Hall | ]). apply Hall.
  - split; reflexivity.
Qed.

Example HashSet_add_present :
  let set := Collection.new_ Collection.ClassHashSet [1; 1; 2] EcUndefined in
  Collection._arr set = [1; 2] /\
  Collection.add set 1 = Return (Some false, set) /\
  Collection.add set 3 = Throw "Collection is read-only!".
Proof. repeat split. Qed.


(** The cancellation example of the specification: a predicate that cancels
    at index 2 over [[1, 2, 3, 4, 5]]. *)
Example where_cancel_at_index_2 :
  fst (Enumerable.where_ (Closure := unit) (V := unit)
         (JsFunction (cancel_at_index 2)) [1; 2; 3; 4; 5] tt) = Return [1; 2].
Proof. reflexivity. Qed.


(** C5 fails on these inputs.  [from([]).firstOrDefault(0)]: the only
    argument is not callable, yet the default value returned is [undefined],
    not 0.  [from([10, 20]).elementAtOrDefault(1, 99)]: the predicate does not
    accept every item, the item at position 1 is returned, not the first. *)
Lemma orDefault_argument_not_default :
  fst (Enumerable.firstOrDefault (Closure := unit) (T := Z) (V := unit)
         [JsNumber 0] [] tt) = Return (Default JsUndefined) /\
  Enumerable.elementAtOrDefault (V := unit) 1 (JsNumber 99) [10; 20] = Return (Item 20).
Proof. split; reflexivity. Qed.

Example firstOrDefault_99 :
  fst (Enumerable.firstOrDefault (Closure := unit) (T := Z) (V := unit)
         [JsNumber 99] [] tt) = Return (Default (JsNumber 99)).
Proof. reflexivity. Qed.

Lemma orDefault_single_argument_witness :
  let v : JsValue (Predciate unit Z unit) Empty_set := JsNumber 99 in
  (v = JsUndefined \/
   v = JsBoolean false \/
   (Args.truthy v = true /\
    (forall f, v <> JsFunction f) /\
    exists lambda,
      Args.to_string v = Return lambda /\
      lambda_match (F := Predciate unit Z unit) (O := Empty_set) lambda = None)) /\
  Enumerable.toOrDefaultArgs v JsUndefined 1 = Return (mkOrDefaultArgs v accept_all) /\
  fst (Enumerable.firstOrDefault [v] [10; 20] tt) =
    Return (match head [10; 20] with Some x => Item x | None => Default v end) /\
  fst (Enumerable.lastOrDefault [v] [10; 20] tt) =
    Return (match last [10; 20] with Some x => Item x | None => Default v end) /\
  fst (Enumerable.singleOrDefault [v] [10; 20] tt) =
    Throw "Sequence contains more than one matching element!" /\
  fst (Enumerable.firstOrDefault (Closure := unit) (T := Z) (V := unit)
         [JsBoolean false] [] tt) = Return (Default (JsBoolean false)) /\
  fst (Enumerable.firstOrDefault (Closure := unit) (T := Z) (V := unit)
         [JsUndefined] [] tt) = Return (Default JsUndefined).
Proof.
  intros v.
  assert (Hv : v = JsUndefined \/
               v = JsBoolean false \/
               (Args.truthy v = true /\
                (forall f, v <> JsFunction f) /\
                exists lambda,
                  Args.to_string v = Return lambda /\
                  lambda_match (F := Predciate unit Z unit) (O := Empty_set) lambda = None)).
  { right. right. split; [ reflexivity | ]. split; [ discriminate | ].
    eexists. split; reflexivity. }
  split; [ exact Hv | ].
  destruct (orDefault_single_argument (Closure := unit) (T := Z) (V := unit) (V' := unit)
              (O := Empty_set) (O' := Empty_set)) as [Hsingle _].
  destruct (Hsingle v [10; 20] tt Hv) as (Hargs & Hfirst & Hlast & Hone).
  split; [ exact Hargs | ]. split; [ exact Hfirst | ]. split; [ exact Hlast | ].
  split; [ exact Hone | ].
  split.
  - exact (proj1 (proj2 (Hsingle (JsBoolean false) [] tt (or_intror (or_introl eq_refl))))).
  - exact (proj1 (proj2 (Hsingle JsUndefined [] tt (or_introl eq_refl)))).
Defined.

(** C6 on [[5, 6]] *)
Lemma first_eq_elementAt_0_witness :
  [5; 6] <> [] /\
  exists x,
    head [5; 6] = Some x /\
    fst (Enumerable.first (Closure := unit) (V := unit) JsUndefined [5; 6] tt) = Return x /\
    Enumerable.elementAt (V := unit) 0 [5; 6] = Return x.
Proof.
  split; [ discriminate | ].
  apply (first_eq_elementAt_0 (Closure := unit) (V := unit) (V' := unit) [5; 6] tt).
  discriminate.
Defined.

(** C8 fails on this input.  The predicate returns true for both items of
    [[1, 1]] and sets [cancel] on the second one: [single] and
    [singleOrDefault] return the first item and do not throw. *)
Lemma single_cancelled_before_second_match :
  fst (Enumerable.single (Closure := unit) (V := unit)
         (JsFunction (cancel_at_index 1)) [1; 1] tt) = Return 1 /\
  fst (Enumerable.singleOrDefault (Closure := unit) (V := unit)
         [JsFunction (cancel_at_index 1)] [1; 1] tt) = Return (Item 1).
Proof. split; reflexivity. Qed.

Example single_two_matches :
  fst (Enumerable.single (Closure := unit) (V := unit)
         (JsFunction (pure_predicate (fun x => x =? 1))) [1; 2; 1] tt) =
  Throw "Sequence contains more than one matching element!".
Proof. reflexivity. Qed.

Example distinct_numbers :
  Enumerable.distinct EcUndefined [1; 2; 1; 3; 2] = [1; 2; 3].
Proof. reflexivity. Qed.

Example aggregate_sum :
  fst (Enumerable.aggregate (Closure := unit) (V := unit)
         (JsFunction (pure_aggregator Z.add)) 0 [1; 2; 3] tt) = Return 6.
Proof. reflexivity. Qed.

Example orderBy_thenBy_three :
  fst (orderBy_thenBy_toArray (Closure := unit) (V := unit)
         [mkAB 2 1; mkAB 1 2; mkAB 1 1] (pure_selector a) None (pure_selector b) None tt) =
  Return [mkAB 1 1; mkAB 1 2; mkAB 2 1].
Proof. reflexivity. Qed.
End Examples.

(** * Further properties of the sequence methods *)

(** ** [all], [any], [contains] and [count] *)

Section AllAnyFacts.
Context {Closure T V O : Type}.
Context `{LambdaHost (Predciate Closure T V) O}.

Implicit Types (p : Predciate Closure T V) (e : list T) (s : Closure).

Lemma all_loop_ext p p' : same_calls p p' ->
  forall e i pv v s, Operators.all_loop p e i pv v s = Operators.all_loop p' e i pv v s.
Proof.
  intros Hext e. induction e as [ | item e IH ]; intros; simpl; [ reflexivity | ].
  rewrite Hext. destruct (p' _ item _) as [[doesMatch ctx] s'].
  destruct (cancel ctx); [ reflexivity | ]. destruct doesMatch; simpl; [ apply IH | reflexivity ].
Qed.

Lemma any_loop_ext p p' : same_calls p p' ->
  forall e i pv v s, Operators.any_loop p e i pv v s = Operators.any_loop p' e i pv v s.
Proof.
  intros Hext e. induction e as [ | item e IH ]; intros; simpl; [ reflexivity | ].
  rewrite Hext. destruct (p' _ item _) as [[doesMatch ctx] s'].
  destruct (cancel ctx); [ reflexivity | ]. destruct doesMatch; simpl; [ reflexivity | apply IH ].
Qed.

Lemma all_loop_pure (q : T -> bool) e :
  forall i pv v s,
    Operators.all_loop (V := V) (pure_predicate q) e i pv v s = (forallb q e, s).
Proof.
  induction e as [ | item e IH ]; intros; simpl; [ reflexivity | ].
  destruct (q item); simpl; [ apply IH | reflexivity ].
Qed.

Lemma any_loop_pure (q : T -> bool) e :
  forall i pv v s,
    Operators.any_loop (V := V) (pure_predicate q) e i pv v s = (existsb q e, s).
Proof.
  induction e as [ | item e IH ]; intros; simpl; [ reflexivity | ].
  destruct (q item); simpl; [ reflexivity | apply IH ].
Qed.

Lemma count_loop_pure (q : T -> bool) e :
  forall cnt i pv v s,
    Enumerable.count_loop (V := V) (pure_predicate q) e cnt i pv v s =
    (cnt + Z.of_nat (length (List.filter q e)), s).
Proof.
  induction e as [ | item e IH ]; intros; simpl.
  - f_equal. lia.
  - rewrite IH. destruct (q item); simpl; f_equal; lia.
Qed.

Lemma all_pure (q : T -> bool) e s :
  Operators.all (V := V) (JsFunction (pure_predicate q)) e s = (Return (forallb q e), s).
Proof.
  unfold Operators.all.
  destruct (toPredicateSafe_function (pure_predicate (V := V) q)) as (p' & -> & Hp').
  rewrite (all_loop_ext p' _ Hp'), all_loop_pure. reflexivity.
Qed.

Lemma any_pure (q : T -> bool) e s :
  Operators.any (V := V) (JsFunction (pure_predicate q)) e s = (Return (existsb q e), s).
Proof.
  unfold Operators.any.
  destruct (toPredicateSafe_function (pure_predicate (V := V) q)) as (p' & -> & Hp').
  rewrite (any_loop_ext p' _ Hp'), any_loop_pure. reflexivity.
Qed.

Lemma count_pure (q : T -> bool) e s :
  Enumerable.count (V := V) (JsFunction (pure_predicate q)) e s =
  (Return (Z.of_nat (length (List.filter q e))), s).
Proof.
  unfold Enumerable.count.
  destruct (toPredicateSafe_function (pure_predicate (V := V) q)) as (p' & -> & Hp').
  rewrite (count_loop_ext p' _ Hp'), count_loop_pure. reflexivity.
Qed.

Lemma filter_true e : List.filter (fun _ : T => true) e = e.
Proof. induction e as [ | x e IH ]; simpl; congruence. Qed.

Lemma count_undefined e s :
  Enumerable.count (V := V) JsUndefined e s = (Return (Z.of_nat (length e)), s).
Proof.
  unfold Enumerable.count. rewrite toPredicateSafe_undefined.
  change (accept_all (Closure := Closure) (T := T) (V := V))
    with (pure_predicate (Closure := Closure) (V := V) (fun _ : T => true)).
  rewrite count_loop_pure, filter_true. reflexivity.
Qed.

(** X1.  For a predicate that only looks at the item, [all] tells whether
    every item satisfies it and [any] whether some item does, so that
    [all(q)] is the negation of [any(not q)]; on the empty sequence [all] is
    true and [any] is false; and [any()] without a predicate tells whether
    the sequence has an item. *)
Theorem all_any_of_items (q : T -> bool) e s :
  fst (Operators.all (V := V) (JsFunction (pure_predicate q)) e s) = Return (forallb q e) /\
  fst (Operators.any (V := V) (JsFunction (pure_predicate q)) e s) = Return (existsb q e) /\
  fst (Operators.all (V := V) (JsFunction (pure_predicate q)) e s) =
    match fst (Operators.any (V := V)
                 (JsFunction (pure_predicate (fun x => negb (q x)))) e s) with
    | Return r => Return (negb r)
    | Throw m => Throw m
    end /\
  fst (Operators.any (V := V) JsUndefined e s) =
    Return (match e with [] => false | _ :: _ => true end).
Proof.
  rewrite all_pure, !any_pure. simpl. repeat split.
  - f_equal. induction e as [ | x e IH ]; simpl; [ reflexivity | ].
    rewrite IH. destruct (q x), (existsb _ e); reflexivity.
  - destruct e; reflexivity.
Qed.


(** X3.  [count()] is the number of items, which is the length of the array
    [toArray()] returns; [count(q)], for a predicate that only looks at the
    item, is the number of items that satisfy it.  Counting after
    [concat(other)] adds the number of items [makeIterable] yields for
    [other]: the length of [other] when it is an array, and nothing when it is
    another sequence object (an iterator, an [Enumerable], a [List]), whose
    items [concat] does not append. *)
Theorem count_is_length (q : T -> bool) (e arr items : list T) (other : Sequence T) s :
  fst (Enumerable.count (V := V) JsUndefined e s) = Return (Z.of_nat (length e)) /\
  length (Operators.toArray_ e) = length e /\
  fst (Enumerable.count (V := V) (JsFunction (pure_predicate q)) e s) =
    Return (Z.of_nat (length (List.filter q e))) /\
  fst (Enumerable.count (V := V) JsUndefined (Operators.concat other e) s) =
    Return (Z.of_nat (length e) + Z.of_nat (length (makeIterable other))) /\
  Operators.concat (SeqArrayLike arr) e = e ++ arr /\
  fst (Enumerable.count (V := V) JsUndefined (Operators.concat (SeqArrayLike arr) e) s) =
    Return (Z.of_nat (length e) + Z.of_nat (length arr)) /\
  Operators.concat (SeqIterable items) e = e /\
  fst (Enumerable.count (V := V) JsUndefined (Operators.concat (SeqIterable items) e) s) =
    Return (Z.of_nat (length e)).
Proof.
  rewrite !count_undefined, count_pure. unfold Operators.concat, Operators.concatInner.
  cbn [makeIterable fst]. rewrite app_nil_r, !length_app.
  split; [ reflexivity | ]. split.
  { unfold Operators.toArray_. rewrite toArray_loop_push. reflexivity. }
  split; [ reflexivity | ]. split; [ f_equal; lia | ]. split; [ reflexivity | ].
  split; [ f_equal; lia | ]. split; reflexivity.
Qed.
End AllAnyFacts.

(** ** [distinct], [union], [except], [intersect] and [contains] *)

Section SetFacts.
Context {T : Type} `{JsEquals T}.

Implicit Types (ec : EqualityComparer T) (e other temp : list T).

(** What the loop of [distinct] yields is new with respect to the buffer,
    and every yielded item is new with respect to the items yielded before. *)
Lemma distinctInner_loop_new ec e :
  forall temp,
    let yielded := Enumerable.distinctInner_loop ec e temp in
    (forall y t, In y yielded -> In t temp -> ec y t = false) /\
    (forall i j x y,
       (i < j)%nat -> yielded !! i = Some x -> yielded !! j = Some y -> ec y x = false).
Proof.
  induction e as [ | item e IH ]; intros temp; simpl.
  - split; [ intros y t [] | intros i j x y _ Hx; discriminate ].
  - destruct (existsb _ temp) eqn:Hitem; simpl; [ apply IH | ].
    destruct (IH (temp ++ [item])) as [Htemp Hpair]. split.
    + intros y t [ Hy | Hy ] Ht.
      * subst y. destruct (ec item t) eqn:Hyt; [ | reflexivity ].
        assert (existsb (fun existingItem => ec item existingItem) temp = true) as Hex
          by (apply existsb_exists; eauto).
        congruence.
      * apply (Htemp y t Hy). apply in_or_app. left. exact Ht.
    + intros i j x y Hij Hx Hy. destruct j as [ | j ]; [ lia | ].
      destruct i as [ | i ]; simpl in Hx, Hy.
      * injection Hx as <-. apply (Htemp y item).
        -- apply list_elem_of_In, list_elem_of_lookup. eauto.
        -- apply in_or_app. right. left. reflexivity.
      * apply (Hpair i j x y); [ lia | assumption | assumption ].
Qed.

(** Every item of the source is yielded, or is equal to an item of the
    buffer or to a yielded item. *)
Lemma distinctInner_loop_covers ec e :
  forall temp x,
    In x e ->
    let yielded := Enumerable.distinctInner_loop ec e temp in
    In x yielded \/ exists y, In y (temp ++ yielded) /\ ec x y = true.
Proof.
  induction e as [ | item e IH ]; intros temp x Hx; simpl in *; [ contradiction | ].
  destruct Hx as [ <- | Hx ].
  - destruct (existsb _ temp) eqn:Hitem; simpl.
    + right. apply existsb_exists in Hitem as (y & Hy & Hxy).
      exists y. split; [ apply in_or_app; left; exact Hy | exact Hxy ].
    + left. left. reflexivity.
  - destruct (existsb _ temp) eqn:Hitem; simpl.
    + apply IH, Hx.
    + destruct (IH (temp ++ [item]) x Hx) as [ Hin | (y & Hy & Hxy) ].
      * left. right. exact Hin.
      * right. exists y. split; [ | exact Hxy ].
        rewrite <- app_assoc in Hy. exact Hy.
Qed.

(** With a comparer that decides equality nothing is lost: the yielded items
    and the buffer together hold every item of the source. *)
Lemma distinct_same_items (comparer : EqualityComparerArg T) e :
  decides_equality (Enumerable.toEqualityComparerSafe comparer) ->
  forall x, In x (Enumerable.distinct comparer e) <-> In x e.
Proof.
  intros Hec x. rewrite distinct_unfold. split.
  - intros Hx. apply list_elem_of_In.
    eapply elem_of_sublist; [ apply list_elem_of_In; exact Hx | ].
    apply distinctInner_loop_sublist.
  - intros Hx.
    destruct (distinctInner_loop_covers (Enumerable.toEqualityComparerSafe comparer)
                e [] x Hx) as [ Hin | (y & Hy & Hxy) ].
    + exact Hin.
    + apply Hec in Hxy. subst y. exact Hy.
Qed.

(** X4.  [union(other, comparer)] is [distinct(comparer)] after
    [concat(other)]: its result is a subsequence of the items of the sequence
    followed by the items [makeIterable] yields for [other] (the items of an
    array; nothing for another sequence object, so that the union with an
    [Enumerable] is the [distinct] of the sequence alone).  The result holds
    no item twice: no item of it is comparer-equal to an item before it; and
    nothing of these items is lost: each of them is in the result or is
    comparer-equal to an item of the result. *)
Theorem union_holds_every_item_once (comparer : EqualityComparerArg T) e
    (other : Sequence T) (items : list T) :
  let ec := Enumerable.toEqualityComparerSafe comparer in
  let result := Operators.union other comparer e in
  result = Enumerable.distinct comparer (e ++ makeIterable other) /\
  sublist result (e ++ makeIterable other) /\
  (forall i j x y,
     (i < j)%nat -> result !! i = Some x -> result !! j = Some y -> ec y x = false) /\
  (forall x, In x e \/ In x (makeIterable other) ->
             In x result \/ exists y, In y result /\ ec x y = true) /\
  Operators.union (SeqIterable items) comparer e = Enumerable.distinct comparer e.
Proof.
  intros ec result. subst result. unfold Operators.union, Operators.concat,
    Operators.concatInner.
  split; [ reflexivity | ]. cbn [makeIterable]. rewrite app_nil_r.
  rewrite distinct_unfold. split; [ | split; [ | split ] ].
  - apply distinctInner_loop_sublist.
  - apply (distinctInner_loop_new ec (e ++ makeIterable other) []).
  - intros x Hx. apply (distinctInner_loop_covers ec (e ++ makeIterable other) [] x).
    apply in_or_app. exact Hx.
  - reflexivity.
Qed.

Lemma exceptInner_filter (itemsToExcept : list T) ec e :
  Operators.exceptInner itemsToExcept ec e =
  List.filter (fun item => negb (existsb (fun x => ec item x) itemsToExcept)) e.
Proof.
  induction e as [ | item e IH ]; simpl; [ reflexivity | ].
  rewrite IH. destruct (existsb _ itemsToExcept); reflexivity.
Qed.

Lemma toArray__items e : Operators.toArray_ e = e.
Proof. unfold Operators.toArray_. rewrite toArray_loop_push. reflexivity. Qed.

(** X5.  [except(other, comparer)] keeps, in source order, the items that
    the comparer finds equal to none of the items to except, which are the
    items [makeIterable] yields for [other] (the items of an array; nothing
    for another sequence object) made distinct with the default comparer.
    When the default comparer decides equality, the items kept are the
    items comparer-equal to no item of the array; with an [Enumerable] as
    [other] every item is kept. *)
Theorem except_keeps_the_unmatched (comparer : EqualityComparerArg T) e
    (other : Sequence T) (arr items : list T) :
  let ec := Enumerable.toEqualityComparerSafe comparer in
  Operators.except other comparer e =
    List.filter
      (fun item =>
         negb (existsb (fun x => ec item x)
                 (Enumerable.distinct EcUndefined (makeIterable other))))
      e /\
  (decides_equality (Enumerable.toEqualityComparerSafe (T := T) EcUndefined) ->
   forall x, In x (Operators.except (SeqArrayLike arr) comparer e) <->
             In x e /\ forall y, In y arr -> ec x y = false) /\
  Operators.except (SeqIterable items) comparer e = e.
Proof.
  intros ec.
  assert (Hfilter : forall o,
            Operators.except o comparer e =
            List.filter
              (fun item =>
                 negb (existsb (fun x => ec item x)
                         (Enumerable.distinct EcUndefined (makeIterable o))))
              e).
  { intros o. unfold Operators.except. rewrite toArray__items, exceptInner_filter.
    reflexivity. }
  split; [ apply Hfilter | ]. split.
  - intros Hdefault x. rewrite Hfilter. cbn [makeIterable].
    rewrite filter_In, negb_true_iff. split.
    + intros [Hx Hnone]. split; [ exact Hx | ]. intros y Hy.
      destruct (ec x y) eqn:Hxy; [ | reflexivity ].
      assert (existsb (fun x0 => ec x x0) (Enumerable.distinct EcUndefined arr) = true)
        as Hex.
      { apply existsb_exists. exists y. split; [ | exact Hxy ].
        apply (distinct_same_items EcUndefined arr Hdefault). exact Hy. }
      unfold ec in *. congruence.
    + intros [Hx Hnone]. split; [ exact Hx | ].
      destruct (existsb _ _) eqn:Hex; [ | reflexivity ].
      apply existsb_exists in Hex as (y & Hy & Hxy).
      apply (distinct_same_items EcUndefined arr Hdefault) in Hy.
      specialize (Hnone y Hy). unfold ec in *. congruence.
  - rewrite Hfilter. cbn [makeIterable]. unfold Enumerable.distinct, Enumerable.distinctInner.
    cbn [Enumerable.distinctInner_loop existsb negb]. apply filter_true.
Qed.

Lemma splice_first_match_Some ec item o o' :
  Operators.splice_first_match ec item o = Some o' ->
  length o = S (length o') /\ sublist o' o /\ exists y, In y o /\ ec item y = true.
Proof.
  revert o'. induction o as [ | otherItem o IH ]; intros o'; simpl; [ discriminate | ].
  destruct (ec item otherItem) eqn:Hmatch.
  - intros [= <-]. split; [ reflexivity | ]. split; [ apply sublist_cons; reflexivity | ].
    exists otherItem. split; [ left; reflexivity | exact Hmatch ].
  - destruct (Operators.splice_first_match ec item o) as [ o1 | ]; [ | discriminate ].
    intros [= <-]. destruct (IH o1 eq_refl) as (Hlen & Hsub & y & Hy & Hxy).
    split; [ simpl; lia | ]. split; [ apply sublist_skip, Hsub | ].
    exists y. split; [ right; exact Hy | exact Hxy ].
Qed.

Lemma intersectInner_loop_facts ec e :
  forall o,
    let yielded := Operators.intersectInner_loop ec e o in
    sublist yielded e /\
    (length yielded <= length o)%nat /\
    (forall x, In x yielded -> exists y, In y o /\ ec x y = true).
Proof.
  induction e as [ | item e IH ]; intros o; simpl.
  - split; [ constructor | ]. split; [ lia | intros x [] ].
  - destruct (Operators.splice_first_match ec item o) as [ o' | ] eqn:Hsplice.
    + destruct (splice_first_match_Some _ _ _ _ Hsplice) as (Hlen & Hsub & y & Hy & Hxy).
      destruct (IH o') as (IHsub & IHlen & IHmatch).
      split; [ apply sublist_skip, IHsub | ]. split; [ simpl; lia | ].
      intros x [ <- | Hx ]; [ eauto | ].
      destruct (IHmatch x Hx) as (z & Hz & Hxz). exists z. split; [ | exact Hxz ].
      apply list_elem_of_In. eapply elem_of_sublist; [ apply list_elem_of_In, Hz | exact Hsub ].
    + destruct (IH o) as (IHsub & IHlen & IHmatch).
      split; [ apply sublist_cons, IHsub | ]. split; assumption.
Qed.

Lemma splice_first_match_first ec (item y : T) (before after : list T) :
  Forall (fun z => ec item z = false) before ->
  ec item y = true ->
  Operators.splice_first_match ec item (before ++ y :: after) = Some (before ++ after).
Proof.
  intros Hbefore Hy. induction Hbefore as [ | z before Hz _ IH ]; simpl.
  - rewrite Hy. reflexivity.
  - rewrite Hz, IH. reflexivity.
Qed.

Lemma splice_first_match_none ec (item : T) (o : list T) :
  Forall (fun z => ec item z = false) o ->
  Operators.splice_first_match ec item o = None.
Proof.
  intros Ho. induction Ho as [ | z o Hz _ IH ]; simpl; [ reflexivity | ].
  rewrite Hz, IH. reflexivity.
Qed.

(** With a comparer that decides equality, the item is taken out of the
    array once, and only if it is there. *)
Lemma splice_first_match_equality ec (item : T) (o : list T) :
  decides_equality ec ->
  match Operators.splice_first_match ec item o with
  | Some o' =>
      In item o /\
      (forall x, In x o' -> In x o) /\
      (forall x, x <> item -> In x o -> In x o')
  | None => ~ In item o
  end.
Proof.
  intros Hec. induction o as [ | y o IH ]; simpl; [ tauto | ].
  destruct (ec item y) eqn:Hy.
  - apply Hec in Hy. subst y. split; [ left; reflexivity | ].
    split; [ intros x Hx; right; exact Hx | ].
    intros x Hne [ Hx | Hx ]; [ congruence | exact Hx ].
  - assert (item <> y) as Hne by (intros ->; rewrite (proj2 (Hec y y) eq_refl) in Hy;
                                   discriminate).
    destruct (Operators.splice_first_match ec item o) as [ o' | ].
    + destruct IH as (Hin & Hback & Hkeep). split; [ right; exact Hin | ].
      split.
      * intros x [ Hx | Hx ]; [ left; exact Hx | right; apply Hback, Hx ].
      * intros x Hx [ Hxy | Hxo ]; [ left; exact Hxy | right; apply Hkeep; assumption ].
    + intros [ Heq | Hin ]; [ congruence | contradiction ].
Qed.

Lemma intersectInner_loop_In ec e :
  decides_equality ec ->
  forall o x, In x (Operators.intersectInner_loop ec e o) <-> In x e /\ In x o.
Proof.
  intros Hec. induction e as [ | item e IH ]; intros o x; simpl; [ tauto | ].
  pose proof (splice_first_match_equality ec item o Hec) as Hsplice.
  destruct (Operators.splice_first_match ec item o) as [ o' | ].
  - destruct Hsplice as (Hin & Hback & Hkeep). simpl. rewrite IH. split.
    + intros [ <- | [Hx Hxo] ]; [ split; [ left; reflexivity | exact Hin ] | ].
      split; [ right; exact Hx | apply Hback, Hxo ].
    + intros [[ <- | Hx ] Hxo]; [ left; reflexivity | ].
      destruct (ec item x) eqn:Hix.
      * apply Hec in Hix. left. exact Hix.
      * right. split; [ exact Hx | ]. apply Hkeep; [ | exact Hxo ].
        intros ->. rewrite (proj2 (Hec item item) eq_refl) in Hix. discriminate.
  - rewrite IH. split.
    + intros [Hx Hxo]. split; [ right; exact Hx | exact Hxo ].
    + intros [[ <- | Hx ] Hxo]; [ contradiction | split; assumption ].
Qed.

(** X6.  [intersect(other, comparer)] goes through the source with the items
    [makeIterable] yields for [other] (the items of an array; nothing for
    another sequence object), made distinct with the default comparer.  A
    source item is yielded exactly when one of the items still at hand is
    comparer-equal to it, and the first such item is then used up: it is not
    at hand for the later source items.  So the result is a subsequence of
    the source with at most as many items as [other] has, each of them
    comparer-equal to an item of [other]; with comparers that decide
    equality its items are the items the source and the array share; and
    with an [Enumerable] as [other] it is empty. *)
Theorem intersect_uses_up_the_matches (comparer : EqualityComparerArg T) e
    (other : Sequence T) (item : T) (o arr items : list T) :
  let ec := Enumerable.toEqualityComparerSafe comparer in
  let result := Operators.intersect other comparer e in
  result =
    Operators.intersectInner (Enumerable.distinct EcUndefined (makeIterable other)) ec e /\
  Operators.intersectInner o ec [] = [] /\
  (forall before y after,
     Forall (fun z => ec item z = false) before ->
     ec item y = true ->
     Operators.intersectInner (before ++ y :: after) ec (item :: e) =
     item :: Operators.intersectInner (before ++ after) ec e) /\
  (Forall (fun z => ec item z = false) o ->
   Operators.intersectInner o ec (item :: e) = Operators.intersectInner o ec e) /\
  sublist result e /\
  (length result <= length (makeIterable other))%nat /\
  (forall x, In x result -> exists y, In y (makeIterable other) /\ ec x y = true) /\
  (decides_equality (Enumerable.toEqualityComparerSafe (T := T) EcUndefined) ->
   decides_equality ec ->
   forall x, In x (Operators.intersect (SeqArrayLike arr) comparer e) <->
             In x e /\ In x arr) /\
  Operators.intersect (SeqIterable items) comparer e = [].
Proof.
  intros ec result. subst result. unfold Operators.intersect, Operators.intersectInner.
  split; [ reflexivity | ]. split; [ reflexivity | ]. split; [ | split ].
  - intros before y after Hbefore Hy. simpl.
    rewrite (splice_first_match_first ec item y before after Hbefore Hy). reflexivity.
  - intros Ho. simpl. rewrite (splice_first_match_none ec item o Ho). reflexivity.
  - destruct (intersectInner_loop_facts ec e
                (Enumerable.distinct EcUndefined (makeIterable other)))
      as (Hsub & Hlen & Hmatch).
    assert (Hd : sublist (Enumerable.distinct EcUndefined (makeIterable other))
                   (makeIterable other))
      by (rewrite distinct_unfold; apply distinctInner_loop_sublist).
    unfold ec in *. split; [ exact Hsub | ]. split; [ | split; [ | split ] ].
    + pose proof (sublist_length _ _ Hd). lia.
    + intros x Hx. destruct (Hmatch x Hx) as (y & Hy & Hxy). exists y.
      split; [ | exact Hxy ].
      apply list_elem_of_In. eapply elem_of_sublist; [ apply list_elem_of_In, Hy | exact Hd ].
    + intros Hdefault Hec x. cbn [makeIterable].
      rewrite (intersectInner_loop_In _ e Hec).
      rewrite (distinct_same_items EcUndefined arr Hdefault). reflexivity.
    + cbn [makeIterable]. clear. induction e as [ | x e IH ]; simpl; [ reflexivity | ].
      exact IH.
Qed.
End SetFacts.

(** ** [skip], [take], [skipWhile], [takeWhile] and [skipLast] *)

Section SkipTakeFacts.
Context {Closure T V O : Type}.
Context `{LambdaHost (Predciate Closure T V) O}.

Implicit Types (p : Predciate Closure T V) (e : list T) (s : Closure).

Lemma skipWhileInner_loop_ext p p' : same_calls p p' ->
  forall e skipItems i pv v s,
    Operators.skipWhileInner_loop p e skipItems i pv v s =
    Operators.skipWhileInner_loop p' e skipItems i pv v s.
Proof.
  intros Hext e. induction e as [ | item e IH ]; intros; simpl; [ reflexivity | ].
  rewrite Hext.
  destruct (if skipItems then p' s item _ else _) as [[skip ctx] s'].
  rewrite IH. reflexivity.
Qed.

Lemma takeWhileInner_loop_ext p p' : same_calls p p' ->
  forall e alwaysMatches i pv v s,
    Operators.takeWhileInner_loop p e alwaysMatches i pv v s =
    Operators.takeWhileInner_loop p' e alwaysMatches i pv v s.
Proof.
  intros Hext e. induction e as [ | item e IH ]; intros; simpl; [ reflexivity | ].
  rewrite Hext. destruct (p' s item _) as [[r ctx] s'].
  rewrite IH. reflexivity.
Qed.

(** Once the skipping is over, every item is yielded and the predicate is
    not called any more. *)
Lemma skipWhileInner_loop_yielding p e :
  forall i pv v s, Operators.skipWhileInner_loop p e false i pv v s = (e, s).
Proof.
  induction e as [ | item e IH ]; intros; simpl; [ reflexivity | ].
  rewrite IH. reflexivity.
Qed.

Lemma takeWhile_skipWhile_pure (q : T -> bool) e :
  forall i pv v s,
    let taken := fst (Operators.takeWhileInner_loop (V := V) (pure_predicate q) e false
                        i pv v s) in
    let rest := fst (Operators.skipWhileInner_loop (V := V) (pure_predicate q) e true
                       i pv v s) in
    taken ++ rest = e /\
    forallb q taken = true /\
    match rest with
    | [] => True
    | x :: _ => q x = false
    end.
Proof.
  induction e as [ | item e IH ]; intros i pv v s; simpl; [ repeat split | ].
  destruct (q item) eqn:Hq; simpl.
  - specialize (IH (i + 1) None v s). simpl in IH.
    destruct (Operators.takeWhileInner_loop _ e _ _ _ _ _) as [taken s1].
    destruct (Operators.skipWhileInner_loop _ e _ _ _ _ _) as [rest s2].
    simpl in *. destruct IH as (Happ & Hall & Hrest).
    split; [ f_equal; exact Happ | ]. split; [ | exact Hrest ].
    rewrite Hq, Hall. reflexivity.
  - rewrite skipWhileInner_loop_yielding. simpl. repeat split. exact Hq.
Qed.

(** X7.  For a predicate that only looks at the item, [takeWhile] yields the
    longest run of leading items that satisfy it and [skipWhile] yields the
    rest: together they give back the sequence, every item taken satisfies
    the predicate, and the first item [skipWhile] yields, if there is one,
    does not. *)
Theorem takeWhile_skipWhile_split (q : T -> bool) e s :
  exists taken rest,
    fst (Operators.takeWhile (V := V) (JsFunction (pure_predicate q)) e s) = Return taken /\
    fst (Operators.skipWhile (V := V) (JsFunction (pure_predicate q)) e s) = Return rest /\
    taken ++ rest = e /\
    forallb q taken = true /\
    match rest with
    | [] => True
    | x :: _ => q x = false
    end.
Proof.
  unfold Operators.takeWhile, Operators.skipWhile,
    Operators.takeWhileInner, Operators.skipWhileInner.
  destruct (toPredicateSafe_function (pure_predicate (V := V) q)) as (p' & -> & Hp').
  rewrite (takeWhileInner_loop_ext p' _ Hp'), (skipWhileInner_loop_ext p' _ Hp').
  pose proof (takeWhile_skipWhile_pure q e (-1) None None s) as Hsplit. simpl in Hsplit.
  destruct (Operators.takeWhileInner_loop _ e _ _ _ _ _) as [taken s1].
  destruct (Operators.skipWhileInner_loop _ e _ _ _ _ _) as [rest s2].
  exists taken, rest. simpl in *. repeat split; apply Hsplit.
Qed.
End SkipTakeFacts.

Section SkipTakeCountFacts.
Context {T O : Type}.
Context `{LambdaHost (Predciate unit T unit) O}.

Implicit Types (e : list T).

Lemma skip_loop (cnt : Z) e :
  forall i pv v s,
    -1 <= i ->
    fst (Operators.skipWhileInner_loop (Closure := unit) (V := unit)
           (fun s _ ctx => (index ctx <? cnt, ctx, s)) e true i pv v s) =
    drop (Z.to_nat (cnt - (i + 1))) e.
Proof.
  induction e as [ | item e IH ]; intros i pv v s Hi; simpl.
  - rewrite drop_nil. reflexivity.
  - destruct (Z.ltb_spec (i + 1) cnt) as [ Hlt | Hge ]; simpl.
    + specialize (IH (i + 1) None v s ltac:(lia)).
      destruct (Operators.skipWhileInner_loop _ e _ _ _ _ _) as [yielded s'].
      simpl in *. rewrite IH.
      replace (Z.to_nat (cnt - (i + 1))) with (S (Z.to_nat (cnt - (i + 1 + 1)))) by lia.
      reflexivity.
    + rewrite skipWhileInner_loop_yielding. simpl.
      replace (Z.to_nat (cnt - (i + 1))) with 0%nat by lia. reflexivity.
Qed.

Lemma take_loop (cnt : Z) e :
  forall i pv v s,
    -1 <= i ->
    fst (Operators.takeWhileInner_loop (Closure := unit) (V := unit)
           (fun s _ ctx => (index ctx <? cnt, ctx, s)) e false i pv v s) =
    firstn (Z.to_nat (cnt - (i + 1))) e.
Proof.
  induction e as [ | item e IH ]; intros i pv v s Hi; simpl.
  - rewrite firstn_nil. reflexivity.
  - destruct (Z.ltb_spec (i + 1) cnt) as [ Hlt | Hge ]; simpl.
    + specialize (IH (i + 1) None v s ltac:(lia)).
      destruct (Operators.takeWhileInner_loop _ e _ _ _ _ _) as [yielded s'].
      simpl in *. rewrite IH.
      replace (Z.to_nat (cnt - (i + 1))) with (S (Z.to_nat (cnt - (i + 1 + 1)))) by lia.
      reflexivity.
    + replace (Z.to_nat (cnt - (i + 1))) with 0%nat by lia. reflexivity.
Qed.

Lemma skip_drop (cnt : Z) e : Operators.skip cnt e = Return (drop (Z.to_nat cnt) e).
Proof.
  unfold Operators.skip, Operators.skipWhile, Operators.skipWhileInner.
  match goal with
  | |- context [ Enumerable.toPredicateSafe (JsFunction ?f) ] =>
      destruct (toPredicateSafe_function f) as (p' & Hsafe & Hp')
  end.
  rewrite Hsafe, (skipWhileInner_loop_ext p' _ Hp').
  pose proof (skip_loop cnt e (-1) None None tt ltac:(lia)) as Hskip.
  destruct (Operators.skipWhileInner_loop _ e _ _ _ _ _) as [skipped s1].
  simpl in *. replace (cnt - (-1 + 1)) with cnt in * by lia. subst. reflexivity.
Qed.

Lemma take_firstn (cnt : Z) e : Operators.take cnt e = Return (firstn (Z.to_nat cnt) e).
Proof.
  unfold Operators.take, Operators.takeWhile, Operators.takeWhileInner.
  match goal with
  | |- context [ Enumerable.toPredicateSafe (JsFunction ?f) ] =>
      destruct (toPredicateSafe_function f) as (p' & Hsafe & Hp')
  end.
  rewrite Hsafe, (takeWhileInner_loop_ext p' _ Hp').
  pose proof (take_loop cnt e (-1) None None tt ltac:(lia)) as Htake.
  destruct (Operators.takeWhileInner_loop _ e _ _ _ _ _) as [taken s2].
  simpl in *. replace (cnt - (-1 + 1)) with cnt in * by lia. subst. reflexivity.
Qed.

(** X8.  [skip(cnt)] drops the first [cnt] items and [take(cnt)] keeps them
    (all of them when the sequence is shorter, none when [cnt] is zero or
    negative), so that the items [take(cnt)] yields followed by the items
    [skip(cnt)] yields are the sequence. *)
Theorem skip_take_split (cnt : Z) e :
  Operators.skip cnt e = Return (drop (Z.to_nat cnt) e) /\
  Operators.take cnt e = Return (firstn (Z.to_nat cnt) e) /\
  firstn (Z.to_nat cnt) e ++ drop (Z.to_nat cnt) e = e.
Proof.
  rewrite skip_drop, take_firstn. repeat split. apply firstn_skipn.
Qed.

Lemma skipLastInner_loop_held e :
  forall held : T, Operators.skipLastInner_loop e (Some held) = removelast (held :: e).
Proof.
  induction e as [ | current e IH ]; intros held; simpl; [ reflexivity | ].
  rewrite IH. reflexivity.
Qed.

(** X9.  [skipLast()] yields every item but the last one, in order: the
    empty sequence stays empty, and a sequence that ends with [x] loses
    exactly [x]. *)
Theorem skipLast_drops_the_last_item e (x : T) :
  Operators.skipLast (@nil T) = [] /\
  Operators.skipLast (e ++ [x]) = e /\
  Operators.skipLast e = removelast e /\
  length (Operators.skipLast e) = pred (length e).
Proof.
  assert (Hremove : forall l : list T, Operators.skipLast l = removelast l).
  { intros [ | y l ]; [ reflexivity | ]. unfold Operators.skipLast. simpl.
    apply skipLastInner_loop_held. }
  split; [ reflexivity | ]. rewrite !Hremove. split; [ | split ].
  - apply removelast_last.
  - reflexivity.
  - destruct e as [ | y l ] using rev_ind; [ reflexivity | ].
    rewrite removelast_last, length_app. simpl. lia.
Qed.
End SkipTakeCountFacts.

(** ** [select], [selectMany] and [zip] *)

Section ProjectionLoops.
Context {Closure T V : Type}.

Implicit Types (e : list T) (s : Closure).

Lemma selectInner_loop_pure {U} (f : T -> U) e :
  forall i pv v s,
    Operators.selectInner_loop (V := V)
      (OrderedEnumerable.toSelectorSafe (pure_selector f)) e i pv v s = (map f e, s).
Proof.
  induction e as [ | item e IH ]; intros; simpl; [ reflexivity | ].
  simpl in IH. rewrite IH. reflexivity.
Qed.

Lemma selectInner_loop_length {U} (selector : Selector Closure T V U) e :
  forall i pv v s,
    (length (fst (Operators.selectInner_loop selector e i pv v s)) <= length e)%nat.
Proof.
  induction e as [ | item e IH ]; intros; simpl; [ lia | ].
  destruct (selector s item _) as [[newItem ctx] s'].
  destruct (cancel ctx); simpl; [ lia | ].
  specialize (IH (i + 1) (nextValue ctx) (ItemContext.value ctx) s').
  destruct (Operators.selectInner_loop selector e _ _ _ _) as [yielded s'']. simpl in *. lia.
Qed.

Lemma selectManyInner_loop_pure {U} (f : T -> Sequence U) e :
  forall i pv v s,
    Operators.selectManyInner_loop (V := V)
      (Operators.toManySelectorSafe (pure_many_selector f)) e i pv v s =
    (List.concat (map (fun x => makeIterable (f x)) e), s).
Proof.
  induction e as [ | item e IH ]; intros; simpl; [ reflexivity | ].
  simpl in IH. rewrite IH. reflexivity.
Qed.

Lemma zipInner_loop_pure {U} (z : T -> T -> U) e :
  forall other i pv1 pv2 v1 v2 s,
    Operators.zipInner_loop (V := V) (Operators.toZipperSafe (pure_zipper z)) e other
      i pv1 pv2 v1 v2 s =
    (zip_with z e other, s).
Proof.
  induction e as [ | x e IH ]; intros [ | y other ]; intros; simpl; try reflexivity.
  simpl in IH. rewrite IH. reflexivity.
Qed.

(** The index the callback sees counts the items from 0. *)
Lemma selectInner_loop_indexed e :
  forall i pv v s,
    fst (Operators.selectInner_loop (V := V)
           (OrderedEnumerable.toSelectorSafe indexed_selector) e i pv v s) =
    imap (fun k x => (i + 1 + Z.of_nat k, x)) e.
Proof.
  induction e as [ | item e IH ]; intros; simpl; [ reflexivity | ].
  specialize (IH (i + 1) None v s).
  destruct (Operators.selectInner_loop _ e _ _ _ _) as [yielded s']. simpl in *.
  f_equal; [ f_equal; lia | ]. rewrite IH. apply imap_ext. intros k x _. simpl.
  f_equal. lia.
Qed.
End ProjectionLoops.

Section ProjectionFacts.
Context {Closure T V : Type}.

Implicit Types (e : list T) (s : Closure).

(** X10.  [select] with a selector that only looks at the item yields the
    image of every item, in order: as many items as the source has, and two
    such [select]s in a row are one [select] with the composed selector.
    Whatever the selector does, [select] never yields more items than the
    source has. *)
Theorem select_maps_every_item {U W} (f : T -> U) (g : U -> W)
    (selector : Selector Closure T V U) e s :
  fst (Operators.select (V := V) (pure_selector f) e s) = map f e /\
  length (fst (Operators.select (V := V) (pure_selector f) e s)) = length e /\
  fst (Operators.select (V := V) (pure_selector g)
         (fst (Operators.select (V := V) (pure_selector f) e s)) s) =
    fst (Operators.select (V := V) (pure_selector (fun x => g (f x))) e s) /\
  (length (fst (Operators.select selector e s)) <= length e)%nat.
Proof.
  unfold Operators.select. rewrite !selectInner_loop_pure. simpl.
  rewrite length_map, map_map. repeat split. apply selectInner_loop_length.
Qed.

(** X11.  [selectMany] with a selector that only looks at the item yields,
    in source order, what [makeIterable] yields for the selected values one
    after the other: the items of a selected array, and nothing for a
    selected value that is another sequence object (an iterator, an
    [Enumerable], a [List]), as for an empty array.  Selecting one-item
    arrays is [select]. *)
Theorem selectMany_flattens {U} (f : T -> Sequence U) (g : T -> U) (arrays lists : T -> list U)
    e s :
  fst (Operators.selectMany (V := V) (pure_many_selector f) e s) =
    List.concat (map (fun x => makeIterable (f x)) e) /\
  fst (Operators.selectMany (V := V) (pure_many_selector (fun x => SeqArrayLike (arrays x)))
         e s) = List.concat (map arrays e) /\
  length (fst (Operators.selectMany (V := V)
                 (pure_many_selector (fun x => SeqArrayLike (arrays x))) e s)) =
    list_sum (map (fun x => length (arrays x)) e) /\
  fst (Operators.selectMany (V := V) (pure_many_selector (fun x => SeqArrayLike [g x])) e s) =
    fst (Operators.select (V := V) (pure_selector g) e s) /\
  fst (Operators.selectMany (V := V) (pure_many_selector (fun x => SeqIterable (lists x)))
         e s) = [].
Proof.
  unfold Operators.selectMany, Operators.select.
  rewrite !selectManyInner_loop_pure, selectInner_loop_pure. cbn [fst makeIterable].
  split; [ reflexivity | ]. split; [ reflexivity | ]. split; [ | split ].
  - induction e as [ | x e IH ]; simpl; [ reflexivity | ].
    rewrite length_app, IH. reflexivity.
  - induction e as [ | x e IH ]; simpl; congruence.
  - induction e as [ | x e IH ]; simpl; congruence.
Qed.

(** X12.  [zip] with a zipper that only looks at the two items pairs the
    items of the sequence, position by position, with the items
    [makeIterable] yields for [other], and stops with the shorter of the two.
    With an array as [other] the result has the length of the shorter side
    and its item at a position is the zipper applied to the two items there;
    with another sequence object (an iterator, an [Enumerable], a [List]) as
    [other] the result is empty. *)
Theorem zip_pairs_up_to_the_shorter {U} (z : T -> T -> U) e (other : Sequence T)
    (arr items : list T) s :
  fst (Operators.zip (V := V) other (pure_zipper z) e s) =
    zip_with z e (makeIterable other) /\
  (let zipped := fst (Operators.zip (V := V) (SeqArrayLike arr) (pure_zipper z) e s) in
   zipped = zip_with z e arr /\
   length zipped = Nat.min (length e) (length arr) /\
   (forall i, zipped !! i =
              match e !! i, arr !! i with
              | Some x, Some y => Some (z x y)
              | _, _ => None
              end)) /\
  fst (Operators.zip (V := V) (SeqIterable items) (pure_zipper z) e s) = [].
Proof.
  unfold Operators.zip. rewrite !zipInner_loop_pure. cbn [fst makeIterable].
  split; [ reflexivity | ]. split.
  - split; [ reflexivity | ]. split; [ apply length_zip_with | ].
    intros i. rewrite lookup_zip_with.
    destruct (e !! i); simpl; [ | reflexivity ]. destruct (arr !! i); reflexivity.
  - destruct e; reflexivity.
Qed.
End ProjectionFacts.

Section ContextFacts.
Context {Closure T : Type}.

Implicit Types (e : list T) (s : Closure).

(** What a callback stores in [nextValue] is the [previousValue] of the next
    call. *)
Lemma selectInner_loop_hand_on e :
  forall i pv v s,
    fst (Operators.selectInner_loop
           (OrderedEnumerable.toSelectorSafe hand_on_selector) e i pv v s) =
    firstn (length e) (pv :: map Some e).
Proof.
  induction e as [ | item e IH ]; intros; simpl; [ reflexivity | ].
  specialize (IH (i + 1) (Some item) v s).
  destruct (Operators.selectInner_loop _ e _ _ _ _) as [yielded s']. simpl in *.
  rewrite IH. reflexivity.
Qed.

(** What a callback stores in [value] stays there for the later calls. *)
Lemma selectInner_loop_keeps_value (selector : Selector Closure T T (option T)) e :
  (forall s x ctx, index ctx <> 0 -> selector s x ctx = (value ctx, ctx, s)) ->
  forall i pv (v : option T) s,
    0 <= i ->
    fst (Operators.selectInner_loop selector e i pv v s) = map (fun _ => v) e.
Proof.
  intros Hsel. induction e as [ | item e IH ]; intros i pv v s Hi;
    cbn [Operators.selectInner_loop map]; [ reflexivity | ].
  rewrite Hsel by (simpl; lia). cbn.
  specialize (IH (i + 1) None v s ltac:(lia)).
  destruct (Operators.selectInner_loop _ e _ _ _ _) as [yielded s']. simpl in *.
  rewrite IH. reflexivity.
Qed.

Lemma keep_first_selector_later s x (ctx : ItemContext T) :
  index ctx <> 0 ->
  OrderedEnumerable.toSelectorSafe keep_first_selector s x ctx = (value ctx, ctx, s).
Proof.
  intros Hi. unfold OrderedEnumerable.toSelectorSafe, keep_first_selector, isFirst.
  destruct (Z.eqb_spec 0 (index ctx)) as [ Heq | _ ]; [ lia | reflexivity ].
Qed.

(** X13.  The item context a callback of [select] receives: [index] counts
    the items from 0; [previousValue] is what the call for the item before
    stored in [nextValue] (undefined for the first item); [isFirst] holds for
    the first item only, and what a call stores in [value] is still there in
    every later call. *)
Theorem select_passes_the_item_context e s :
  fst (Operators.select (Closure := Closure) (V := T) indexed_selector e s) =
    imap (fun k x => (Z.of_nat k, x)) e /\
  fst (Operators.select (Closure := Closure) hand_on_selector e s) =
    firstn (length e) (None :: map Some e) /\
  fst (Operators.select (Closure := Closure) keep_first_selector e s) =
    map (fun _ => head e) e.
Proof.
  unfold Operators.select. split; [ | split ].
  - rewrite selectInner_loop_indexed. apply imap_ext. intros k x _. simpl. f_equal; lia.
  - apply selectInner_loop_hand_on.
  - destruct e as [ | x e ]; [ reflexivity | ].
    cbn [Operators.selectInner_loop head map].
    pose proof (selectInner_loop_keeps_value _ e keep_first_selector_later
                  (-1 + 1) None (Some x) s ltac:(lia)) as Hrest.
    cbn. destruct (Operators.selectInner_loop _ e _ _ _ _) as [yielded s']. simpl in *.
    rewrite Hrest. reflexivity.
Qed.
End ContextFacts.

(** ** [sequenceEqual] and [contains] *)

Section SequenceEqualFacts.
Context {T O : Type} `{JsEquals T}.
Context `{LambdaHost (Predciate unit T unit) O}.

Implicit Types (ec : EqualityComparer T) (kc : EqualityComparer Z) (e other : list T).

Lemma sequenceEqual_loop_true ec kc e :
  forall other k,
    Operators.sequenceEqual_loop ec kc e other k k = true <->
    Forall2 (fun x y => ec x y = true) e other /\
    forall i, (i < length e)%nat -> kc (k + 1 + Z.of_nat i) (k + 1 + Z.of_nat i) = true.
Proof.
  induction e as [ | x e IH ]; intros [ | y other ] k; simpl.
  - split; [ intros _; split; [ constructor | intros i Hi; lia ] | reflexivity ].
  - split; [ discriminate | intros [Hall _]; inversion Hall ].
  - split; [ discriminate | intros [Hall _]; inversion Hall ].
  - destruct (ec x y) eqn:Hxy; simpl.
    + destruct (kc (k + 1) (k + 1)) eqn:Hk; simpl.
      * rewrite IH. split.
        -- intros [Hall Hkeys]. split; [ constructor; assumption | ].
           intros [ | i ] Hi.
           ++ replace (k + 1 + Z.of_nat 0) with (k + 1) by lia. exact Hk.
           ++ replace (k + 1 + Z.of_nat (S i)) with (k + 1 + 1 + Z.of_nat i) by lia.
              apply Hkeys. lia.
        -- intros [Hall Hkeys]. inversion Hall; subst. split; [ assumption | ].
           intros i Hi.
           replace (k + 1 + 1 + Z.of_nat i) with (k + 1 + Z.of_nat (S i)) by lia.
           apply Hkeys. lia.
      * split; [ discriminate | ]. intros [_ Hkeys].
        specialize (Hkeys 0%nat ltac:(lia)).
        replace (k + 1 + Z.of_nat 0) with (k + 1) in Hkeys by lia. congruence.
    + split; [ discriminate | ]. intros [Hall _]. inversion Hall; subst. congruence.
Qed.

(** X14.  [sequenceEqual] compares the sequence with the items
    [makeIterable] yields for [other]: it is true exactly when the two have
    the same number of items and the comparer, called as [ec(x, y)] on the
    items [x] and [y] at the same position, is true at every position (and
    the key comparer accepts every position as its own equal, which the
    default one and [true] always do).  For [other] an array these are its
    items; for another sequence object (an iterator, an [Enumerable], a
    [List]) there are none, so that the result tells whether the sequence is
    empty. *)
Theorem sequenceEqual_compares_position_by_position (comparer : EqualityComparerArg T)
    (keyComparer : EqualityComparerArg Z) e (other : Sequence T) (arr items : list T) :
  let ec := Enumerable.toEqualityComparerSafe comparer in
  let kc := Enumerable.toEqualityComparerSafe keyComparer in
  (Operators.sequenceEqual other comparer keyComparer e = true <->
   Forall2 (fun x y => ec x y = true) e (makeIterable other) /\
   forall i, (i < length e)%nat -> kc (Z.of_nat i) (Z.of_nat i) = true) /\
  (Operators.sequenceEqual (SeqArrayLike arr) comparer EcUndefined e = true <->
   length e = length arr /\
   forall i x y, e !! i = Some x -> arr !! i = Some y -> ec x y = true) /\
  (Operators.sequenceEqual (SeqArrayLike arr) comparer EcTrue e = true <->
   Forall2 (fun x y => ec x y = true) e arr) /\
  Operators.sequenceEqual (SeqIterable items) comparer keyComparer e =
    match e with
    | [] => true
    | _ :: _ => false
    end.
Proof.
  intros ec kc. unfold Operators.sequenceEqual. split; [ | split; [ | split ] ].
  - rewrite sequenceEqual_loop_true. fold ec. fold kc.
    split; intros [Hall Hkeys]; (split; [ exact Hall | ]); intros i Hi;
      specialize (Hkeys i Hi); replace (-1 + 1 + Z.of_nat i) with (Z.of_nat i) in * by lia;
      exact Hkeys.
  - rewrite sequenceEqual_loop_true. fold ec. cbn [makeIterable].
    rewrite Forall2_same_length_lookup. split.
    + intros [Hall _]. exact Hall.
    + intros Hall. split; [ exact Hall | ]. intros i _. simpl. apply Z.eqb_refl.
  - rewrite sequenceEqual_loop_true. fold ec. cbn [makeIterable]. split.
    + intros [Hall _]. exact Hall.
    + intros Hall. split; [ exact Hall | ]. intros i _. simpl. apply Z.eqb_refl.
  - destruct e; reflexivity.
Qed.

(** X15.  [contains(item, comparer)] is true exactly when the sequence has
    an item [x] for which the comparer, called as [ec(x, item)], is true; it
    never throws, and the empty sequence contains nothing. *)
Theorem contains_finds_an_equal_item (item : T) (comparer : EqualityComparerArg T) e :
  let ec := Enumerable.toEqualityComparerSafe comparer in
  Operators.contains item comparer e = Return (existsb (fun x => ec x item) e) /\
  (Operators.contains item comparer e = Return true <->
   exists x, In x e /\ ec x item = true) /\
  Operators.contains item comparer [] = Return false.
Proof.
  intros ec.
  assert (Hany : Operators.contains item comparer e = Return (existsb (fun x => ec x item) e)).
  { unfold Operators.contains.
    change (JsFunction (F := Predciate unit T unit) (O := O)
              (fun s x ctx => (Enumerable.toEqualityComparerSafe comparer x item, ctx, s)))
      with (JsFunction (F := Predciate unit T unit) (O := O)
              (pure_predicate (fun x => ec x item))).
    rewrite any_pure. reflexivity. }
  split; [ exact Hany | ]. split.
  - rewrite Hany. rewrite <- existsb_exists. split; [ intros [= ->]; reflexivity | ].
    intros ->. reflexivity.
  - reflexivity.
Qed.
End SequenceEqualFacts.

(** ** [max], [min] and [sum] *)

Section AggregatePure.
Context {T O : Type}.
Context `{JsAdd T} `{LambdaHost (Aggregator unit T unit) O}.

Lemma aggregate_pure (f : T -> T -> T) (d : T) (e : list T) :
  fst (Enumerable.aggregate (Closure := unit) (V := unit)
         (JsFunction (pure_aggregator f)) d e tt) =
  Return (match e with
          | [] => d
          | seed :: items => fold_left f items seed
          end).
Proof.
  unfold Enumerable.aggregate. cbn [Args.asFunc]. rewrite aggregate_loop_spec.
  destruct e as [ | seed items ]; simpl; [ reflexivity | ].
  rewrite fold_running_pure. reflexivity.
Qed.
End AggregatePure.

Section NumberFacts.
Context {O : Type}.
Context `{LambdaHost (Aggregator unit Z unit) O}.

Lemma fold_left_max (items : list Z) :
  forall seed,
    let hi := fold_left (fun result item => if js_lt result item then item else result)
                items seed in
    In hi (seed :: items) /\ Forall (fun y => y <= hi) (seed :: items).
Proof.
  unfold js_lt, JsLess_Z.
  induction items as [ | x items IH ]; intros seed; simpl.
  - split; [ left; reflexivity | repeat constructor; lia ].
  - destruct (IH (if seed <? x then x else seed)) as [Hin Hall]. simpl in Hin, Hall.
    apply Forall_cons in Hall as [Hfirst Hall].
    split.
    + destruct Hin as [ Hin | Hin ]; [ | right; right; exact Hin ].
      destruct (Z.ltb_spec seed x); [ right; left | left ]; exact Hin.
    + destruct (Z.ltb_spec seed x); repeat constructor; try assumption; lia.
Qed.

Lemma fold_left_min (items : list Z) :
  forall seed,
    let lo := fold_left (fun result item => if js_lt item result then item else result)
                items seed in
    In lo (seed :: items) /\ Forall (fun y => lo <= y) (seed :: items).
Proof.
  unfold js_lt, JsLess_Z.
  induction items as [ | x items IH ]; intros seed; simpl.
  - split; [ left; reflexivity | repeat constructor; lia ].
  - destruct (IH (if x <? seed then x else seed)) as [Hin Hall]. simpl in Hin, Hall.
    apply Forall_cons in Hall as [Hfirst Hall].
    split.
    + destruct Hin as [ Hin | Hin ]; [ | right; right; exact Hin ].
      destruct (Z.ltb_spec x seed); [ right; left | left ]; exact Hin.
    + destruct (Z.ltb_spec x seed); repeat constructor; try assumption; lia.
Qed.

(** X16.  On numbers (integers), [max] returns an item of the sequence that no item
    exceeds and [min] an item that exceeds no item; on the empty sequence
    both return the default value, which plays no part otherwise. *)
Theorem max_min_bound_the_items (d x : Z) (e : list Z) :
  Operators.max d [] = Return d /\
  Operators.min d [] = Return d /\
  exists hi lo,
    Operators.max d (x :: e) = Return hi /\
    Operators.min d (x :: e) = Return lo /\
    In hi (x :: e) /\ In lo (x :: e) /\
    Forall (fun y => lo <= y <= hi) (x :: e).
Proof.
  assert (Hmax : forall l, Operators.max d l =
            Return (match l with
                    | [] => d
                    | seed :: items =>
                        fold_left (fun result item => if js_lt result item then item else result)
                          items seed
                    end)).
  { intros l. apply (aggregate_pure
                       (fun result item => if js_lt result item then item else result)). }
  assert (Hmin : forall l, Operators.min d l =
            Return (match l with
                    | [] => d
                    | seed :: items =>
                        fold_left (fun result item => if js_lt item result then item else result)
                          items seed
                    end)).
  { intros l. apply (aggregate_pure
                       (fun result item => if js_lt item result then item else result)). }
  rewrite !Hmax, !Hmin. split; [ reflexivity | ]. split; [ reflexivity | ].
  destruct (fold_left_max e x) as [Hhi Hle]. destruct (fold_left_min e x) as [Hlo Hge].
  eexists _, _. split; [ reflexivity | ]. split; [ reflexivity | ].
  split; [ exact Hhi | ]. split; [ exact Hlo | ].
  rewrite Forall_forall in *. intros y Hy. split; [ apply Hge | apply Hle ]; exact Hy.
Qed.
End NumberFacts.

Section SumFacts.
Context {O : Type}.
Context `{LambdaHost (Aggregator unit float unit) O}.

(** X17.  [sum], on a sequence of numbers, adds the items from left to
    right as the doubles they are, starting from the first item: the default
    value is returned for the empty sequence only and is not added in
    otherwise, and the items of an array appended with [concat] are added
    after those of the sequence.  Every addition rounds as [+] does: the sum
    of 2^53, 1, 1 is 2^53, while the sum of 1, 1, 2^53 is 2^53 + 2. *)
Theorem sum_adds_the_items (d x : float) (e arr : list float) :
  Operators.sum d [] = Return d /\
  Operators.sum d (x :: e) = Return (fold_left PrimFloat.add e x) /\
  Operators.sum d (Operators.concat (SeqArrayLike arr) (x :: e)) =
    Return (fold_left PrimFloat.add arr (fold_left PrimFloat.add e x)) /\
  Operators.sum 0%float [9007199254740992%float; 1%float; 1%float] =
    Return 9007199254740992%float /\
  Operators.sum 0%float [1%float; 1%float; 9007199254740992%float] =
    Return 9007199254740994%float.
Proof.
  assert (Hsum : forall l, Operators.sum d l =
            Return (match l with
                    | [] => d
                    | seed :: items => fold_left PrimFloat.add items seed
                    end)).
  { intros l. apply (aggregate_pure PrimFloat.add). }
  rewrite !Hsum. split; [ reflexivity | ]. split; [ reflexivity | ]. split.
  - unfold Operators.concat, Operators.concatInner. cbn [makeIterable app].
    rewrite fold_left_app. reflexivity.
  - split; reflexivity.
Qed.
End SumFacts.

(** ** [joinToString] and [concatToString] *)

Section JoinFacts.
Context {T : Type} `{JsToString T}.

Lemma string_app_assoc (a b c : string) : (a +:+ b) +:+ c = a +:+ (b +:+ c).
Proof.
  induction a as [ | ch a IH ]; [ reflexivity | ].
  change (String ch ((a +:+ b) +:+ c) = String ch (a +:+ (b +:+ c))).
  rewrite IH. reflexivity.
Qed.

Lemma joinToString_loop_later (separator : string) (e : list T) :
  forall (x : T) result i,
    0 <= i ->
    Operators.joinToString_loop separator (x :: e) result i =
    result +:+ separator +:+ String.concat separator (map js_toString (x :: e)).
Proof.
  induction e as [ | y e IH ]; intros x result i Hi.
  - cbn [Operators.joinToString_loop map String.concat].
    destruct (Z.eqb_spec 0 (i + 1)) as [ Heq | _ ]; [ lia | ]. reflexivity.
  - cbn [Operators.joinToString_loop].
    destruct (Z.eqb_spec 0 (i + 1)) as [ Heq | _ ]; [ lia | ]. cbn [negb].
    specialize (IH y (result +:+ separator +:+ js_toString x) (i + 1) ltac:(lia)).
    cbn [Operators.joinToString_loop] in IH. rewrite IH.
    cbn [map String.concat]. rewrite !string_app_assoc. reflexivity.
Qed.

(** X18.  [joinToString(separator, defaultValue)] returns the items,
    converted to strings, with the separator between each two of them; the
    default value (the empty string when it is left out) is returned for the
    empty sequence only.  [concatToString] joins with the empty separator. *)
Theorem joinToString_separates_the_items (separator : string) (defaultValue : option string)
    (x : T) (e : list T) :
  Operators.joinToString separator defaultValue (@nil T) =
    match defaultValue with Some d => d | None => "" end /\
  Operators.joinToString separator defaultValue [x] = js_toString x /\
  Operators.joinToString separator defaultValue (x :: e) =
    String.concat separator (map js_toString (x :: e)) /\
  Operators.concatToString defaultValue (x :: e) =
    String.concat "" (map js_toString (x :: e)).
Proof.
  assert (Hjoin : forall sep dv,
            Operators.joinToString sep dv (x :: e) =
            String.concat sep (map js_toString (x :: e))).
  { intros sep dv. unfold Operators.joinToString. cbn [Operators.joinToString_loop].
    change (-1 + 1) with 0. cbn [Z.eqb negb].
    change ("" +:+ js_toString x) with (js_toString x).
    destruct e as [ | y e' ]; [ reflexivity | ].
    rewrite joinToString_loop_later by lia. reflexivity. }
  split; [ destruct defaultValue; reflexivity | ]. split; [ destruct defaultValue; reflexivity | ].
  split; [ apply Hjoin | ].
  unfold Operators.concatToString. destruct defaultValue; apply Hjoin.
Qed.
End JoinFacts.

(** ** [groupBy] *)

Section GroupByFacts.
Context {Closure T V K : Type} `{JsEquals K}.

Implicit Types (ksec : EqualityComparer K) (k : T -> K) (e : list T).
Implicit Types (gs : list (Operators.Grouping K T)).

Lemma groupBy_loop_pure k ksec e :
  forall gs i pv v (s : Closure),
    Operators.groupBy_loop (V := V) (OrderedEnumerable.toSelectorSafe (pure_selector k))
      ksec e gs i pv v s =
    (fold_left (fun gs x => Operators.push_to_group ksec (k x) x gs) e gs, s).
Proof.
  induction e as [ | item e IH ]; intros; simpl; [ reflexivity | ].
  simpl in IH. apply IH.
Qed.

(** A new group is opened exactly when no group has a key equal to the key
    of the item. *)
Lemma push_to_group_keys ksec (kx : K) (x : T) gs :
  map Operators.key (Operators.push_to_group ksec kx x gs) =
  map Operators.key gs ++
    (if existsb (fun existingKey => ksec kx existingKey) (map Operators.key gs)
     then [] else [kx]).
Proof.
  induction gs as [ | g gs IH ]; simpl; [ reflexivity | ].
  destruct (ksec kx (Operators.key g)); simpl.
  - rewrite app_nil_r. reflexivity.
  - rewrite IH. reflexivity.
Qed.

Lemma push_to_group_items ksec (kx : K) (x : T) gs :
  List.concat (map Operators.items (Operators.push_to_group ksec kx x gs)) ≡ₚ
  x :: List.concat (map Operators.items gs).
Proof.
  induction gs as [ | g gs IH ]; simpl; [ reflexivity | ].
  destruct (ksec kx (Operators.key g)); simpl.
  - rewrite <- app_assoc. simpl. symmetry. apply Permutation_middle.
  - rewrite IH. symmetry. apply Permutation_middle.
Qed.

Lemma push_to_group_shape ksec k (pre : list T) (x : T) gs :
  Forall (fun g => sublist (Operators.items g) pre /\
                   match Operators.items g with
                   | [] => False
                   | first :: rest =>
                       Operators.key g = k first /\
                       Forall (fun y => ksec (k y) (Operators.key g) = true) rest
                   end) gs ->
  Forall (fun g => sublist (Operators.items g) (pre ++ [x]) /\
                   match Operators.items g with
                   | [] => False
                   | first :: rest =>
                       Operators.key g = k first /\
                       Forall (fun y => ksec (k y) (Operators.key g) = true) rest
                   end) (Operators.push_to_group ksec (k x) x gs).
Proof.
  induction gs as [ | g gs IH ]; intros Hgs; simpl.
  - constructor; [ | constructor ]. simpl. split.
    + apply sublist_inserts_l. reflexivity.
    + split; [ reflexivity | constructor ].
  - apply Forall_cons in Hgs as [[Hsub Hg] Hgs].
    destruct (ksec (k x) (Operators.key g)) eqn:Hmatch.
    + constructor.
      * simpl. split; [ apply sublist_app; [ exact Hsub | reflexivity ] | ].
        destruct (Operators.items g) as [ | first rest ]; [ contradiction | ].
        destruct Hg as [Hkey Hrest]. simpl. split; [ exact Hkey | ].
        apply Forall_app. split; [ exact Hrest | ]. repeat constructor. exact Hmatch.
      * eapply Forall_impl; [ exact Hgs | ]. intros g' [Hsub' Hg'].
        split; [ apply sublist_inserts_r; exact Hsub' | exact Hg' ].
    + constructor; [ | apply IH; exact Hgs ].
      split; [ apply sublist_inserts_r; exact Hsub | exact Hg ].
Qed.

(** X19.  [groupBy] with a key selector that only looks at the item: the
    keys of the groups are the distinct keys of the items, in the order of
    their first occurrence ([distinct] of the selected keys with the same
    comparer); every item of the source is in exactly one group (the groups
    together are a rearrangement of the source); the items of a group are in
    source order, the first of them gave the group its key, and the key of
    every other one is comparer-equal to the key of the group. *)
Theorem groupBy_partitions_by_key k (keyEqualityComparer : EqualityComparerArg K) e
    (s : Closure) :
  let ksec := Enumerable.toEqualityComparerSafe keyEqualityComparer in
  let groups := fst (Operators.groupBy (V := V) (pure_selector k) keyEqualityComparer e s) in
  map Operators.key groups = Enumerable.distinct keyEqualityComparer (map k e) /\
  List.concat (map Operators.items groups) ≡ₚ e /\
  Forall (fun g => sublist (Operators.items g) e /\
                   match Operators.items g with
                   | [] => False
                   | first :: rest =>
                       Operators.key g = k first /\
                       Forall (fun y => ksec (k y) (Operators.key g) = true) rest
                   end) groups.
Proof.
  intros ksec groups. subst groups. unfold Operators.groupBy.
  rewrite groupBy_loop_pure. fold ksec. cbn [fst].
  rewrite (map_ext_in _ id) by (intros [gk gi] _; reflexivity). rewrite map_id.
  rewrite distinct_unfold. fold ksec.
  induction e as [ | x e IH ] using rev_ind.
  - simpl. split; [ reflexivity | ]. split; [ reflexivity | constructor ].
  - destruct IH as (Hkeys & Hitems & Hshape).
    rewrite fold_left_app. cbn [fold_left]. split; [ | split ].
    + rewrite push_to_group_keys, Hkeys, map_app. cbn [map].
      rewrite distinctInner_loop_snoc. reflexivity.
    + rewrite push_to_group_items, Hitems. apply Permutation_cons_append.
    + apply push_to_group_shape. exact Hshape.
Qed.
End GroupByFacts.

(** ** [order], [orderBy], [orderByDescending], [orderDescending] and [reverse] *)

Section OrderingFacts.
Context {Closure T V O : Type}.
Context `{LambdaHost (KeySelector Closure T V) O}.

Lemma Sorted_weaken {A} (R R' : A -> A -> Prop) (l : list A) :
  (forall x y, R x y -> R' x y) -> Sorted R l -> Sorted R' l.
Proof.
  intros HR Hl. induction Hl as [ | x l Hl IH Hhd ]; constructor; [ exact IH | ].
  destruct Hhd; constructor; auto.
Qed.

(** What an ordered sequence made with a selector that only looks at the
    item enumerates: the items sorted by the comparer on their keys. *)
Lemma orderBy_items {U} `{JsLess U} (k : T -> U) (c : option (Comparer U)) (e : list T)
    (s : Closure) :
  Operators.ordered_items (OrderedEnumerable.orderBy (V := V) e (pure_selector k) c s) =
  Return (Array_sort (fun x y => OrderedEnumerable.toComparerSafe c (k x) (k y)) e).
Proof.
  unfold Operators.ordered_items, OrderedEnumerable.orderBy, OrderedEnumerable.new_.
  rewrite toArray_undefined, sortValues_pure.
  unfold OrderedEnumerable.toArray. cbn [OrderedEnumerable._enumerator].
  rewrite toArray_undefined. cbn [fst]. f_equal.
  rewrite (Array_sort_map (fun x => OrderedEnumerable.mkSortValue (k x) x)
             (fun x y => OrderedEnumerable.toComparerSafe c
                           (OrderedEnumerable.sortBy x) (OrderedEnumerable.sortBy y))).
  rewrite map_map. cbn [OrderedEnumerable.value OrderedEnumerable.sortBy].
  apply map_id.
Qed.

Lemma orderByDescending_items {U} `{JsLess U} (k : T -> U) (c : option (Comparer U))
    (e : list T) (s : Closure) :
  Operators.ordered_items (Operators.orderByDescending (V := V) (pure_selector k) c e s) =
  Return (Array_sort (fun x y => OrderedEnumerable.toComparerSafe c (k y) (k x)) e).
Proof.
  unfold Operators.orderByDescending. rewrite orderBy_items. f_equal.
  apply Array_sort_ext. intros x y.
  etransitivity; [ apply @toComparerSafe_positive | reflexivity ].
Qed.

(** X20.  [orderBy(selector)] and [orderByDescending(selector)], for a
    selector that only looks at the item and computes a number, with the
    default comparer: both enumerate a rearrangement of the source, the first
    in ascending and the second in descending order of the keys. *)
Theorem orderBy_sorts_by_key (k : T -> Z) (e : list T) (s : Closure) :
  exists ascending descending,
    Operators.ordered_items (OrderedEnumerable.orderBy (V := V) e (pure_selector k) None s) =
      Return ascending /\
    Operators.ordered_items (Operators.orderByDescending (V := V) (pure_selector k) None e s) =
      Return descending /\
    ascending ≡ₚ e /\
    descending ≡ₚ e /\
    Sorted (fun x y => k x <= k y) ascending /\
    Sorted (fun x y => k y <= k x) descending.
Proof.
  rewrite orderBy_items, orderByDescending_items. eexists _, _.
  split; [ reflexivity | ]. split; [ reflexivity | ].
  split; [ apply Array_sort_Permutation | ]. split; [ apply Array_sort_Permutation | ].
  split.
  - eapply Sorted_weaken; [ | apply Array_sort_Sorted ].
    + intros x y. cbn. unfold js_lt, JsLess_Z.
      destruct (Z.ltb_spec (k x) (k y)); [ lia | ].
      destruct (Z.ltb_spec (k y) (k x)); lia.
    + intros x y. cbn. unfold js_lt, JsLess_Z.
      destruct (Z.ltb_spec (k x) (k y)); [ lia | ].
      destruct (Z.ltb_spec (k y) (k x)); lia.
  - eapply Sorted_weaken; [ | apply Array_sort_Sorted ].
    + intros x y. cbn. unfold js_lt, JsLess_Z.
      destruct (Z.ltb_spec (k y) (k x)); [ lia | ].
      destruct (Z.ltb_spec (k x) (k y)); lia.
    + intros x y. cbn. unfold js_lt, JsLess_Z.
      destruct (Z.ltb_spec (k y) (k x)); [ lia | ].
      destruct (Z.ltb_spec (k x) (k y)); lia.
Qed.
End OrderingFacts.

Section ReverseFacts.
Context {Closure V O : Type}.
Context `{LambdaHost (KeySelector Closure Z V) O}.

(** X21.  [reverse()] does not enumerate the items in reverse order of the
    source: it sorts them in descending order, as [orderDescending()] does,
    while [order()] sorts them in ascending order.  On the numbers 1, 3, 2 it
    yields 3, 2, 1 and not 2, 3, 1. *)
Theorem reverse_sorts_descending (e : list Z) (s : Closure) :
  (exists descending ascending,
     Operators.ordered_items (Operators.reverse (V := V) e s) = Return descending /\
     Operators.ordered_items (Operators.orderDescending (V := V) None e s) =
       Return descending /\
     Operators.ordered_items (Operators.order (V := V) None e s) = Return ascending /\
     descending ≡ₚ e /\
     ascending ≡ₚ e /\
     Sorted (fun x y => y <= x) descending /\
     Sorted (fun x y => x <= y) ascending) /\
  Operators.ordered_items (Operators.reverse (V := V) [1; 3; 2] s) = Return [3; 2; 1].
Proof.
  split; [ | reflexivity ].
  assert (Hreverse :
            Operators.ordered_items (Operators.reverse (V := V) e s) =
            Return (Array_sort (fun x y => if y <? x then -1 else if x <? y then 1 else 0) e)).
  { unfold Operators.reverse, Operators.order.
    change (fun (s0 : Closure) (x : Z) (ctx : ItemContext V) => (x, ctx, s0))
      with (pure_selector (Closure := Closure) (V := V) (fun x : Z => x)).
    rewrite orderBy_items. f_equal. apply Array_sort_ext. intros x y.
    etransitivity; [ apply @toComparerSafe_positive | reflexivity ]. }
  assert (Hdescending :
            Operators.ordered_items (Operators.orderDescending (V := V) None e s) =
            Return (Array_sort (fun x y => if y <? x then -1 else if x <? y then 1 else 0) e)).
  { unfold Operators.orderDescending.
    change (fun (s0 : Closure) (x : Z) (ctx : ItemContext V) => (x, ctx, s0))
      with (pure_selector (Closure := Closure) (V := V) (fun x : Z => x)).
    rewrite orderByDescending_items. reflexivity. }
  assert (Hascending :
            Operators.ordered_items (Operators.order (V := V) None e s) =
            Return (Array_sort (fun x y => if x <? y then -1 else if y <? x then 1 else 0) e)).
  { unfold Operators.order.
    change (fun (s0 : Closure) (x : Z) (ctx : ItemContext V) => (x, ctx, s0))
      with (pure_selector (Closure := Closure) (V := V) (fun x : Z => x)).
    rewrite orderBy_items. reflexivity. }
  rewrite Hreverse, Hdescending, Hascending. eexists _, _.
  split; [ reflexivity | ]. split; [ reflexivity | ]. split; [ reflexivity | ].
  split; [ apply Array_sort_Permutation | ]. split; [ apply Array_sort_Permutation | ].
  split.
  - eapply Sorted_weaken; [ | apply Array_sort_Sorted ].
    + intros x y. cbn. destruct (Z.ltb_spec y x); [ lia | ]. destruct (Z.ltb_spec x y); lia.
    + intros x y. cbn. destruct (Z.ltb_spec y x); [ lia | ]. destruct (Z.ltb_spec x y); lia.
  - eapply Sorted_weaken; [ | apply Array_sort_Sorted ].
    + intros x y. cbn. destruct (Z.ltb_spec x y); [ lia | ]. destruct (Z.ltb_spec y x); lia.
    + intros x y. cbn. destruct (Z.ltb_spec x y); [ lia | ]. destruct (Z.ltb_spec y x); lia.
Qed.
End ReverseFacts.

(** ** [where], [first] and [last] *)

Section MatchFacts.
Context {Closure T V O : Type}.
Context `{LambdaHost (Predciate Closure T V) O}.

Implicit Types (p : Predciate Closure T V) (e : list T) (s : Closure).

Lemma first_loop_whereInner_loop p e :
  forall i pv v s,
    fst (Enumerable.first_loop p e i pv v s) =
    head (fst (Enumerable.whereInner_loop p e i pv v s)).
Proof.
  induction e as [ | item e IH ]; intros i pv v s; simpl; [ reflexivity | ].
  destruct (p s item _) as [[doesMatch ctx] s'].
  destruct (cancel ctx); [ reflexivity | ].
  specialize (IH (i + 1) (nextValue ctx) (value ctx) s').
  destruct (Enumerable.whereInner_loop p e _ _ _ _) as [yielded s''].
  destruct doesMatch; simpl in *; [ reflexivity | exact IH ].
Qed.

Lemma last_loop_whereInner_loop p e :
  forall result i pv v s,
    fst (Enumerable.last_loop p e result i pv v s) =
    match last (fst (Enumerable.whereInner_loop p e i pv v s)) with
    | Some x => Some x
    | None => result
    end.
Proof.
  induction e as [ | item e IH ]; intros result i pv v s; simpl; [ reflexivity | ].
  destruct (p s item _) as [[doesMatch ctx] s'].
  destruct (cancel ctx); [ reflexivity | ].
  rewrite IH.
  destruct (Enumerable.whereInner_loop p e _ _ _ _) as [yielded s''].
  destruct doesMatch; simpl; [ | reflexivity ].
  rewrite last_cons. destruct (last yielded); reflexivity.
Qed.

Lemma whereInner_loop_sublist p e :
  forall i pv v s, sublist (fst (Enumerable.whereInner_loop p e i pv v s)) e.
Proof.
  induction e as [ | item e IH ]; intros i pv v s; simpl; [ constructor | ].
  destruct (p s item _) as [[doesMatch ctx] s'].
  destruct (cancel ctx); [ apply sublist_nil_l | ].
  specialize (IH (i + 1) (nextValue ctx) (value ctx) s').
  destruct (Enumerable.whereInner_loop p e _ _ _ _) as [yielded s''].
  destruct doesMatch; simpl in *; [ apply sublist_skip | apply sublist_cons ]; exact IH.
Qed.

Lemma where_pure (q : T -> bool) e s :
  Enumerable.where_ (V := V) (JsFunction (pure_predicate q)) e s = (Return (List.filter q e), s).
Proof.
  unfold Enumerable.where_, Enumerable.whereInner.
  destruct (toPredicateSafe_function (pure_predicate (V := V) q)) as (p' & -> & Hp').
  rewrite (whereInner_loop_ext p' _ Hp'), whereInner_loop_pure. reflexivity.
Qed.

(** X22.  For every predicate function, [first] returns the first and
    [last] the last of the items [where] yields for it (the items accepted
    before the predicate cancels), and both throw "No matching element
    found!" when [where] yields nothing; [firstOrDefault] and [lastOrDefault]
    return the default value then. *)
Theorem first_last_of_the_matches p (d : JsValue (Predciate Closure T V) O) e s :
  let matches := fst (Enumerable.whereInner p e s) in
  fst (Enumerable.first (JsFunction p) e s) =
    match head matches with
    | Some x => Return x
    | None => Throw "No matching element found!"
    end /\
  fst (Enumerable.last (JsFunction p) e s) =
    match last matches with
    | Some x => Return x
    | None => Throw "No matching element found!"
    end /\
  fst (Enumerable.firstOrDefault [JsFunction p; d] e s) =
    match head matches with
    | Some x => Return (Item x)
    | None => Return (Default d)
    end /\
  fst (Enumerable.lastOrDefault [JsFunction p; d] e s) =
    match last matches with
    | Some x => Return (Item x)
    | None => Return (Default d)
    end.
Proof.
  intros matches. subst matches. unfold Enumerable.whereInner.
  pose proof (first_loop_whereInner_loop p e (-1) None None s) as Hfirst.
  pose proof (last_loop_whereInner_loop p e None (-1) None None s) as Hlast.
  unfold Enumerable.first, Enumerable.last, Enumerable.firstOrDefault,
    Enumerable.lastOrDefault.
  cbn [Enumerable.parameter nth length].
  destruct (toPredicateSafe_function p) as (p' & -> & Hp').
  destruct (toOrDefaultArgs_function p d 2) as (p'' & -> & Hp'').
  cbn [predicate defaultValue].
  rewrite (first_loop_ext p' p Hp'), (last_loop_ext p' p Hp'),
    (first_loop_ext p'' p Hp''), (last_loop_ext p'' p Hp'').
  destruct (Enumerable.first_loop p e _ _ _ _) as [found s1].
  destruct (Enumerable.last_loop p e _ _ _ _ _) as [result s2].
  simpl in Hfirst, Hlast. rewrite <- Hfirst.
  destruct (last (Enumerable.whereInner_loop p e (-1) None None s).1) as [ x | ];
    subst result; destruct found; repeat split.
Qed.

(** X23.  [where] yields a subsequence of the source, whatever the
    predicate does; for a predicate that only looks at the item it yields
    exactly the items that satisfy it, so that filtering twice is filtering
    by both predicates; without a predicate it yields every item. *)
Theorem where_keeps_the_matches (q q' : T -> bool) p e s :
  (exists yielded,
     fst (Enumerable.where_ (JsFunction p) e s) = Return yielded /\ sublist yielded e) /\
  fst (Enumerable.where_ (V := V) (JsFunction (pure_predicate q)) e s) =
    Return (List.filter q e) /\
  fst (Enumerable.where_ (V := V) (JsFunction (pure_predicate q')) (List.filter q e) s) =
    fst (Enumerable.where_ (V := V) (JsFunction (pure_predicate (fun x => q x && q' x))) e s) /\
  fst (Enumerable.where_ (V := V) JsUndefined e s) = Return e.
Proof.
  split; [ | split; [ | split ] ].
  - unfold Enumerable.where_, Enumerable.whereInner.
    destruct (toPredicateSafe_function p) as (p' & -> & Hp').
    pose proof (whereInner_loop_sublist p' e (-1) None None s) as Hsub.
    destruct (Enumerable.whereInner_loop p' e _ _ _ _) as [yielded s'].
    exists yielded. split; [ reflexivity | exact Hsub ].
  - rewrite where_pure. reflexivity.
  - rewrite !where_pure. simpl. f_equal.
    induction e as [ | x e IH ]; simpl; [ reflexivity | ].
    destruct (q x); simpl; [ destruct (q' x); simpl; congruence | exact IH ].
  - unfold Enumerable.where_, Enumerable.whereInner. rewrite toPredicateSafe_undefined.
    change (accept_all (Closure := Closure) (T := T) (V := V))
      with (pure_predicate (Closure := Closure) (V := V) (fun _ : T => true)).
    rewrite whereInner_loop_pure, filter_true. reflexivity.
Qed.

Lemma takeWhileInner_loop_always p e :
  forall i pv v s, fst (Operators.takeWhileInner_loop p e true i pv v s) = e.
Proof.
  induction e as [ | item e IH ]; intros i pv v s; simpl; [ reflexivity | ].
  destruct (p s item _) as [[r ctx] s']. rewrite orb_true_r. simpl.
  replace (if cancel ctx then true else true) with true by (destruct (cancel ctx); reflexivity).
  specialize (IH (i + 1) (nextValue ctx) (value ctx) s').
  destruct (Operators.takeWhileInner_loop p e _ _ _ _ _) as [yielded s'']. simpl in *.
  rewrite IH. reflexivity.
Qed.

Lemma takeWhileInner_loop_cancelling_at (q : T -> bool) (n : nat) e :
  forall i pv v s,
    (n < length e)%nat ->
    forallb q (firstn (S n) e) = true ->
    fst (Operators.takeWhileInner_loop (V := V) (cancelling_at q (i + 1 + Z.of_nat n)) e
           false i pv v s) = e.
Proof.
  revert e. induction n as [ | n IH ]; intros [ | item e ] i pv v s Hlen Hq;
    simpl in Hlen; try lia; simpl in Hq; apply andb_prop in Hq as [Hitem Hq].
  - cbn [Operators.takeWhileInner_loop]. unfold cancelling_at at 1.
    cbn [set_value new_ItemContext index]. rewrite Hitem.
    replace (i + 1 =? i + 1 + Z.of_nat 0) with true by (symmetry; apply Z.eqb_eq; lia).
    cbn.
    pose proof (takeWhileInner_loop_always (cancelling_at q (i + 1 + Z.of_nat 0)) e
                  (i + 1) None v s) as Hrest.
    destruct (Operators.takeWhileInner_loop _ e _ _ _ _ _) as [yielded s']. simpl in *.
    rewrite Hrest. reflexivity.
  - cbn [Operators.takeWhileInner_loop]. unfold cancelling_at at 1.
    cbn [set_value new_ItemContext index]. rewrite Hitem.
    replace (i + 1 =? i + 1 + Z.of_nat (S n)) with false by (symmetry; apply Z.eqb_neq; lia).
    cbn.
    specialize (IH e (i + 1) None v s ltac:(lia) Hq).
    replace (i + 1 + 1 + Z.of_nat n) with (i + 1 + Z.of_nat (S n)) in IH by lia.
    destruct (Operators.takeWhileInner_loop _ e _ _ _ _ _) as [yielded s']. simpl in *.
    rewrite IH. reflexivity.
Qed.

Lemma skipWhileInner_loop_cancelling_at (q : T -> bool) (n : nat) e :
  forall i pv v s,
    (n < length e)%nat ->
    forallb q (firstn n e) = true ->
    fst (Operators.skipWhileInner_loop (V := V) (cancelling_at q (i + 1 + Z.of_nat n)) e
           true i pv v s) = drop n e.
Proof.
  revert e. induction n as [ | n IH ]; intros [ | item e ] i pv v s Hlen Hq;
    simpl in Hlen; try lia.
  - cbn [Operators.skipWhileInner_loop]. unfold cancelling_at at 1.
    cbn [set_value new_ItemContext index].
    replace (i + 1 =? i + 1 + Z.of_nat 0) with true by (symmetry; apply Z.eqb_eq; lia).
    cbn. rewrite skipWhileInner_loop_yielding. reflexivity.
  - simpl in Hq. apply andb_prop in Hq as [Hitem Hq].
    cbn [Operators.skipWhileInner_loop]. unfold cancelling_at at 1.
    cbn [set_value new_ItemContext index]. rewrite Hitem.
    replace (i + 1 =? i + 1 + Z.of_nat (S n)) with false by (symmetry; apply Z.eqb_neq; lia).
    cbn.
    specialize (IH e (i + 1) None v s ltac:(lia) Hq).
    replace (i + 1 + 1 + Z.of_nat n) with (i + 1 + Z.of_nat (S n)) in IH by lia.
    destruct (Operators.skipWhileInner_loop _ e _ _ _ _ _) as [yielded s']. simpl in *.
    exact IH.
Qed.

(** X24.  A cancellation does not end [takeWhile] and [skipWhile] as it
    ends the other loops.  When the predicate accepts the items up to
    position [n] and sets [cancel] at position [n], [takeWhile] takes every
    item of the sequence, also the later ones the predicate rejects, and
    [skipWhile] stops skipping at position [n], which it yields with
    everything behind it. *)
Theorem cancel_in_takeWhile_and_skipWhile (q : T -> bool) (n : nat) e s :
  (n < length e)%nat ->
  forallb q (firstn (S n) e) = true ->
  fst (Operators.takeWhile (V := V) (JsFunction (cancelling_at q (Z.of_nat n))) e s) =
    Return e /\
  fst (Operators.skipWhile (V := V) (JsFunction (cancelling_at q (Z.of_nat n))) e s) =
    Return (drop n e).
Proof.
  intros Hlen Hq.
  unfold Operators.takeWhile, Operators.skipWhile,
    Operators.takeWhileInner, Operators.skipWhileInner.
  destruct (toPredicateSafe_function (cancelling_at (V := V) q (Z.of_nat n)))
    as (p' & -> & Hp').
  rewrite (takeWhileInner_loop_ext p' _ Hp'), (skipWhileInner_loop_ext p' _ Hp').
  pose proof (takeWhileInner_loop_cancelling_at q n e (-1) None None s Hlen Hq) as Htake.
  assert (Hq' : forallb q (firstn n e) = true).
  { rewrite forallb_forall in *. intros x Hx. apply Hq.
    rewrite <- (firstn_skipn n (firstn (S n) e)). apply in_or_app. left.
    rewrite firstn_firstn. replace (Nat.min n (S n)) with n by lia. exact Hx. }
  pose proof (skipWhileInner_loop_cancelling_at q n e (-1) None None s Hlen Hq') as Hskip.
  replace (-1 + 1 + Z.of_nat n) with (Z.of_nat n) in * by lia.
  destruct (Operators.takeWhileInner_loop _ e _ _ _ _ _) as [taken s1].
  destruct (Operators.skipWhileInner_loop _ e _ _ _ _ _) as [rest s2].
  simpl in *. subst. split; reflexivity.
Qed.
End MatchFacts.

(** ** [elementAt] and [skip] *)

Section ElementAtSkipFacts.
Context {T V O O' : Type}.
Context `{LambdaHost (Predciate Z T V) O} `{LambdaHost (Predciate unit T unit) O'}.

Lemma nth_error_head_drop (e : list T) :
  forall n, nth_error e n = head (drop n e).
Proof.
  induction e as [ | x e IH ]; intros [ | n ]; simpl; try reflexivity. apply IH.
Qed.

(** X25.  [elementAt(index)] returns the item at position [index]; it
    throws "Index out of range" for a negative index and "No matching element
    found!" when the sequence has no such position, where
    [elementAtOrDefault] returns its default value; for an index that is not
    negative, [elementAt(index)] is [skip(index).first()]. *)
Theorem elementAt_by_position (index : Z) (n : nat) (d : JsValue (Predciate Z T V) O)
    (e : list T) :
  Enumerable.elementAt index e =
    (if index <? 0 then Throw ("Index out of range: " +:+ pretty index)
     else match nth_error e (Z.to_nat index) with
          | Some x => Return x
          | None => Throw "No matching element found!"
          end) /\
  Enumerable.elementAtOrDefault index d e =
    (if index <? 0 then Throw ("Index out of range: " +:+ pretty index)
     else match nth_error e (Z.to_nat index) with
          | Some x => Return (Item x)
          | None => Return (Default d)
          end) /\
  Enumerable.elementAt (Z.of_nat n) e =
    match Operators.skip (Z.of_nat n) e with
    | Return rest => fst (Enumerable.first (Closure := unit) (V := unit) JsUndefined rest tt)
    | Throw m => Throw m
    end.
Proof.
  rewrite !elementAt_nth, elementAtOrDefault_nth, skip_drop.
  split; [ reflexivity | ]. split; [ reflexivity | ].
  destruct (Z.ltb_spec (Z.of_nat n) 0) as [ Hneg | _ ]; [ lia | ].
  rewrite Nat2Z.id, nth_error_head_drop.
  destruct (drop n e) as [ | x rest ]; reflexivity.
Qed.
End ElementAtSkipFacts.

(** ** The array enumerator *)

Section ArrayEnumeratorFacts.
Context {T : Type}.

Lemma moveNext_done (e : Enumerator.IteratorEnumerator T) :
  Enumerator.isValid e = false ->
  forall n, Nat.iter n (fun e => snd (Enumerator.moveNext e)) e = e.
Proof.
  intros Hdone n. induction n as [ | n IH ]; simpl; [ reflexivity | ].
  rewrite IH. unfold Enumerator.moveNext. rewrite Hdone. reflexivity.
Qed.

Lemma moveNext_iter (items : list T) :
  forall (e : Enumerator.IteratorEnumerator T) (n : nat),
    Enumerator.isValid e = true ->
    Enumerator._iterator e = items ->
    let e' := Nat.iter n (fun e => snd (Enumerator.moveNext e)) e in
    fst (Enumerator.moveNext e') = (n <? length items)%nat /\
    Enumerator.current (snd (Enumerator.moveNext e')) = items !! n /\
    Enumerator.key (snd (Enumerator.moveNext e')) =
      Enumerator._index e + 1 + Z.of_nat (Nat.min n (length items)).
Proof.
  induction items as [ | x items IH ]; intros e n Hvalid Hrest.
  - assert (Hend : Enumerator.moveNext e =
                   (false, Enumerator.mkIteratorEnumerator
                             (Some (Enumerator.mkIteratorResult true None))
                             (Enumerator._index e + 1) [])).
    { unfold Enumerator.moveNext. rewrite Hvalid, Hrest. reflexivity. }
    destruct n as [ | n ]; intros e'; subst e'.
    + cbn [Nat.iter nat_rect]. rewrite Hend. simpl. repeat split.
      unfold Enumerator.key. simpl. lia.
    + rewrite Nat.iter_succ_r, Hend. cbn [snd].
      rewrite moveNext_done by reflexivity.
      unfold Enumerator.moveNext. simpl. repeat split. unfold Enumerator.key. simpl. lia.
  - destruct n as [ | n ]; intros e'; subst e'.
    + cbn [Nat.iter nat_rect]. rewrite (moveNext_cons e x items Hvalid Hrest). simpl.
      repeat split. unfold Enumerator.key. simpl. lia.
    + rewrite Nat.iter_succ_r.
      rewrite (moveNext_cons e x items Hvalid Hrest). cbn [snd].
      specialize (IH (Enumerator.mkIteratorEnumerator
                        (Some (Enumerator.mkIteratorResult false (Some x)))
                        (Enumerator._index e + 1) items) n eq_refl eq_refl).
      cbn zeta in IH. destruct IH as (Hmore & Hcurrent & Hkey).
      split; [ exact Hmore | ]. split; [ exact Hcurrent | ].
      rewrite Hkey. cbn [Enumerator._index length]. lia.
Qed.

(** X26.  On a new array enumerator, the call of [moveNext] that follows [n]
    earlier calls returns true exactly when the array has an item at position
    [n]; that item is then [current] and [n] is the [key].  Once the end is
    reached every further call returns false, [current] is undefined and the
    key stays at the length of the array; so the loop
    [while (e.moveNext())] visits every item once, in order, and ends. *)
Theorem array_enumerator_moves_through_the_array (arr : list T) (n : nat) :
  let e := Nat.iter n (fun e => snd (Enumerator.moveNext e))
             (Enumerator.new_ArrayEnumerator arr) in
  fst (Enumerator.moveNext e) = (n <? length arr)%nat /\
  Enumerator.current (snd (Enumerator.moveNext e)) = arr !! n /\
  Enumerator.key (snd (Enumerator.moveNext e)) = Z.of_nat (Nat.min n (length arr)) /\
  Enumerator.visited (S (length arr) + n) (Enumerator.new_ArrayEnumerator arr) =
    imap (fun i x => (Z.of_nat i, Some x)) arr.
Proof.
  intros e. subst e.
  destruct (moveNext_iter arr (Enumerator.new_ArrayEnumerator arr) n eq_refl eq_refl)
    as (Hmore & Hcurrent & Hkey).
  split; [ exact Hmore | ]. split; [ exact Hcurrent | ]. split.
  - rewrite Hkey. simpl. lia.
  - rewrite (visited_items arr) by (simpl; try reflexivity; lia).
    apply imap_ext. intros i y _. simpl. f_equal.
Qed.
End ArrayEnumeratorFacts.

(** ** [asFunc] *)

Section AsFuncFacts.
Context {F O : Type} `{LambdaHost F O}.

(** X27.  [asFunc(v, false)] throws nothing of its own: it throws only what
    the string conversion of [v] or the [eval] of the assembled function
    throws, and only for a truthy [v] that is not callable; otherwise it
    returns a function, the falsy value [v] itself, or, for a truthy [v],
    [null] (a lambda with unbalanced parentheses) or [false] (no lambda).
    [asFunc(v)] either returns what [asFunc(v, false)] returns, which is then
    a function or the falsy value [v] itself, or it throws, which it does
    exactly for the truthy values for which [asFunc(v, false)] throws or
    returns [null] or [false]. *)
Theorem asFunc_returns_a_function_or_gives_up (v : JsValue F O) :
  match Args.asFunc v false with
  | Return r =>
      (exists f, r = JsFunction f) \/
      (r = v /\ Args.truthy v = false) \/
      (Args.truthy v = true /\ (r = JsNull \/ r = JsBoolean false))
  | Throw m =>
      Args.truthy v = true /\
      (forall f, v <> JsFunction f) /\
      (Args.to_string v = Throw m \/
       exists lambda matches lambdaBody,
         Args.to_string v = Return lambda /\
         lambda_match lambda = Some matches /\
         eval_function (match_3 matches) lambdaBody = Throw m)
  end /\
  match Args.asFunc v true with
  | Return r =>
      Args.asFunc v false = Return r /\
      ((exists f, r = JsFunction f) \/ (r = v /\ Args.truthy v = false))
  | Throw m =>
      Args.truthy v = true /\
      (Args.asFunc v false = Throw m \/
       Args.asFunc v false = Return JsNull \/
       Args.asFunc v false = Return (JsBoolean false))
  end.
Proof.
  destruct v as [ | | b | n | | str | f | o ].
  7: { simpl. split; [ left; eauto | ]. split; [ reflexivity | left; eauto ]. }
  all: unfold Args.asFunc;
    destruct (Args.truthy _) eqn:Htruthy; cbn [negb];
    [ | split; [ right; left; split; reflexivity
               | split; [ reflexivity | right; split; reflexivity ] ] ].
  all: destruct (Args.to_string _) as [ lambda | m ] eqn:Hstring;
    [ | split; [ split; [ reflexivity | split; [ discriminate | left; reflexivity ] ]
               | split; [ reflexivity | left; reflexivity ] ] ].
  all: destruct (lambda_match lambda) as [ matches | ] eqn:Hmatch;
    [ | split; [ right; right; split; [ reflexivity | right; reflexivity ]
               | split; [ reflexivity | right; right; reflexivity ] ] ].
  all: destruct (_ || _);
    [ split; [ right; right; split; [ reflexivity | left; reflexivity ]
             | split; [ reflexivity | right; left; reflexivity ] ] | ].
  all: destruct (eval_function _ _) as [ func | m ] eqn:Heval;
    [ split; [ left; eauto | split; [ reflexivity | left; eauto ] ]
    | split; [ split; [ reflexivity | split; [ discriminate | right; eauto 10 ] ]
             | split; [ reflexivity | left; reflexivity ] ] ].
Qed.
End AsFuncFacts.

(** ** [Collection], [List] and [HashSet]: the methods that only read *)

Section CollectionReadFacts.
Context {T : Type} `{JsEquals T}.

Implicit Types (c : Collection.Collection T) (ec : EqualityComparer T).

Lemma indexOf_loop_first_match ec (arr : list T) (item : T) :
  forall i,
    let r := Collection.indexOf_loop ec arr item i in
    0 <= i ->
    (r = -1 /\ Forall (fun x => ec x item = false) arr) \/
    (i <= r < i + Z.of_nat (length arr) /\
     exists x, arr !! Z.to_nat (r - i) = Some x /\ ec x item = true /\
               Forall (fun y => ec y item = false) (firstn (Z.to_nat (r - i)) arr)).
Proof.
  induction arr as [ | x arr IH ]; intros i r Hi; subst r; simpl.
  - left. split; [ reflexivity | constructor ].
  - destruct (ec x item) eqn:Hx.
    + right. split; [ lia | ]. exists x. replace (Z.to_nat (i - i)) with 0%nat by lia.
      simpl. repeat split; [ exact Hx | constructor ].
    + destruct (IH (i + 1) ltac:(lia)) as [ [Hr Hall] | (Hr & y & Hy & Hmatch & Hbefore) ].
      * left. split; [ exact Hr | constructor; assumption ].
      * right. split; [ lia | ]. exists y.
        replace (Z.to_nat (Collection.indexOf_loop ec arr item (i + 1) - i))
          with (S (Z.to_nat (Collection.indexOf_loop ec arr item (i + 1) - (i + 1))))
          by lia.
        simpl. split; [ exact Hy | ]. split; [ exact Hmatch | ].
        constructor; assumption.
Qed.

(** X28.  [List.indexOf(item)] returns -1 when the comparer, called as
    [comparer(x, item)], accepts no item [x] of the list, and
    [containsItem(item)] is then false; otherwise it returns the position of
    the first item the comparer accepts, [getItem] at that position returns
    it, and [containsItem(item)] is true.  [getItem] returns undefined
    outside the list. *)
Theorem indexOf_finds_the_first_match c (item : T) :
  let i := Collection.indexOf c item in
  ((i = -1 /\
    Collection.containsItem c item = false /\
    Forall (fun x => Collection._comparer c x item = false) (Collection._arr c)) \/
   (0 <= i < Collection.length_ c /\
    Collection.containsItem c item = true /\
    exists x,
      Collection.getItem c i = Some x /\
      Collection._comparer c x item = true /\
      Forall (fun y => Collection._comparer c y item = false)
        (firstn (Z.to_nat i) (Collection._arr c)))) /\
  (forall j, j < 0 \/ Collection.length_ c <= j -> Collection.getItem c j = None).
Proof.
  intros i. subst i. unfold Collection.indexOf, Collection.containsItem,
    Collection.getItem, Collection.length_.
  split.
  - destruct (indexOf_loop_first_match (Collection._comparer c) (Collection._arr c) item 0
                ltac:(lia)) as [ [Hr Hall] | (Hr & x & Hx & Hmatch & Hbefore) ].
    + left. split; [ exact Hr | ]. split; [ | exact Hall ].
      destruct (existsb _ _) eqn:Hex; [ | reflexivity ].
      apply existsb_exists in Hex as (x & Hx & Hmatch).
      rewrite Forall_forall in Hall. apply list_elem_of_In in Hx.
      specialize (Hall x Hx). congruence.
    + right. rewrite Z.sub_0_r in *. split; [ lia | ]. split.
      * apply existsb_exists. exists x. split; [ | exact Hmatch ].
        apply list_elem_of_In. eapply list_elem_of_lookup_2. exact Hx.
      * exists x. destruct (Z.ltb_spec (Collection.indexOf_loop (Collection._comparer c)
                                         (Collection._arr c) item 0) 0); [ lia | ].
        repeat split; assumption.
  - intros j [ Hj | Hj ].
    + destruct (Z.ltb_spec j 0); [ reflexivity | lia ].
    + destruct (Z.ltb_spec j 0); [ reflexivity | ]. apply lookup_ge_None. lia.
Qed.

Lemma containsItem_In c (x : T) :
  decides_equality (Collection._comparer c) ->
  Collection.containsItem c x = true <-> In x (Collection._arr c).
Proof.
  intros Hec. unfold Collection.containsItem. rewrite existsb_exists. split.
  - intros (y & Hy & Hyx). apply Hec in Hyx. subst y. exact Hy.
  - intros Hx. exists x. split; [ exact Hx | ]. apply Hec. reflexivity.
Qed.

Lemma decides_equality_function ec :
  decides_equality ec -> decides_equality (Enumerable.toEqualityComparerSafe (EcFunction ec)).
Proof.
  intros Hec x y. simpl. specialize (Hec x y). destruct (ec x y); exact Hec.
Qed.

Lemma new_HashSet_In (seq : list T) (comparer : EqualityComparerArg T) (x : T) :
  decides_equality (Enumerable.toEqualityComparerSafe comparer) ->
  In x (Collection._arr (Collection.new_ Collection.ClassHashSet seq comparer)) <-> In x seq.
Proof.
  intros Hec. simpl. apply distinct_same_items. apply decides_equality_function, Hec.
Qed.

Lemma comparer_symmetric (ec : EqualityComparer T) (x y : T) :
  decides_equality ec -> ec x y = ec y x.
Proof.
  intros Hec. destruct (ec x y) eqn:Hxy, (ec y x) eqn:Hyx; try reflexivity.
  - pose proof (proj1 (Hec x y) Hxy) as Heq. subst y. congruence.
  - pose proof (proj1 (Hec y x) Hyx) as Heq. subst y. congruence.
Qed.

(** X29.  A [HashSet] made with a comparer that decides equality holds
    every item of its source exactly once, in the order of the first
    occurrences: the set of the empty source is empty, and the set of a source
    followed by [x] is the set of the source, followed by [x] if [x] is not
    in it already.  [containsItem] tells whether an item is in the source,
    [isSubsetOf(other)] whether every item of the set is an item of [other],
    and [isProperSubsetOf(other)] whether, besides, [other] has more distinct
    items than the set. *)
Theorem HashSet_holds_each_item_once (seq other : list T) (comparer : EqualityComparerArg T) :
  decides_equality (Enumerable.toEqualityComparerSafe comparer) ->
  let hs := Collection.new_ Collection.ClassHashSet seq comparer in
  Collection._arr (Collection.new_ Collection.ClassHashSet [] comparer) = [] /\
  (forall pre x,
     Collection._arr (Collection.new_ Collection.ClassHashSet (pre ++ [x]) comparer) =
     Collection._arr (Collection.new_ Collection.ClassHashSet pre comparer) ++
       (if Collection.containsItem (Collection.new_ Collection.ClassHashSet pre comparer) x
        then [] else [x])) /\
  NoDup (Collection._arr hs) /\
  sublist (Collection._arr hs) seq /\
  (forall x, Collection.containsItem hs x = true <-> In x seq) /\
  (Collection.isSubsetOf hs other = true <-> forall x, In x seq -> In x other) /\
  (Collection.isProperSubsetOf hs other = true <->
   (forall x, In x seq -> In x other) /\
   Collection.length_ hs <
     Collection.length_ (Collection.toSet other (Collection._comparer hs))).
Proof.
  intros Hec hs.
  assert (Hec' : decides_equality (Collection._comparer hs)) by exact Hec.
  assert (Hin : forall x, In x (Collection._arr hs) <-> In x seq)
    by (intros x; apply new_HashSet_In, Hec).
  assert (Hother : forall t,
            Collection.containsItem
              (Collection.new_ Collection.ClassHashSet other
                 (EcFunction (Collection._comparer hs))) t = true <-> In t other).
  { intros t. rewrite containsItem_In.
    - apply new_HashSet_In. apply decides_equality_function, Hec'.
    - apply decides_equality_function, Hec'. }
  split; [ reflexivity | ]. split.
  { intros pre x. unfold Collection.containsItem. simpl.
    rewrite !distinct_unfold, distinctInner_loop_snoc. cbn zeta. cbn [app]. f_equal.
    rewrite (existsb_pointwise
               (fun existingItem =>
                  Enumerable.toEqualityComparerSafe
                    (EcFunction (Enumerable.toEqualityComparerSafe comparer)) x existingItem)
               (fun y => Enumerable.toEqualityComparerSafe comparer y x));
      [ reflexivity | ].
    intros y. rewrite toEqualityComparerSafe_function.
    apply comparer_symmetric, Hec. }
  split; [ | split; [ | split; [ | split ] ] ].
  - subst hs. simpl. rewrite distinct_unfold. apply NoDup_alt. intros i j x Hi Hj.
    destruct (distinctInner_loop_new
                (Enumerable.toEqualityComparerSafe
                   (EcFunction (Enumerable.toEqualityComparerSafe comparer))) seq [])
      as [_ Hpair].
    pose proof (decides_equality_function _ Hec) as Hdec.
    destruct (Nat.lt_total i j) as [ Hlt | [ Heq | Hgt ] ]; [ | exact Heq | ].
    + specialize (Hpair i j x x Hlt Hi Hj).
      assert (Enumerable.toEqualityComparerSafe
                (EcFunction (Enumerable.toEqualityComparerSafe comparer)) x x = true)
        by (apply Hdec; reflexivity).
      congruence.
    + specialize (Hpair j i x x Hgt Hj Hi).
      assert (Enumerable.toEqualityComparerSafe
                (EcFunction (Enumerable.toEqualityComparerSafe comparer)) x x = true)
        by (apply Hdec; reflexivity).
      congruence.
  - subst hs. simpl. rewrite distinct_unfold. apply distinctInner_loop_sublist.
  - intros x. rewrite (containsItem_In hs x Hec'). apply Hin.
  - unfold Collection.isSubsetOf, Collection.toSet.
    destruct (Z.ltb_spec (Collection.length_ hs) 1) as [ Hempty | Hitems ].
    + split; [ | reflexivity ]. intros _ x Hx. apply Hin in Hx.
      unfold Collection.length_ in Hempty.
      destruct (Collection._arr hs); [ contradiction | simpl in Hempty; lia ].
    + rewrite forallb_forall. split.
      * intros Hall x Hx. apply Hother, Hall, Hin, Hx.
      * intros Hall x Hx. apply Hother, Hall, Hin, Hx.
  - unfold Collection.isProperSubsetOf, Collection.toSet.
    set (otherHS := Collection.new_ Collection.ClassHashSet other
                      (EcFunction (Collection._comparer hs))) in *.
    destruct (Z.ltb_spec (Collection.length_ hs) 1) as [ Hempty | Hitems ].
    + assert (Hnone : forall x, In x seq -> In x other).
      { intros x Hx. apply Hin in Hx. unfold Collection.length_ in Hempty.
        destruct (Collection._arr hs); [ contradiction | simpl in Hempty; lia ]. }
      assert (0 <= Collection.length_ hs) by (unfold Collection.length_; lia).
      destruct (Z.gtb_spec (Collection.length_ otherHS) 0) as [ Hmore | Hnomore ].
      * split; [ intros _; split; [ exact Hnone | lia ] | reflexivity ].
      * split; [ discriminate | ]. intros [_ Hless]. lia.
    + destruct (Z.ltb_spec (Collection.length_ hs) (Collection.length_ otherHS))
        as [ Hless | Hnotless ].
      * rewrite forallb_forall. split.
        -- intros Hall. split; [ | exact Hless ]. intros x Hx. apply Hother, Hall, Hin, Hx.
        -- intros [Hall _] x Hx. apply Hother, Hall, Hin, Hx.
      * split; [ discriminate | ]. intros [_ Hless]. lia.
Qed.

Lemma containsItem_own_items c :
  reflexive_comparer (Collection._comparer c) ->
  forallb (fun o => Collection.containsItem c o) (Collection._arr c) = true.
Proof.
  intros Hec. apply forallb_forall. intros o Ho. unfold Collection.containsItem.
  apply existsb_exists. exists o. split; [ exact Ho | apply Hec ].
Qed.

(** X30.  [isSupersetOf], [isProperSupersetOf] and [setEquals] never look at
    the items of the other sequence: the enumerator they go through is the
    one of the set itself.  With a comparer that holds every item equal to
    itself, [isSupersetOf(other)] is true for every [other],
    [isProperSupersetOf(other)] is true exactly when the set is not empty,
    and [setEquals(other)] is true exactly when the set and the distinct
    items of [other] are equally many. *)
Theorem superset_tests_look_at_the_set_alone c (other : list T) :
  reflexive_comparer (Collection._comparer c) ->
  Collection.isSupersetOf c other = true /\
  Collection.isProperSupersetOf c other = negb (Collection.length_ c <? 1) /\
  Collection.setEquals c other =
    (Collection.length_ c =?
     Collection.length_ (Collection.toSet other (Collection._comparer c))).
Proof.
  intros Hec. pose proof (containsItem_own_items c Hec) as Hown.
  unfold Collection.isSupersetOf, Collection.isProperSupersetOf, Collection.setEquals.
  rewrite Hown. split; [ | split ].
  - destruct (_ <? 1); [ reflexivity | ]. destruct (_ <? 1); reflexivity.
  - destruct (Collection.length_ c <? 1); [ reflexivity | ]. destruct (_ <? 1); reflexivity.
  - destruct (_ =? _); reflexivity.
Qed.
End CollectionReadFacts.

(** ** The further properties on concrete inputs *)

Section MoreExamples.

#[local] Existing Instance example_host_Predciate.

(** The default comparer of numbers decides equality. *)
Lemma loose_eq_Z_decides_equality :
  decides_equality (Enumerable.toEqualityComparerSafe (T := Z) EcUndefined).
Proof. intros x y. simpl. apply Z.eqb_eq. Qed.

Lemma loose_eq_Z_reflexive (arr : list Z) :
  reflexive_comparer
    (Collection._comparer (Collection.new_ Collection.ClassHashSet arr EcUndefined)).
Proof. intros x. simpl. apply Z.eqb_refl. Qed.


(** X5 on [[1, 2, 3]] except the array [[2]] *)
Lemma except_keeps_the_unmatched_witness :
  decides_equality (Enumerable.toEqualityComparerSafe (T := Z) EcUndefined) /\
  forall x,
    In x (Operators.except (SeqArrayLike [2]) EcUndefined [1; 2; 3]) <->
    In x [1; 2; 3] /\ forall y, In y [2] -> (x =? y) = false.
Proof.
  split; [ exact loose_eq_Z_decides_equality | ].
  destruct (except_keeps_the_unmatched (T := Z) EcUndefined [1; 2; 3] SeqUndefined [2] [])
    as (_ & Hitems & _).
  exact (Hitems loose_eq_Z_decides_equality).
Defined.

(** X6 on [[3, 1, 3, 2]] and the array [[2, 3, 3]]: the second 3 of the
    array is dropped by [distinct], so the second 3 of the source finds
    nothing. *)
Lemma intersect_uses_up_the_matches_witness :
  decides_equality (Enumerable.toEqualityComparerSafe (T := Z) EcUndefined) /\
  Operators.intersect (SeqArrayLike [2; 3; 3]) EcUndefined [3; 1; 3; 2] = [3; 2] /\
  forall x,
    In x (Operators.intersect (SeqArrayLike [2; 3; 3]) EcUndefined [3; 1; 3; 2]) <->
    In x [3; 1; 3; 2] /\ In x [2; 3; 3].
Proof.
  split; [ exact loose_eq_Z_decides_equality | ]. split; [ reflexivity | ].
  destruct (intersect_uses_up_the_matches (T := Z) EcUndefined [3; 1; 3; 2] SeqUndefined 0
              [] [2; 3; 3] [])
    as (_ & _ & _ & _ & _ & _ & _ & Hitems & _).
  exact (Hitems loose_eq_Z_decides_equality loose_eq_Z_decides_equality).
Defined.

(** X24 on [[1, 2, 5, 1]], with the predicate [x < 3] that cancels at
    index 1: [takeWhile] takes the 5 as well. *)
Lemma cancel_in_takeWhile_and_skipWhile_witness :
  (1 < length [1; 2; 5; 1])%nat /\
  forallb (fun x => x <? 3) (firstn 2 [1; 2; 5; 1]) = true /\
  fst (Operators.takeWhile (Closure := unit) (V := unit)
         (JsFunction (cancelling_at (fun x => x <? 3) 1)) [1; 2; 5; 1] tt) =
    Return [1; 2; 5; 1] /\
  fst (Operators.skipWhile (Closure := unit) (V := unit)
         (JsFunction (cancelling_at (fun x => x <? 3) 1)) [1; 2; 5; 1] tt) =
    Return [2; 5; 1].
Proof.
  split; [ simpl; lia | ]. split; [ reflexivity | ].
  apply (cancel_in_takeWhile_and_skipWhile (Closure := unit) (V := unit)
           (fun x => x <? 3) 1 [1; 2; 5; 1] tt); [ simpl; lia | reflexivity ].
Defined.

(** X29 on the set of [[1, 2, 1]] *)
Lemma HashSet_holds_each_item_once_witness :
  decides_equality (Enumerable.toEqualityComparerSafe (T := Z) EcUndefined) /\
  let hs := Collection.new_ Collection.ClassHashSet [1; 2; 1] EcUndefined in
  Collection._arr (Collection.new_ Collection.ClassHashSet (@nil Z) EcUndefined) = [] /\
  (forall pre x,
     Collection._arr (Collection.new_ Collection.ClassHashSet (pre ++ [x]) EcUndefined) =
     Collection._arr (Collection.new_ Collection.ClassHashSet pre EcUndefined) ++
       (if Collection.containsItem (Collection.new_ Collection.ClassHashSet pre EcUndefined) x
        then [] else [x])) /\
  NoDup (Collection._arr hs) /\
  sublist (Collection._arr hs) [1; 2; 1] /\
  (forall x, Collection.containsItem hs x = true <-> In x [1; 2; 1]) /\
  (Collection.isSubsetOf hs [2; 1; 3] = true <->
   forall x, In x [1; 2; 1] -> In x [2; 1; 3]) /\
  (Collection.isProperSubsetOf hs [2; 1; 3] = true <->
   (forall x, In x [1; 2; 1] -> In x [2; 1; 3]) /\
   Collection.length_ hs <
     Collection.length_ (Collection.toSet [2; 1; 3] (Collection._comparer hs))).
Proof.
  split; [ exact loose_eq_Z_decides_equality | ].
  exact (HashSet_holds_each_item_once [1; 2; 1] [2; 1; 3] EcUndefined
           loose_eq_Z_decides_equality).
Defined.

(** X30 on the set of [[1, 2]] and the sequence [[3, 4]] *)
Lemma superset_tests_look_at_the_set_alone_witness :
  let c := Collection.new_ Collection.ClassHashSet [1; 2] EcUndefined in
  reflexive_comparer (Collection._comparer c) /\
  Collection.isSupersetOf c [3; 4] = true /\
  Collection.isProperSupersetOf c [3; 4] = true /\
  Collection.setEquals c [3; 4] = true.
Proof.
  intros c. split; [ exact (loose_eq_Z_reflexive [1; 2]) | ].
  exact (superset_tests_look_at_the_set_alone c [3; 4] (loose_eq_Z_reflexive [1; 2])).
Defined.
End MoreExamples.
